(** * wepy.hdf5: a shallow embedding of the WepyHDF5 archive driver

    The development follows [src/wepy/hdf5.py].  An HDF5 file is modelled by
    the tree of groups and datasets the driver creates in it; every method of
    [WepyHDF5] that the properties below talk about is transcribed as a
    function over that tree.  Python exceptions are values of [pyerr]; a
    method that mutates the file is a computation in the monad [M], which
    keeps the file as it was left at the moment an exception is raised (h5py
    has no rollback). *)

From stdpp Require Import gmap strings list fin_maps pretty.
From Stdlib Require Import ZArith Lia Ascii.

Set Default Proof Using "Type".
Open Scope Z_scope.
Open Scope nat_scope.

(** ** Exceptions and the two computation shapes *)

Inductive pyerr : Set :=
| KeyError | IndexError | ValueError | TypeError | NameError
| AssertionError | AttributeError
| H5Error (* what h5py raises when the file refuses the operation: a write
             through a read-only handle, a name that already exists *).

Inductive outcome (A : Type) : Type :=
| Ok (a : A)
| Raise (e : pyerr).
Arguments Ok {A} a.
Arguments Raise {A} e.

#[global] Instance outcome_ret : MRet outcome := fun _ a => Ok a.
#[global] Instance outcome_bind : MBind outcome := fun _ _ f c =>
  match c with
  | Ok a => f a
  | Raise e => Raise e
  end.

#[global] Instance outcome_fmap : FMap outcome := fun _ _ f c =>
  match c with
  | Ok a => Ok (f a)
  | Raise e => Raise e
  end.

Definition is_ok {A} (c : outcome A) : bool :=
  match c with Ok _ => true | Raise _ => false end.

(** [from_option e o]: subscripting that raises [e] when the key or index is
    missing. *)
Definition from_option {A} (e : pyerr) (o : option A) : outcome A :=
  match o with Some a => Ok a | None => Raise e end.

(** [py_assert b]: the [assert] statement. *)
Definition py_assert (b : bool) : outcome unit :=
  if b then Ok tt else Raise AssertionError.

(** Traversal of a list by a computation that may raise (a [for] loop that
    collects one value per element). *)
Fixpoint mapM_outcome {A B} (f : A -> outcome B) (l : list A) : outcome (list B) :=
  match l with
  | [] => Ok []
  | a :: l' => b ← f a; bs ← mapM_outcome f l'; Ok (b :: bs)
  end.

(** A mutating method: from the store before to an outcome and the store
    after.  The store after a [Raise] is the store as the exception left it. *)
Definition M (S A : Type) : Type := S -> outcome A * S.

Definition ret_M {S A} (a : A) : M S A := fun s => (Ok a, s).
Definition raise_M {S A} (e : pyerr) : M S A := fun s => (Raise e, s).
Definition bind_M {S A B} (c : M S A) (k : A -> M S B) : M S B := fun s =>
  match c s with
  | (Ok a, s') => k a s'
  | (Raise e, s') => (Raise e, s')
  end.
Definition get_M {S} : M S S := fun s => (Ok s, s).
Definition put_M {S} (s : S) : M S unit := fun _ => (Ok tt, s).
Definition lift_M {S A} (c : outcome A) : M S A := fun s => (c, s).
Definition read_M {S A} (f : S -> outcome A) : M S A := fun s => (f s, s).

#[global] Instance M_ret {S} : MRet (M S) := fun _ a => ret_M a.
#[global] Instance M_bind {S} : MBind (M S) := fun _ _ k c => bind_M c k.

(** A [for] loop executed for its effect. *)
Fixpoint for_M {S A} (l : list A) (body : A -> M S unit) : M S unit :=
  match l with
  | [] => ret_M tt
  | a :: l' => body a;; for_M l' body
  end.

(** ** [collections.namedtuple]

    Names are strings of ASCII characters.  [namedtuple(typename,
    field_names)] raises [ValueError] unless the type name and every field
    name is an identifier and no keyword, no field name starts with an
    underscore, and no field name occurs twice; the type it returns is
    represented by its field names. *)

Definition is_ascii_letter (c : ascii) : bool :=
  let n := nat_of_ascii c in
  (65 <=? n) && (n <=? 90) || (97 <=? n) && (n <=? 122).
Definition is_ascii_digit (c : ascii) : bool :=
  let n := nat_of_ascii c in (48 <=? n) && (n <=? 57).
Definition is_id_start (c : ascii) : bool :=
  is_ascii_letter c || bool_decide (c = "_"%char).
Definition is_id_continue (c : ascii) : bool :=
  is_id_start c || is_ascii_digit c.

(** [str.isidentifier]. *)
Definition isidentifier (name : string) : bool :=
  match name with
  | EmptyString => false
  | String c rest => is_id_start c && forallb is_id_continue (String.list_ascii_of_string rest)
  end.

(** [keyword.kwlist] and [keyword.iskeyword]. *)
Definition kwlist : list string :=
  ["False"; "None"; "True"; "and"; "as"; "assert"; "async"; "await"; "break";
   "class"; "continue"; "def"; "del"; "elif"; "else"; "except"; "finally";
   "for"; "from"; "global"; "if"; "import"; "in"; "is"; "lambda"; "nonlocal";
   "not"; "or"; "pass"; "raise"; "return"; "try"; "while"; "with"; "yield"].
Definition iskeyword (name : string) : bool := bool_decide (name ∈ kwlist).

Definition startswith_underscore (name : string) : bool :=
  match name with
  | String c _ => bool_decide (c = "_"%char)
  | EmptyString => false
  end.

Definition namedtuple (typename : string) (field_names : list string)
  : outcome (list string) :=
  if negb (forallb (fun name => isidentifier name && negb (iskeyword name))
             (typename :: field_names))
  then Raise ValueError
  else if existsb startswith_underscore field_names then Raise ValueError
  else if bool_decide (NoDup field_names) then Ok field_names
  else Raise ValueError.

(** ** numpy and h5py primitives used by the driver *)

Section Numpy.
Context {X : Type}.

(** [np.isin(xs, ys)] on integer arrays. *)
Definition np_isin (xs ys : list nat) : list bool :=
  (fun x => bool_decide (x ∈ ys)) <$> xs.

(** [np.argwhere(bs)] for a one-dimensional boolean array: the positions
    holding [True], in increasing order. *)
Fixpoint np_argwhere_from (i : nat) (bs : list bool) : list nat :=
  match bs with
  | [] => []
  | b :: bs' =>
      if b then i :: np_argwhere_from (S i) bs' else np_argwhere_from (S i) bs'
  end.
Definition np_argwhere (bs : list bool) : list nat := np_argwhere_from 0 bs.

(** [np.full((n, ...), v)]. *)
Definition np_full (n : nat) (v : X) : list X := replicate n v.

(** [a[idxs]] on a numpy array, integer-array indexing: every index must
    be in range. *)
Definition np_take (a : list X) (idxs : list nat) : outcome (list X) :=
  mapM_outcome (fun i => from_option IndexError (a !! i)) idxs.

(** The shape rule of an assignment [target[...] = vals] whose target has
    [n] rows: [vals] has [n] rows, or one row that is broadcast. *)
Definition np_broadcast_rows (n : nat) (vals : list X) : outcome (list X) :=
  if decide (length vals = n) then Ok vals
  else match vals with
       | [v] => Ok (replicate n v)
       | _ => Raise ValueError
       end.

(** [a[idxs] = vals], integer-array indexing: indices are checked, then the
    rows are stored one after the other (a repeated index keeps the last
    row). *)
Definition np_put (a : list X) (idxs : list nat) (vals : list X) : outcome (list X) :=
  if forallb (fun i => bool_decide (i < length a)) idxs then
    vs ← np_broadcast_rows (length idxs) vals;
    Ok (foldl (fun acc iv => <[iv.1 := iv.2]> acc) a (zip idxs vs))
  else Raise IndexError.

(** [a[idxs] = v] with a scalar [v]. *)
Definition np_put_scalar (a : list X) (idxs : list nat) (v : X) : outcome (list X) :=
  if forallb (fun i => bool_decide (i < length a)) idxs then
    Ok (foldl (fun acc i => <[i := v]> acc) a idxs)
  else Raise IndexError.

(** [a[bm] = vals] with a boolean mask [bm] as long as [a]: the rows of
    [vals] go, in order, to the positions where the mask holds. *)
Fixpoint np_mask_fill (a : list X) (bm : list bool) (vals : list X) : list X :=
  match a, bm with
  | x :: a', true :: bm' =>
      match vals with
      | v :: vals' => v :: np_mask_fill a' bm' vals'
      | [] => x :: np_mask_fill a' bm' []
      end
  | x :: a', false :: bm' => x :: np_mask_fill a' bm' vals
  | _, _ => a
  end.

Definition count_true (bm : list bool) : nat := length (filter (fun b => b = true) bm).

Definition np_put_mask (a : list X) (bm : list bool) (vals : list X) : outcome (list X) :=
  if decide (length bm = length a) then
    vs ← np_broadcast_rows (count_true bm) vals;
    Ok (np_mask_fill a bm vs)
  else Raise IndexError.

(** [a[bm] = v] with a scalar [v]. *)
Definition np_put_mask_scalar (a : list X) (bm : list bool) (v : X) : outcome (list X) :=
  if decide (length bm = length a) then
    Ok (zip_with (fun x (b : bool) => if b then v else x) a bm)
  else Raise IndexError.

(** [dset[idxs]] on an h5py dataset with a list of indices: h5py accepts a
    point selection only when the indices are in range and strictly
    increasing. *)
Fixpoint strictly_increasing (l : list nat) : bool :=
  match l with
  | [] => true
  | x :: l' =>
      match l' with
      | [] => true
      | y :: _ => bool_decide (x < y) && strictly_increasing l'
      end
  end.

Definition h5_take (rows : list X) (idxs : list nat) : outcome (list X) :=
  if strictly_increasing idxs then
    mapM_outcome (fun i => from_option IndexError (rows !! i)) idxs
  else Raise TypeError.

(** [np.hstack(bundles)] for arrays of rank two or more: the bundles are
    joined along axis 1 and must agree on axis 0. *)
Definition np_hstack (bundles : list (list (list X))) : outcome (list (list X)) :=
  match bundles with
  | [] => Raise ValueError
  | b :: bs =>
      if forallb (fun b' => bool_decide (length b' = length b)) bs
      then Ok (foldl (zip_with app) b bs)
      else Raise ValueError
  end.

(** [np.swapaxes(m, 0, 1)] on a non-empty stack of rows of equal length. *)
Fixpoint swapaxes01 (m : list (list X)) : list (list X) :=
  match m with
  | [] => []
  | r :: m' =>
      match m' with
      | [] => (fun x => [x]) <$> r
      | _ :: _ => zip_with cons r (swapaxes01 m')
      end
  end.
End Numpy.

(** ** Keys of the HDF5 layout *)

Definition POSITIONS : string := "positions".
Definition WEIGHTS : string := "weights".
Definition RUN_IDX : string := "run_idx".
Definition CYCLE_IDX : string := "cycle_idx".

Definition RESAMPLING : string := "resampling".
Definition RESAMPLER : string := "resampler".
Definition WARPING : string := "warping".
Definition PROGRESS : string := "progress".
Definition BC : string := "boundary_conditions".
Definition SPORADIC_RECORDS : list string := [RESAMPLER; WARPING; RESAMPLING; BC].

Definition NONE_STR : string := "None".

(** ** The file tree *)

Section Archive.
(** [frame]: the feature array one trajectory frame holds for one field;
    [scalar]: the element type of record fields. *)
Context {frame scalar : Type}.

(** A field of a trajectory group: a dataset with one row per frame, or,
    for a sparse field, a group holding [data] and [_sparse_idxs]. *)
Inductive traj_field : Type :=
| Dataset (rows : list frame)
| SparseGrp (data : list frame) (sparse_idxs : list nat).

(** A dataset of a record group: created by [_init_run_records_field]
    either with a variable-length element type and shape [(n,)], or with
    shape [(n, *field_shape)]; a row is kept flat. *)
Inductive rec_dset : Type :=
| VlenDset (rows : list (list scalar))
| FixedDset (feat_shape : list nat) (rows : list (list scalar)).

(** A record group: its field datasets and, for a sporadic group, the
    [_cycle_idxs] dataset. *)
Record rec_grp : Type := RecGrp {
  g_cycle_idxs : option (list nat);
  g_dsets : gmap string rec_dset
}.

Inductive attr_val : Type := AInt (z : Z) | AStr (s : string).

(** A run group.  [trajectories] and the runs of a file are named by
    consecutive integers from 0 ([next_run_traj_idx], [next_run_idx]), so
    both are lists. *)
Record Run : Type := MkRun {
  r_init_walkers : list (gmap string frame);
  r_trajectories : list (gmap string traj_field);
  r_records : gmap string rec_grp;
  r_attrs : gmap string attr_val
}.

(** What [_settings/field_feature_shapes/<path>] stores: the shape as an
    integer array, or the dimensionless NaN written for [None]. *)
Inductive shape_data : Type := ShapeNaN | ShapeArr (dims : list nat).

Record Settings : Type := MkSettings {
  s_sparse_fields : list string;
  s_n_dims : nat;
  s_n_atoms : nat;
  s_main_rep_idxs : list nat;
  s_alt_reps_idxs : gmap string (list nat);
  s_field_feature_shapes : gmap string shape_data;
  s_field_feature_dtypes : gmap string string;
  s_record_fields : gmap string (list string);
  (** [None]: the [continuations] dataset has not been created. *)
  s_continuations : option (list (Z * Z))
}.

Record H5File : Type := MkH5 {
  f_topology : string;
  f_units : gmap string string;
  f_settings : Settings;
  f_runs : list Run
}.

(** An open [WepyHDF5] object: the file behind [self._h5], whether the
    handle permits writing, and the warnings its methods have issued. *)
Record WepyHDF5 : Type := MkWepy {
  h5 : H5File;
  writable : bool;
  warnings : list string
}.

Definition set_settings (f : H5File) (st : Settings) : H5File :=
  MkH5 (f_topology f) (f_units f) st (f_runs f).
Definition set_runs (f : H5File) (rs : list Run) : H5File :=
  MkH5 (f_topology f) (f_units f) (f_settings f) rs.
Definition set_sparse_fields (st : Settings) (l : list string) : Settings :=
  MkSettings l (s_n_dims st) (s_n_atoms st) (s_main_rep_idxs st) (s_alt_reps_idxs st)
    (s_field_feature_shapes st) (s_field_feature_dtypes st) (s_record_fields st)
    (s_continuations st).
Definition set_shapes (st : Settings) (m : gmap string shape_data) : Settings :=
  MkSettings (s_sparse_fields st) (s_n_dims st) (s_n_atoms st) (s_main_rep_idxs st)
    (s_alt_reps_idxs st) m (s_field_feature_dtypes st) (s_record_fields st)
    (s_continuations st).
Definition set_dtypes (st : Settings) (m : gmap string string) : Settings :=
  MkSettings (s_sparse_fields st) (s_n_dims st) (s_n_atoms st) (s_main_rep_idxs st)
    (s_alt_reps_idxs st) (s_field_feature_shapes st) m (s_record_fields st)
    (s_continuations st).
Definition set_continuations (st : Settings) (c : option (list (Z * Z))) : Settings :=
  MkSettings (s_sparse_fields st) (s_n_dims st) (s_n_atoms st) (s_main_rep_idxs st)
    (s_alt_reps_idxs st) (s_field_feature_shapes st) (s_field_feature_dtypes st)
    (s_record_fields st) c.

Abbreviation method := (M WepyHDF5).

(** [warn(msg)]. *)
Definition warn (msg : string) : method unit := fun w =>
  (Ok tt, MkWepy (h5 w) (writable w) (warnings w ++ [msg])).

(** Any h5py call that changes the file: refused through a read-only
    handle. *)
Definition h5_modify (upd : H5File -> H5File) : method unit := fun w =>
  if writable w then (Ok tt, MkWepy (upd (h5 w)) (writable w) (warnings w))
  else (Raise H5Error, w).

Definition modify_settings (upd : Settings -> Settings) : method unit :=
  h5_modify (fun f => set_settings f (upd (f_settings f))).

(** The [settings_grp] property. *)
Definition settings_grp (w : WepyHDF5) : Settings := f_settings (h5 w).

(** *** Settings: sparse field flags *)

(** The [sparse_fields] property. *)
Definition sparse_fields (w : WepyHDF5) : list string :=
  s_sparse_fields (settings_grp w).

Definition _add_sparse_field_flag (field_path : string) : method unit :=
  w ← get_M;
  let sparse_fields_ds := s_sparse_fields (settings_grp w) in
  (if bool_decide (field_path ∈ sparse_fields_ds)
   then warn ("sparse field " +:+ field_path +:+ " already a sparse field, ignoring")
   else ret_M tt);;
  modify_settings (fun st => set_sparse_fields st (sparse_fields_ds ++ [field_path])).

(** *** Settings: feature shapes and dtypes *)

(** The [field_feature_shapes] property: [None] when
    [np.isnan(shape).all()] holds, which is the case for the stored NaN
    and, vacuously, for an array without elements. *)
Definition decode_shape (d : shape_data) : option (list nat) :=
  match d with
  | ShapeNaN => None
  | ShapeArr [] => None
  | ShapeArr (n :: ds) => Some (n :: ds)
  end.
Definition field_feature_shapes (w : WepyHDF5) : gmap string (option (list nat)) :=
  decode_shape <$> s_field_feature_shapes (settings_grp w).

(** The [field_feature_dtypes] property.  A dtype read back is represented
    by the JSON text it is rebuilt from. *)
Definition decode_dtype (dtype_str : string) : option string :=
  if decide (dtype_str = NONE_STR) then None else Some dtype_str.
Definition field_feature_dtypes (w : WepyHDF5) : gmap string (option string) :=
  decode_dtype <$> s_field_feature_dtypes (settings_grp w).

(** [group.create_dataset(name, ...)]: the name must be free. *)
Definition create_in {V} (m : gmap string V) (name : string) (v : V)
  : outcome (gmap string V) :=
  match m !! name with
  | Some _ => Raise H5Error
  | None => Ok (<[name := v]> m)
  end.

Definition _add_field_feature_shape (field_path : string) (field_feature_shape : list nat)
  : method unit :=
  w ← get_M;
  shapes_grp ← lift_M (create_in (s_field_feature_shapes (settings_grp w)) field_path
                         (ShapeArr field_feature_shape));
  modify_settings (fun st => set_shapes st shapes_grp).

Definition _set_field_feature_shape (field_path : string) (field_feature_shape : list nat)
  : method unit :=
  w ← get_M;
  match field_feature_shapes w !! field_path with
  | Some None =>
      modify_settings (fun st =>
        set_shapes st (delete field_path (s_field_feature_shapes st)));;
      modify_settings (fun st =>
        set_shapes st (<[field_path := ShapeArr field_feature_shape]>
                         (s_field_feature_shapes st)))
  | Some (Some _) => raise_M AttributeError
  | None => _add_field_feature_shape field_path field_feature_shape
  end.

(** [json.dumps(dtype.descr)]: the descr of a dtype is a list of
    (name, format) pairs.  Names and formats are written between quotes as
    they are. *)
Definition dquote : string := String "034"%char EmptyString.
Definition json_string (s : string) : string := dquote +:+ s +:+ dquote.
Definition json_dumps_descr (descr : list (string * string)) : string :=
  "[" +:+ String.concat ", "
            (map (fun d => "[" +:+ json_string d.1 +:+ ", " +:+ json_string d.2 +:+ "]")
                 descr)
      +:+ "]".

Definition _add_field_feature_dtype (field_path : string)
    (field_feature_dtype : list (string * string)) : method unit :=
  let feature_dtype_str := json_dumps_descr field_feature_dtype in
  w ← get_M;
  dtypes_grp ← lift_M (create_in (s_field_feature_dtypes (settings_grp w)) field_path
                         feature_dtype_str);
  modify_settings (fun st => set_dtypes st dtypes_grp).

Definition _set_field_feature_dtype (field_path : string)
    (field_feature_dtype : list (string * string)) : method unit :=
  let feature_dtype_str := json_dumps_descr field_feature_dtype in
  w ← get_M;
  match field_feature_dtypes w !! field_path with
  | Some None =>
      modify_settings (fun st =>
        set_dtypes st (delete field_path (s_field_feature_dtypes st)));;
      modify_settings (fun st =>
        set_dtypes st (<[field_path := feature_dtype_str]> (s_field_feature_dtypes st)))
  | Some (Some _) => raise_M AttributeError
  | None => _add_field_feature_dtype field_path field_feature_dtype
  end.

(** *** Settings: continuations *)

(** The [continuations] property. *)
Definition continuations (w : WepyHDF5) : outcome (list (Z * Z)) :=
  from_option KeyError (s_continuations (settings_grp w)).

Definition _init_continuations : method (list (Z * Z)) :=
  w ← get_M;
  match s_continuations (settings_grp w) with
  | Some _ =>
      (* cont_dset.resize( (0,2) ) *)
      modify_settings (fun st => set_continuations st (Some []))
  | None =>
      (* create_dataset(CONTINUATIONS, shape=(0,2), ...) *)
      modify_settings (fun st => set_continuations st (Some []))
  end;;
  ret_M [].

Definition add_continuation (continuation_run base_run : Z) : method unit :=
  w ← get_M;
  continuations_dset ← lift_M (continuations w);
  modify_settings (fun st =>
    set_continuations st (Some (continuations_dset ++ [(continuation_run, base_run)]))).

(** The inner loops of [is_run_contig]. *)
Definition contig_flag (conts : list (Z * Z)) (run_continuous : Z * Z) : bool :=
  foldl (fun contig continuous =>
           if bool_decide (run_continuous = continuous) then true else contig)
        false conts.
Fixpoint contig_loop (conts : list (Z * Z)) (run_idx_continuations : list (Z * Z)) : bool :=
  match run_idx_continuations with
  | [] => true
  | run_continuous :: rest =>
      if negb (contig_flag conts run_continuous) then false
      else contig_loop conts rest
  end.

Definition is_run_contig (w : WepyHDF5) (run_idxs : list Z) : outcome bool :=
  run_idx_continuations ←
    mapM_outcome (fun idx =>
                    a ← from_option IndexError (run_idxs !! (idx + 1));
                    b ← from_option IndexError (run_idxs !! idx);
                    Ok (a, b))
                 (seq 0 (length run_idxs - 1));
  conts ← continuations w;
  Ok (contig_loop conts run_idx_continuations).

(** *** Runs *)

Definition num_runs (w : WepyHDF5) : nat := length (f_runs (h5 w)).
Definition run_idxs (w : WepyHDF5) : list nat := seq 0 (num_runs w).
Definition next_run_idx (w : WepyHDF5) : nat := num_runs w.

(** [self._h5['runs/<run_idx>']]. *)
Definition run (w : WepyHDF5) (run_idx : nat) : outcome Run :=
  from_option KeyError (f_runs (h5 w) !! run_idx).

(** Replace the group of an existing run. *)
Definition modify_run (run_idx : nat) (upd : Run -> outcome Run) : method unit :=
  w ← get_M;
  r ← lift_M (run w run_idx);
  r' ← lift_M (upd r);
  h5_modify (fun f => set_runs f (<[run_idx := r']> (f_runs f))).

Definition set_run_attr (r : Run) (key : string) (v : attr_val) : Run :=
  MkRun (r_init_walkers r) (r_trajectories r) (r_records r) (<[key := v]> (r_attrs r)).

Definition _add_run_init (run_idx : nat) (continue_run : option Z) : method unit :=
  modify_run run_idx (fun r => Ok (set_run_attr r RUN_IDX (AInt (Z.of_nat run_idx))));;
  match continue_run with
  | Some c => add_continuation (Z.of_nat run_idx) c
  | None => ret_M tt
  end.

(** A walker as [_add_init_walkers] reads it: [walker_weight] is the
    feature array [np.array([[walker.weight]])], [walker_state] the items
    of [walker.state.dict()]. *)
Record Walker : Type := MkWalker {
  walker_weight : frame;
  walker_state : list (string * option frame)
}.

Definition init_walker_grp (walker : Walker) : outcome (gmap string frame) :=
  foldl (fun acc kv =>
           walker_grp ← acc;
           match kv.2 with
           | Some field_value => create_in walker_grp kv.1 field_value
           | None => Ok walker_grp
           end)
        (Ok {[ WEIGHTS := walker_weight walker ]})
        (walker_state walker).

Definition _add_init_walkers (run_idx : nat) (init_walkers : list Walker) : method unit :=
  for_M init_walkers (fun walker =>
    modify_run run_idx (fun r =>
      walker_grp ← init_walker_grp walker;
      Ok (MkRun (r_init_walkers r ++ [walker_grp]) (r_trajectories r) (r_records r)
                (r_attrs r)))).

Definition new_run (init_walkers : list Walker) (continue_run : option Z)
    (kwargs : list (string * attr_val)) : method Run :=
  w ← get_M;
  match continue_run with
  | Some c =>
      if bool_decide (c ∈ Z.of_nat <$> run_idxs w) then ret_M tt else raise_M ValueError
  | None => ret_M tt
  end;;
  let new_run_idx := next_run_idx w in
  (* the run group with its init_walkers and trajectories groups *)
  h5_modify (fun f => set_runs f (f_runs f ++ [MkRun [] [] ∅ ∅]));;
  _add_init_walkers new_run_idx init_walkers;;
  _add_run_init new_run_idx continue_run;;
  for_M kwargs (fun kv =>
    if decide (kv.1 ≠ RUN_IDX)
    then modify_run new_run_idx (fun r => Ok (set_run_attr r kv.1 kv.2))
    else warn "run_idx metadata is set by wepy and cannot be used");;
  (* [run_grp], the group created above, as it is now *)
  w' ← get_M;
  lift_M (run w' new_run_idx).

(** *** Cloning *)

Inductive file_mode : Set := Mode_r | Mode_rplus | Mode_w | Mode_wminus | Mode_x | Mode_a.

(** [clone(path, mode)].  [path_exists] tells whether a file is already
    at [path].  The result is the new [WepyHDF5] object, closed, with the
    content of the file it was built on. *)
Definition clone (path_exists : bool) (mode : file_mode) : method WepyHDF5 :=
  lift_M (py_assert (match mode with Mode_w | Mode_wminus | Mode_x => true | _ => false end));;
  (* new_h5 = h5py.File(path, mode=mode) *)
  (if path_exists && (match mode with Mode_w => false | _ => true end)
   then raise_M H5Error else ret_M tt);;
  w ← get_M;
  (* create_group(RUNS), then h5o.copy of topology, units and settings *)
  let new_h5 := MkH5 (f_topology (h5 w)) (f_units (h5 w)) (f_settings (h5 w)) [] in
  _init_continuations;;
  let new_wepy_h5 := MkWepy new_h5 true [] in
  ret_M new_wepy_h5.

(** *** Trajectory fields *)

(** [self._h5['runs/<run_idx>/trajectories/<traj_idx>']]. *)
Definition traj (w : WepyHDF5) (run_idx traj_idx : nat)
  : outcome (gmap string traj_field) :=
  r ← run w run_idx;
  from_option KeyError (r_trajectories r !! traj_idx).

Definition num_run_trajs (w : WepyHDF5) (run_idx : nat) : outcome nat :=
  r ← run w run_idx;
  Ok (length (r_trajectories r)).

Definition run_traj_idxs (w : WepyHDF5) (run_idx : nat) : outcome (list nat) :=
  r ← run w run_idx;
  Ok (seq 0 (length (r_trajectories r))).

(** [dset.shape[0]]; a group has no shape. *)
Definition shape0 (field : traj_field) : outcome nat :=
  match field with
  | Dataset rows => Ok (length rows)
  | SparseGrp _ _ => Raise AttributeError
  end.

Definition num_traj_frames (w : WepyHDF5) (run_idx traj_idx : nat) : outcome nat :=
  traj_grp ← traj w run_idx traj_idx;
  positions ← from_option KeyError (traj_grp !! POSITIONS);
  shape0 positions.

Definition num_run_cycles (w : WepyHDF5) (run_idx : nat) : outcome nat :=
  num_traj_frames w run_idx 0.

(** [field[DATA]] and [field[SPARSE_IDXS]]: only a sparse group has them. *)
Definition field_data (field : traj_field) : outcome (list frame) :=
  match field with
  | SparseGrp data _ => Ok data
  | Dataset _ => Raise ValueError
  end.
Definition field_sparse_idxs (field : traj_field) : outcome (list nat) :=
  match field with
  | SparseGrp _ sparse_idxs => Ok sparse_idxs
  | Dataset _ => Raise ValueError
  end.

(** The value a field read returns: a plain array, or a numpy masked
    array given by its data and its mask.  A row of the data that was
    filled with NaN is [None]; in the mask [true] means masked, that is,
    absent. *)
Inductive field_value : Type :=
| Plain (rows : list frame)
| Masked (filled_data : list (option frame)) (mask : list bool).

Definition _get_contiguous_traj_field (w : WepyHDF5) (run_idx traj_idx : nat)
    (field_path : string) (frames : option (list nat)) : outcome field_value :=
  traj_grp ← traj w run_idx traj_idx;
  dset ← from_option KeyError (traj_grp !! field_path);
  match dset with
  | SparseGrp _ _ => Raise TypeError
  | Dataset rows =>
      match frames with
      | None => Ok (Plain rows)
      | Some frames => field ← h5_take rows frames; Ok (Plain field)
      end
  end.

Definition _get_sparse_traj_field (w : WepyHDF5) (run_idx traj_idx : nat)
    (field_path : string) (frames : option (list nat)) (masked : bool)
  : outcome field_value :=
  traj_grp ← traj w run_idx traj_idx;
  field ← from_option KeyError (traj_grp !! field_path);
  positions ← from_option KeyError (traj_grp !! POSITIONS);
  n_frames ← shape0 positions;
  match frames with
  | None =>
      data ← field_data field;
      if masked then
        sparse_idxs ← field_sparse_idxs field;
        let filled_data := np_full n_frames None in
        filled_data ← np_put filled_data sparse_idxs (Some <$> data);
        let mask := np_full n_frames true in
        mask ← np_put_scalar mask sparse_idxs false;
        Ok (Masked filled_data mask)
      else Ok (Plain data)
  | Some frames =>
      sparse_idxs ← field_sparse_idxs field;
      let sparse_frame_idxs := np_argwhere (np_isin sparse_idxs frames) in
      all_data ← field_data field;
      data ← h5_take all_data sparse_frame_idxs;
      if masked then
        let filled_data := np_full (length frames) None in
        let mask := np_full (length frames) true in
        filled_data ← np_put_mask filled_data (np_isin frames sparse_idxs) (Some <$> data);
        mask ← np_put_mask_scalar mask (np_isin frames sparse_idxs) false;
        Ok (Masked filled_data mask)
      else Ok (Plain data)
  end.

Definition get_traj_field (w : WepyHDF5) (run_idx traj_idx : nat)
    (field_path : string) (frames : option (list nat)) (masked : bool)
  : outcome field_value :=
  traj_grp ← traj w run_idx traj_idx;
  if negb (bool_decide (is_Some (traj_grp !! field_path))) then Raise KeyError
  else if bool_decide (field_path ∈ sparse_fields w)
  then _get_sparse_traj_field w run_idx traj_idx field_path frames masked
  else _get_contiguous_traj_field w run_idx traj_idx field_path frames.

(** Replace the group of an existing trajectory. *)
Definition modify_traj (run_idx traj_idx : nat)
    (upd : gmap string traj_field -> outcome (gmap string traj_field)) : method unit :=
  modify_run run_idx (fun r =>
    traj_grp ← from_option KeyError (r_trajectories r !! traj_idx);
    traj_grp' ← upd traj_grp;
    Ok (MkRun (r_init_walkers r) (<[traj_idx := traj_grp']> (r_trajectories r))
              (r_records r) (r_attrs r))).

Definition _add_traj_field_data (run_idx traj_idx : nat) (field_path : string)
    (field_data : list frame) (sparse_idxs : option (list nat)) : method unit :=
  modify_traj run_idx traj_idx (fun traj_grp =>
    match sparse_idxs with
    | None => create_in traj_grp field_path (Dataset field_data)
    | Some sparse_idxs => create_in traj_grp field_path (SparseGrp field_data sparse_idxs)
    end).

(** *** Traces over a contig *)

(** The first loop of [get_contig_trace_fields]: the cycles asked of each
    run, and the runs in the order they first appear. *)
Definition group_step (acc : gmap nat (list nat) * list nat) (rc : nat * nat)
  : gmap nat (list nat) * list nat :=
  (<[rc.1 := default [] (acc.1 !! rc.1) ++ [rc.2]]> acc.1,
   if bool_decide (rc.1 ∈ acc.2) then acc.2 else acc.2 ++ [rc.1]).
Definition group_trace (contig_trace : list (nat * nat))
  : gmap nat (list nat) * list nat :=
  foldl group_step (∅, []) contig_trace.

(** [np.array(run_bundle)]: the rows of every trajectory side by side; of
    a masked array the data is taken. *)
Definition value_rows (v : field_value) : list (option frame) :=
  match v with
  | Plain rows => Some <$> rows
  | Masked filled_data _ => filled_data
  end.

Definition contig_field_log (w : WepyHDF5) (runs_frames : gmap nat (list nat))
    (run_idxs : list nat) (field : string) : outcome (list (list (option frame))) :=
  bundles ← mapM_outcome (fun run_idx =>
      traj_idxs ← run_traj_idxs w run_idx;
      run_bundle ← mapM_outcome (fun traj_idx =>
          traj_field_vals ← get_traj_field w run_idx traj_idx field
                              (Some (default [] (runs_frames !! run_idx))) true;
          Ok (value_rows traj_field_vals))
        traj_idxs;
      Ok run_bundle)
    run_idxs;
  field_log ← np_hstack bundles;
  (* a run without trajectories gives arrays of rank one, which have no
     axis 1 to swap *)
  match field_log with
  | [] => Raise ValueError
  | _ :: _ => Ok (swapaxes01 field_log)
  end.

Definition get_contig_trace_fields (w : WepyHDF5) (contig_trace : list (nat * nat))
    (fields : list string) : outcome (gmap string (list (list (option frame)))) :=
  let '(runs_frames, run_idxs) := group_trace contig_trace in
  run0 ← from_option IndexError (run_idxs !! 0);
  n_trajs_test ← num_run_trajs w run0;
  n_trajs ← mapM_outcome (num_run_trajs w) run_idxs;
  py_assert (forallb (fun n => bool_decide (n_trajs_test = n)) n_trajs);;
  foldl (fun acc field =>
           field_values ← acc;
           field_log ← contig_field_log w runs_frames run_idxs field;
           Ok (<[field := field_log]> field_values))
        (Ok ∅) fields.

(** *** Record groups: writing *)

(** A Python [dict] with string keys, in insertion order. *)
Fixpoint dict_set {V} (d : list (string * V)) (k : string) (v : V) : list (string * V) :=
  match d with
  | [] => [(k, v)]
  | (k', v') :: d' => if decide (k' = k) then (k, v) :: d' else (k', v') :: dict_set d' k v
  end.
Fixpoint dict_get {V} (d : list (string * V)) (k : string) : option V :=
  match d with
  | [] => None
  | (k', v') :: d' => if decide (k' = k) then Some v' else dict_get d' k
  end.



Definition _is_sporadic_records (run_record_key : string) : bool :=
  if bool_decide (run_record_key ∈ SPORADIC_RECORDS) then true else false.

(** The [records_grp] method. *)
Definition records_grp (w : WepyHDF5) (run_idx : nat) (run_record_key : string)
  : outcome rec_grp :=
  r ← run w run_idx;
  from_option KeyError (r_records r !! run_record_key).

Definition modify_rec_grp (run_idx : nat) (run_record_key : string)
    (upd : rec_grp -> outcome rec_grp) : method unit :=
  modify_run run_idx (fun r =>
    g ← from_option KeyError (r_records r !! run_record_key);
    g' ← upd g;
    Ok (MkRun (r_init_walkers r) (r_trajectories r) (<[run_record_key := g']> (r_records r))
              (r_attrs r))).





(** *** Record groups: reading *)

(** The [record_fields] property. *)
Definition record_fields (w : WepyHDF5) : gmap string (list string) :=
  s_record_fields (settings_grp w).

(** An entry of a record: the cycle index, a scalar, or a tuple. *)
Inductive datum : Type :=
| DCycle (cycle_idx : nat)
| DScalar (x : scalar)
| DTuple (xs : list scalar).

#[global] Instance datum_inhabited : Inhabited datum := populate (DCycle 0).

(** [_run_record_namedtuple]: the record type, represented by its field
    names. *)
Definition _run_record_namedtuple (w : WepyHDF5) (run_record_key : string)
  : outcome (list string) :=
  fields ← from_option KeyError (record_fields w !! run_record_key);
  namedtuple (run_record_key +:+ "_Record") (CYCLE_IDX :: fields).

(** The branches of [_convert_record_field_to_table_column] on the
    dataset of the field. *)
Definition table_column (dset : rec_dset) : outcome (list datum) :=
  match dset with
  | VlenDset rows => Ok (DTuple <$> rows)
  | FixedDset feat_shape rows =>
      if bool_decide (2 < S (length feat_shape)) then Raise TypeError
      else
        shape1 ← from_option IndexError (feat_shape !! 0);
        if bool_decide (1 < shape1) then Ok (DTuple <$> rows)
        else mapM_outcome (fun value => DScalar <$> from_option IndexError (value !! 0)) rows
  end.

Definition _convert_record_field_to_table_column (w : WepyHDF5) (run_idx : nat)
    (run_record_key record_field : string) : outcome (list datum) :=
  rec_grp ← records_grp w run_idx run_record_key;
  dset ← from_option KeyError (g_dsets rec_grp !! record_field);
  table_column dset.

Definition _convert_record_fields_to_table_columns (w : WepyHDF5) (run_idx : nat)
    (run_record_key : string) : outcome (list (string * list datum)) :=
  manifest ← from_option KeyError (record_fields w !! run_record_key);
  foldl (fun acc record_field =>
           fields ← acc;
           column ← _convert_record_field_to_table_column w run_idx run_record_key
                      record_field;
           Ok (dict_set fields record_field column))
        (Ok []) manifest.

Definition _make_records (w : WepyHDF5) (run_record_key : string) (cycle_idxs : list nat)
    (fields : option (list (string * list datum))) : outcome (list (list datum)) :=
  Record_fields ← _run_record_namedtuple w run_record_key;
  mapM_outcome (fun record_idx =>
      cyc ← from_option IndexError (cycle_idxs !! record_idx);
      let record_d := [(CYCLE_IDX, DCycle cyc)] in
      items ← from_option AttributeError fields;
      record_d ← foldl (fun acc fc =>
                          record_d ← acc;
                          datum ← from_option IndexError (fc.2 !! record_idx);
                          Ok (dict_set record_d fc.1 datum))
                       (Ok record_d) items;
      mapM_outcome (fun key => from_option KeyError (dict_get record_d key)) Record_fields)
    (seq 0 (length cycle_idxs)).

(** [fields[field_name].extend(field_data)] for every item of
    [run_fields]. *)
Definition extend_fields (fields run_fields : list (string * list datum))
  : outcome (list (string * list datum)) :=
  foldl (fun acc fc =>
           fields ← acc;
           old ← from_option KeyError (dict_get fields fc.1);
           Ok (dict_set fields fc.1 (old ++ fc.2)))
        (Ok fields) run_fields.

(** The two sequence values the cycle indices take, and Python's [+]
    between such a value and an integer: numpy adds the integer to every
    element of an array; a list can only be concatenated with a list. *)
Inductive pyseq : Type :=
| PyList (l : list nat)
| NdArr (a : list nat).

Definition py_add_int (x : pyseq) (n : nat) : outcome pyseq :=
  match x with
  | NdArr a => Ok (NdArr ((fun c => c + n) <$> a))
  | PyList _ => Raise TypeError
  end.

(** [np.hstack((a, b))] of two one-dimensional sequences. *)
Definition seq_items (x : pyseq) : list nat :=
  match x with PyList l => l | NdArr a => a end.
Definition hstack1 (a b : pyseq) : pyseq := NdArr (seq_items a ++ seq_items b).

Definition rec_dset_shape0 (d : rec_dset) : nat :=
  match d with
  | VlenDset rows => length rows
  | FixedDset _ rows => length rows
  end.

(** One pass of the loop of [_run_records_sporadic] over the runs of the
    contig; the loop carries [fields], [cycle_idxs] and
    [prev_run_cycle_total]. *)
Definition sporadic_pass (w : WepyHDF5) (run_record_key : string)
    (acc : outcome (option (list (string * list datum)) * pyseq * nat)) (run_idx : nat)
  : outcome (option (list (string * list datum)) * pyseq * nat) :=
  '(fields, cycle_idxs, prev_run_cycle_total) ← acc;
  run_fields ← _convert_record_fields_to_table_columns w run_idx run_record_key;
  fields ← match fields with
            | None => Ok run_fields
            | Some fields => extend_fields fields run_fields
            end;
  rec_grp ← records_grp w run_idx run_record_key;
  run_cycle_idxs ← NdArr <$> from_option KeyError (g_cycle_idxs rec_grp);
  run_contig_cycle_idxs ← py_add_int run_cycle_idxs prev_run_cycle_total;
  let cycle_idxs := hstack1 cycle_idxs run_contig_cycle_idxs in
  n ← num_run_cycles w run_idx;
  Ok (Some fields, cycle_idxs, prev_run_cycle_total + n).

Definition _run_records_sporadic (w : WepyHDF5) (run_idxs : list nat)
    (run_record_key : string) : outcome (list (list datum)) :=
  st ← foldl (sporadic_pass w run_record_key) (Ok (None, NdArr [], 0)) run_idxs;
  _make_records w run_record_key (seq_items st.1.2) st.1.1.

(** In [_run_records_continual] the sum is bound to
    [run_contig_cycle_indices], and the statement after it reads
    [run_contig_cycle_idxs], a name bound neither in the function nor in
    the module. *)
Definition unbound_name : option pyseq := None.

Definition continual_pass (w : WepyHDF5) (run_record_key : string)
    (acc : outcome (option (list (string * list datum)) * pyseq * nat)) (run_idx : nat)
  : outcome (option (list (string * list datum)) * pyseq * nat) :=
  '(fields, cycle_idxs, prev_run_cycle_total) ← acc;
  run_fields ← _convert_record_fields_to_table_columns w run_idx run_record_key;
  fields ← match fields with
            | None => Ok run_fields
            | Some fields => extend_fields fields run_fields
            end;
  record_fields ← from_option KeyError (record_fields w !! run_record_key);
  main_record_field ← from_option IndexError (record_fields !! 0);
  run_rec_grp ← records_grp w run_idx run_record_key;
  main_dset ← from_option KeyError (g_dsets run_rec_grp !! main_record_field);
  let run_cycle_idxs := PyList (seq 0 (rec_dset_shape0 main_dset)) in
  run_contig_cycle_indices ← py_add_int run_cycle_idxs prev_run_cycle_total;
  run_contig_cycle_idxs ← from_option NameError unbound_name;
  let cycle_idxs := hstack1 cycle_idxs run_contig_cycle_idxs in
  n ← num_run_cycles w run_idx;
  Ok (Some fields, cycle_idxs, prev_run_cycle_total + n).

Definition _run_records_continual (w : WepyHDF5) (run_idxs : list nat)
    (run_record_key : string) : outcome (list (list datum)) :=
  st ← foldl (continual_pass w run_record_key) (Ok (None, NdArr [], 0)) run_idxs;
  _make_records w run_record_key (seq_items st.1.2) st.1.1.

Definition run_contig_records (w : WepyHDF5) (run_idxs : list nat) (run_record_key : string)
  : outcome (list (list datum)) :=
  record_fields ← from_option KeyError (record_fields w !! run_record_key);
  if bool_decide (length record_fields = 0) then Ok []
  else if _is_sporadic_records run_record_key
  then _run_records_sporadic w run_idxs run_record_key
  else _run_records_continual w run_idxs run_record_key.

Definition run_records (w : WepyHDF5) (run_idx : nat) (run_record_key : string)
  : outcome (list (list datum)) :=
  let run_idxs := [run_idx] in
  run_contig_records w run_idxs run_record_key.
End Archive.

(** * Auxiliary definitions used to state the properties *)

Section StatementDefs.
Context {frame scalar : Type}.
Implicit Types w : @WepyHDF5 frame scalar.

(** The pairs [is_run_contig] looks up: [(run_idxs[idx+1], run_idxs[idx])]. *)
Definition consecutive_pairs (run_idxs : list Z) : list (Z * Z) :=
  (fun idx => (run_idxs !!! (idx + 1), run_idxs !!! idx)) <$> seq 0 (length run_idxs - 1).

(** The handle [w] with its settings group replaced. *)
Definition with_settings w (st : Settings) : @WepyHDF5 frame scalar :=
  MkWepy (set_settings (h5 w) st) (writable w) (warnings w).

(** The text of the warning of [_add_sparse_field_flag]. *)
Definition already_sparse_msg (field_path : string) : string :=
  "sparse field " +:+ field_path +:+ " already a sparse field, ignoring".

(** The sparse masked read as the specification words it: the row used
    for frame [i] is [data[position of i in S]], and frame [i] is present
    exactly when [i] is in [S]. *)
Fixpoint position_in (sp : list nat) (i : nat) : option nat :=
  match sp with
  | [] => None
  | s :: sp' => if decide (s = i) then Some 0 else S <$> position_in sp' i
  end.
Definition sparse_row (sp : list nat) (D : list frame) (i : nat) : option frame :=
  position_in sp i ≫= (D !!.).
Definition masked_read_spec (sp : list nat) (D : list frame) (frames : list nat)
  : @field_value frame :=
  Masked (sparse_row sp D <$> frames) ((fun i => negb (bool_decide (i ∈ sp))) <$> frames).

(** The stored rows whose index is among the requested frames, in stored
    order. *)
Definition select_rows (sp : list nat) (D : list frame) (frames : list nat) : list frame :=
  omap (fun sd => if bool_decide (sd.1 ∈ frames) then Some sd.2 else None) (zip sp D).

(** The trace that visits every cycle of every run of a contig, run after
    run; [cyc r] is the number of cycles of run [r]. *)
Definition contig_full_trace (cyc : nat -> nat) (run_idxs : list nat) : list (nat * nat) :=
  run_idxs ≫= (fun r => (fun c => (r, c)) <$> seq 0 (cyc r)).

(** The trace that visits the cycles [sel r] of every run [r] of a
    contig, run after run; [contig_full_trace] is the one that visits
    all cycles. *)
Definition contig_sel_trace (sel : nat -> list nat) (run_idxs : list nat)
  : list (nat * nat) :=
  run_idxs ≫= (fun r => (fun c => (r, c)) <$> sel r).

(** What a trajectory holds for a field at one cycle: the row of a dense
    field, the row stored for the cycle of a sparse field, and nothing
    where a sparse field has no row for the cycle. *)
Definition stored_cell w (run_idx traj_idx : nat) (field : string) (cycle_idx : nat)
  : option frame :=
  match traj w run_idx traj_idx with
  | Ok traj_grp =>
      match traj_grp !! field with
      | Some (Dataset rows) => rows !! cycle_idx
      | Some (SparseGrp D sp) => sparse_row sp D cycle_idx
      | None => None
      end
  | Raise _ => None
  end.

(** A field stored in a trajectory so that the cycles [frames] can be
    read from it: a dense field, not flagged sparse, has a row for each
    of the cycles; a sparse field, flagged sparse, has one row per sparse
    index, the indices in increasing order, beside the positions of the
    trajectory. *)
Definition readable_field w (run_idx traj_idx : nat) (field : string)
    (frames : list nat) : Prop :=
  ∃ traj_grp,
    traj w run_idx traj_idx = Ok traj_grp ∧
    match traj_grp !! field with
    | Some (Dataset rows) =>
        (field ∉ sparse_fields w) ∧ Forall (fun c => c < length rows) frames
    | Some (SparseGrp D sp) =>
        field ∈ sparse_fields w ∧
        (∃ positions, traj_grp !! POSITIONS = Some (Dataset positions)) ∧
        length D = length sp ∧ strictly_increasing sp = true
    | None => False
    end.

(** The rows of a dense field of one trajectory, if the file has them. *)
Definition dense_rows w (run_idx traj_idx : nat) (field : string) : option (list frame) :=
  r ← f_runs (h5 w) !! run_idx;
  traj_grp ← r_trajectories r !! traj_idx;
  match traj_grp !! field with
  | Some (Dataset rows) => Some rows
  | _ => None
  end.

(** *** Sporadic record groups *)







Definition has_grp w (r : nat) (key : string) (g : @rec_grp scalar) : Prop :=
  ∃ rn, f_runs (h5 w) !! r = Some rn ∧ r_records rn !! key = Some g.

Definition column_of (dsets : gmap string (@rec_dset scalar)) (f : string)
  : list (@datum scalar) :=
  match dsets !! f with
  | Some d => match table_column d with Ok col => col | Raise _ => [] end
  | None => []
  end.




(** The modes [clone] accepts, and whether [h5py.File] can create the
    file: the modes other than ['w'] refuse a path that exists. *)
Definition creation_mode (mode : file_mode) : bool :=
  match mode with Mode_w | Mode_wminus | Mode_x => true | _ => false end.
Definition can_create (path_exists : bool) (mode : file_mode) : bool :=
  negb path_exists || match mode with Mode_w => true | _ => false end.
End StatementDefs.

(** * A small archive used to run the definitions

    Three runs: run 0 has 5 cycles and run 1 has 3, each with 4 trajectory
    slots; run 2 has one trajectory of 10 cycles whose sparse field
    [velocities] was written at cycles 2, 5 and 9.  Run 1 continues run 0 and
    run 2 continues run 1.  A frame is represented by a number that encodes
    where it was written: 100 * run + 10 * trajectory + cycle. *)

Definition ex_positions (run_idx traj_idx n_cycles : nat) : list nat :=
  (fun c => 100 * run_idx + 10 * traj_idx + c) <$> seq 0 n_cycles.

Definition ex_traj (run_idx n_cycles traj_idx : nat) : gmap string (@traj_field nat) :=
  {[ POSITIONS := Dataset (ex_positions run_idx traj_idx n_cycles) ]}.

Definition ex_sparse_traj : gmap string (@traj_field nat) :=
  {[ POSITIONS := Dataset (ex_positions 2 0 10);
     "velocities" := SparseGrp [902; 905; 909] [2; 5; 9] ]}.

Definition ex_resampling : @rec_grp Z :=
  RecGrp (Some [0; 0; 2])
         {[ "decision_id" := FixedDset [1] [[1]; [2]; [1]]%Z;
            "target_idxs" := VlenDset [[0]; [1; 2]; [3]]%Z ]}.

Definition ex_progress (n_cycles : nat) : @rec_grp Z :=
  RecGrp None {[ "min_dist" := FixedDset [1] ((fun c => [Z.of_nat c]) <$> seq 0 n_cycles) ]}.

Definition ex_run (run_idx n_cycles : nat) : @Run nat Z :=
  MkRun [] (ex_traj run_idx n_cycles <$> seq 0 4)
        {[ RESAMPLING := ex_resampling; PROGRESS := ex_progress n_cycles ]}
        {[ RUN_IDX := AInt (Z.of_nat run_idx) ]}.

Definition ex_sparse_run : @Run nat Z :=
  MkRun [] [ex_sparse_traj] ∅ {[ RUN_IDX := AInt 2 ]}.

Definition ex_settings : Settings :=
  MkSettings ["velocities"] 3 2 [0; 1] ∅
    {[ POSITIONS := ShapeArr [2; 3]; "velocities" := ShapeNaN ]}
    {[ POSITIONS := json_dumps_descr [(EmptyString, "<f8")]; "velocities" := NONE_STR ]}
    {[ RESAMPLING := ["decision_id"; "target_idxs"]; PROGRESS := ["min_dist"] ]}
    (Some [(1, 0); (2, 1)]%Z).

Definition ex_h5 : @H5File nat Z :=
  MkH5 "{}" ∅ ex_settings [ex_run 0 5; ex_run 1 3; ex_sparse_run].

Definition ex_w : @WepyHDF5 nat Z := MkWepy ex_h5 true [].

(** The cycles of the two runs of the contig 0, 1. *)
Definition ex_cyc (run_idx : nat) : nat := if decide (run_idx = 0) then 5 else 3.


(** * More of the driver

    The methods of [WepyHDF5] around the ones above: the enumeration of
    runs and trajectories, the cycle indices of a field, trace reads,
    fields added to the trajectories of a run, the initialisation of record
    groups, and the join of two files. *)

Definition OBSERVABLES : string := "observables".

(** What a generator of the driver yields: the object alone or, with
    [idxs=True], the pair of its index and the object.  A generator is
    represented by the list of what it yields when it is run to its end. *)
Inductive yielded (I A : Type) : Type :=
| Obj (a : A)
| IdxObj (i : I) (a : A).
Arguments Obj {I A} a.
Arguments IdxObj {I A} i a.

Section ArchiveMore.
Context {frame scalar : Type}.
Implicit Types w : @WepyHDF5 frame scalar.

Abbreviation method := (M (@WepyHDF5 frame scalar)).

(** *** Enumerating runs and trajectories *)

Definition next_run_traj_idx w (run_idx : nat) : outcome nat :=
  num_run_trajs w run_idx.

Definition run_traj_idx_tuples w (runs : option (list nat)) : outcome (list (nat * nat)) :=
  let run_idxs := match runs with None => run_idxs w | Some runs => runs end in
  foldl (fun acc run_idx =>
           tups ← acc;
           traj_idxs ← run_traj_idxs w run_idx;
           Ok (foldl (fun tups traj_idx => tups ++ [(run_idx, traj_idx)]) tups traj_idxs))
        (Ok []) run_idxs.

Definition num_trajs w : outcome nat :=
  tups ← run_traj_idx_tuples w None;
  Ok (length tups).

Definition iter_runs w (idxs : bool) (run_sel : option (list nat))
  : outcome (list (yielded nat (@Run frame scalar))) :=
  let run_sel := match run_sel with None => run_idxs w | Some run_sel => run_sel end in
  foldl (fun acc run_idx =>
           out ← acc;
           if bool_decide (run_idx ∈ run_sel) then
             run_grp ← run w run_idx;
             Ok (out ++ [if idxs then IdxObj run_idx run_grp else Obj run_grp])
           else Ok out)
        (Ok []) (run_idxs w).

Definition iter_trajs w (idxs : bool) (traj_sel : option (list (nat * nat)))
  : outcome (list (yielded (nat * nat) (gmap string (@traj_field frame)))) :=
  idx_tups ← match traj_sel with
              | None => run_traj_idx_tuples w None
              | Some traj_sel => Ok traj_sel
              end;
  mapM_outcome (fun idx_tup =>
                  traj_grp ← traj w idx_tup.1 idx_tup.2;
                  Ok (if idxs then IdxObj idx_tup traj_grp else Obj traj_grp))
               idx_tups.

Definition iter_run_trajs w (run_idx : nat) (idxs : bool)
  : outcome (list (yielded (nat * nat) (gmap string (@traj_field frame)))) :=
  run_sel ← run_traj_idx_tuples w (Some [run_idx]);
  iter_trajs w idxs (Some run_sel).

(** [traj_n_frames] is a second spelling of [num_traj_frames]. *)
Definition traj_n_frames w (run_idx traj_idx : nat) : outcome nat :=
  traj_grp ← traj w run_idx traj_idx;
  positions ← from_option KeyError (traj_grp !! POSITIONS);
  shape0 positions.

(** *** The cycle indices of a field *)

Definition get_traj_field_cycle_idxs w (run_idx traj_idx : nat) (field_path : string)
  : outcome (list nat) :=
  traj_grp ← traj w run_idx traj_idx;
  if negb (bool_decide (is_Some (traj_grp !! field_path))) then Raise KeyError
  else if negb (bool_decide (field_path ∈ sparse_fields w)) then
    n ← num_run_cycles w run_idx;
    Ok (seq 0 n)
  else
    field ← from_option KeyError (traj_grp !! field_path);
    field_sparse_idxs field.

(** *** Trace reads *)

(** The body of the loops of [get_trace_fields] and
    [get_run_trace_fields] for one frame: every field is read at that one
    cycle (with the default [masked=True]) and the first row of what was
    read is appended to the list of the field. *)
Definition trace_frame w (fields : list string) (run_idx traj_idx cycle_idx : nat)
    (acc : outcome (gmap string (list (option frame))))
  : outcome (gmap string (list (option frame))) :=
  foldl (fun acc field =>
           frame_fields ← acc;
           frame_field ← get_traj_field w run_idx traj_idx field (Some [cycle_idx]) true;
           first ← from_option IndexError (value_rows frame_field !! 0);
           so_far ← from_option KeyError (frame_fields !! field);
           Ok (<[field := so_far ++ [first]]> frame_fields))
        acc fields.

(** [{field : [] for field in fields}]. *)
Definition empty_frame_fields (fields : list string) : gmap string (list (option frame)) :=
  foldl (fun d field => <[field := []]> d) ∅ fields.

Definition get_trace_fields w (frame_tups : list (nat * nat * nat)) (fields : list string)
  : outcome (gmap string (list (option frame))) :=
  foldl (fun acc tup => trace_frame w fields tup.1.1 tup.1.2 tup.2 acc)
        (Ok (empty_frame_fields fields)) frame_tups.

Definition get_run_trace_fields w (run_idx : nat) (frame_tups : list (nat * nat))
    (fields : list string) : outcome (gmap string (list (option frame))) :=
  foldl (fun acc tup => trace_frame w fields run_idx tup.1 tup.2 acc)
        (Ok (empty_frame_fields fields)) frame_tups.

(** *** Fields added to the trajectories of a run *)

(** The [data] argument of [_add_run_field]: a Python list of arrays, one
    per trajectory, or one array whose first axis runs over the
    trajectories.  Only the array has a [shape].  An array of
    trajectories that all have the same number of frames has a second
    axis, the frames; trajectories of different lengths make an array of
    one axis whose items are arrays, and it has no [shape[1]]. *)
Inductive pydata : Type :=
| DataList (trajs : list (list frame))
| DataArr (trajs : list (list frame)).

Definition data_items (data : pydata) : list (list frame) :=
  match data with DataList trajs => trajs | DataArr trajs => trajs end.
Definition data_shape0 (data : pydata) : outcome nat :=
  match data with
  | DataArr trajs => Ok (length trajs)
  | DataList _ => Raise AttributeError
  end.
Definition data_shape1 (data : pydata) : outcome nat :=
  match data with
  | DataArr trajs =>
      traj0 ← from_option IndexError (trajs !! 0);
      if forallb (fun traj_data => bool_decide (length traj_data = length traj0)) trajs
      then Ok (length traj0)
      else Raise IndexError
  | DataList _ => Raise AttributeError
  end.

(** The checks [_add_run_field] makes on the data of one trajectory.  The
    arguments of an error message are evaluated before the exception is
    raised. *)
Definition check_traj_data w (run_idx : nat) (data : pydata)
    (sparse_idxs : option (list (list nat))) (traj_idx : nat) (traj_data : list frame)
  : outcome unit :=
  n_cycles ← num_run_cycles w run_idx;
  if bool_decide (n_cycles < length traj_data) then
    data_shape1 data;;
    num_run_cycles w run_idx;;
    Raise ValueError
  else
    n_cycles ← num_run_cycles w run_idx;
    if bool_decide (length traj_data ≤ n_cycles) then
      match sparse_idxs with
      | Some sparse_idxs =>
          n_data ← data_shape0 data;
          traj_sparse_idxs ← from_option IndexError (sparse_idxs !! traj_idx);
          if bool_decide (n_data ≠ length traj_sparse_idxs) then Raise ValueError
          else Ok tt
      | None =>
          n_cycles ← num_run_cycles w run_idx;
          if bool_decide (length traj_data < n_cycles) then Raise ValueError else Ok tt
      end
    else Ok tt.

Definition _add_run_field (run_idx : nat) (field_path : string) (data : pydata)
    (sparse_idxs : option (list (list nat))) : method unit :=
  w ← get_M;
  n_trajs ← lift_M (num_run_trajs w run_idx);
  lift_M (py_assert (bool_decide (length (data_items data) = n_trajs)));;
  for_M (imap pair (data_items data)) (fun it =>
    lift_M (check_traj_data w run_idx data sparse_idxs it.1 it.2));;
  idx_tups ← lift_M (run_traj_idx_tuples w (Some [run_idx]));
  for_M (imap pair idx_tups) (fun it =>
    traj_data ← lift_M (from_option IndexError (data_items data !! it.1));
    match sparse_idxs with
    | None => _add_traj_field_data it.2.1 it.2.2 field_path traj_data None
    | Some sparse_idxs =>
        traj_sparse_idxs ← lift_M (from_option IndexError (sparse_idxs !! it.1));
        _add_traj_field_data it.2.1 it.2.2 field_path traj_data (Some traj_sparse_idxs)
    end).

Definition _add_field (field_path : string) (data : list pydata)
    (sparse_idxs : option (list (list (list nat)))) : method unit :=
  w ← get_M;
  for_M (imap pair (run_idxs w)) (fun it =>
    match sparse_idxs with
    | Some sparse_idxs =>
        run_data ← lift_M (from_option IndexError (data !! it.1));
        run_sparse_idxs ← lift_M (from_option IndexError (sparse_idxs !! it.1));
        _add_run_field it.2 field_path run_data (Some run_sparse_idxs)
    | None =>
        run_data ← lift_M (from_option IndexError (data !! it.1));
        _add_run_field it.2 field_path run_data None
    end).

Definition add_run_observable (run_idx : nat) (observable_name : string) (data : pydata)
    (sparse_idxs : option (list (list nat))) : method unit :=
  let obs_path := OBSERVABLES +:+ "/" +:+ observable_name in
  _add_run_field run_idx obs_path data sparse_idxs.

Definition add_observable (observable_name : string) (data : list pydata)
    (sparse_idxs : option (list (list (list nat)))) : method unit :=
  let obs_path := OBSERVABLES +:+ "/" +:+ observable_name in
  _add_field obs_path data sparse_idxs.

(** *** Record groups: initialisation *)

Definition set_record_fields (st : Settings) (m : gmap string (list string)) : Settings :=
  MkSettings (s_sparse_fields st) (s_n_dims st) (s_n_atoms st) (s_main_rep_idxs st)
    (s_alt_reps_idxs st) (s_field_feature_shapes st) (s_field_feature_dtypes st) m
    (s_continuations st).

(** [init_record_fields]: the dataset is created with one empty string per
    field, then filled entry by entry. *)
Definition init_record_fields (run_record_key : string) (record_fields : list string)
  : method unit :=
  w ← get_M;
  record_fields_grp ← lift_M (create_in (s_record_fields (settings_grp w)) run_record_key
                                (replicate (length record_fields) EmptyString));
  modify_settings (fun st => set_record_fields st record_fields_grp);;
  for_M (imap pair record_fields) (fun it =>
    modify_settings (fun st =>
      set_record_fields st
        (alter (fun ds => <[it.1 := it.2]> ds) run_record_key (s_record_fields st)))).

(** A field of a record group as the resampler and the boundary
    conditions declare it: its name, its shape ([None] stands for
    [Ellipsis], a variable-length field) and its dtype. *)
Definition field_decl : Type := string * option (list nat) * string.

Definition _init_run_records_field (run_idx : nat) (run_record_key field_name : string)
    (field_shape : option (list nat)) (field_dtype : string) : method unit :=
  modify_rec_grp run_idx run_record_key (fun record_grp =>
    dsets ← create_in (g_dsets record_grp) field_name
              (match field_shape with
               | None => VlenDset []
               | Some field_shape => FixedDset field_shape []
               end);
    Ok (RecGrp (g_cycle_idxs record_grp) dsets)).

(** [run_grp.create_group(run_record_key)], with the [_cycle_idxs]
    dataset when [cycle_idxs] is given. *)
Definition create_record_grp (run_idx : nat) (run_record_key : string)
    (cycle_idxs : option (list nat)) : method unit :=
  modify_run run_idx (fun r =>
    recs ← create_in (r_records r) run_record_key (RecGrp cycle_idxs ∅);
    Ok (MkRun (r_init_walkers r) (r_trajectories r) recs (r_attrs r))).

Definition _init_run_sporadic_record_grp (run_idx : nat) (run_record_key : string)
    (fields : list field_decl) : method unit :=
  create_record_grp run_idx run_record_key (Some []);;
  for_M fields (fun fd =>
    _init_run_records_field run_idx run_record_key fd.1.1 fd.1.2 fd.2).

Definition _init_run_continual_record_grp (run_idx : nat) (run_record_key : string)
    (fields : list field_decl) : method unit :=
  create_record_grp run_idx run_record_key None;;
  for_M fields (fun fd =>
    _init_run_records_field run_idx run_record_key fd.1.1 fd.1.2 fd.2).

Definition init_run_record_grp (run_idx : nat) (run_record_key : string)
    (fields : list field_decl) : method unit :=
  if _is_sporadic_records run_record_key
  then _init_run_sporadic_record_grp run_idx run_record_key fields
  else _init_run_continual_record_grp run_idx run_record_key fields.

Definition init_run_fields_resampling (run_idx : nat) (fields : list field_decl)
  : method unit := init_run_record_grp run_idx RESAMPLING fields.
Definition init_run_fields_resampler (run_idx : nat) (fields : list field_decl)
  : method unit := init_run_record_grp run_idx RESAMPLER fields.
Definition init_run_fields_warping (run_idx : nat) (fields : list field_decl)
  : method unit := init_run_record_grp run_idx WARPING fields.
Definition init_run_fields_progress (run_idx : nat) (fields : list field_decl)
  : method unit := init_run_record_grp run_idx PROGRESS fields.
Definition init_run_fields_bc (run_idx : nat) (fields : list field_decl)
  : method unit := init_run_record_grp run_idx BC fields.

(** *** Joining files *)

(** [join(other_h5)]: every run group of the other file is copied to the
    next free run index of this file. *)
Definition join (other_h5 : @WepyHDF5 frame scalar) : method unit :=
  for_M (run_idxs other_h5) (fun run_idx =>
    other_run ← lift_M (run other_h5 run_idx);
    h5_modify (fun f => set_runs f (f_runs f ++ [other_run]))).
End ArchiveMore.

(** ** Auxiliary definitions used to state the properties of these methods *)

Section StatementDefsMore.
Context {frame scalar : Type}.
Implicit Types w : @WepyHDF5 frame scalar.

(** The handle [w] with the group of run [r] replaced, and with a run
    group added after the last one. *)
Definition put_run w (r : nat) (rn : @Run frame scalar) : @WepyHDF5 frame scalar :=
  MkWepy (set_runs (h5 w) (<[r := rn]> (f_runs (h5 w)))) (writable w) (warnings w).
Definition with_runs w (rs : list (@Run frame scalar)) : @WepyHDF5 frame scalar :=
  MkWepy (set_runs (h5 w) rs) (writable w) (warnings w).

(** A run group with its trajectories replaced. *)
Definition with_trajectories (rn : @Run frame scalar)
    (trajs : list (gmap string (@traj_field frame))) : @Run frame scalar :=
  MkRun (r_init_walkers rn) trajs (r_records rn) (r_attrs rn).



End StatementDefsMore.

(** * wepy.sim_manager: the simulation manager

    The development follows [src/wepy/sim_manager.py].  The runner, the
    boundary conditions, the resampler and the reporter are objects the
    manager is given; each of their methods is a computation over a state
    [St] that stands for everything outside the manager, standard output
    included. *)

Module SimManager.

(** *** [CountingIterator] *)

Record CountingIterator (A : Type) : Type := MkCountingIterator {
  indices : list nat;
  iterable : list A
}.
Arguments MkCountingIterator {A} indices iterable.
Arguments indices {A} c.
Arguments iterable {A} c.

(** [count]: the loop appends to [self.indices] and to [xs]; the
    generator it returns runs over [xs]. *)
Definition count {A} (self_indices : list nat) (iterable : list A) : list nat * list A :=
  foldl (fun st ix => (st.1 ++ [ix.1], st.2 ++ [ix.2])) (self_indices, [])
        (imap pair iterable).

Definition CountingIterator_init {A} (iterable : list A) : CountingIterator A :=
  let st := count [] iterable in
  MkCountingIterator st.1 st.2.

(** *** [Manager] *)

Section Manager.
Context {walker data St : Type}.

Record Runner : Type := MkRunner {
  runner_run_segment : walker -> nat -> M St walker
}.

(** [warp_walkers] returns the warped walkers, the warp records, the
    warp auxiliary data, the boundary condition records and their
    auxiliary data. *)
Record BoundaryConditions : Type := MkBoundaryConditions {
  warp_walkers : list walker -> bool -> M St (list walker * data * data * data * data)
}.

Record Resampler : Type := MkResampler {
  resample : list walker -> bool -> M St (list walker * data * data)
}.

Record Reporter : Type := MkReporter {
  init : M St unit;
  report : nat -> list walker -> data -> data -> data -> data -> data -> data -> bool
           -> M St unit;
  cleanup : M St unit
}.

Record Manager : Type := MkManager {
  init_walkers : list walker;
  n_init_walkers : nat;
  num_workers : option nat;
  runner : Runner;
  resampler : Resampler;
  boundary_conditions : BoundaryConditions;
  (** [self.map]: the function that maps the runner over the walkers and
      their segment lengths. *)
  work_mapper : (walker -> nat -> M St walker) -> list walker -> list nat -> M St (list walker);
  reporter : Reporter
}.

(** [Manager.__init__]. *)
Definition Manager_init (init_walkers : list walker) (num_workers : option nat)
    (runner : Runner) (resampler : Resampler) (boundary_conditions : BoundaryConditions)
    (work_mapper : (walker -> nat -> M St walker) -> list walker -> list nat
                   -> M St (list walker))
    (reporter : Reporter) : Manager :=
  MkManager init_walkers (length init_walkers) num_workers runner resampler
            boundary_conditions work_mapper reporter.

(** A loop that collects, in the state monad. *)
Fixpoint mapM_M {A B} (f : A -> M St B) (l : list A) : M St (list B) :=
  match l with
  | [] => ret_M []
  | a :: l' => b ← f a; bs ← mapM_M f l'; ret_M (b :: bs)
  end.

(** Python's [map] with two iterables, run to its end by [list]: it stops
    with the shorter of the two. *)
Definition py_map (f : walker -> nat -> M St walker) (xs : list walker) (ys : list nat)
  : M St (list walker) :=
  mapM_M (fun xy => f xy.1 xy.2) (zip xs ys).

(** Standard output, and [str] of the state and of the weight of a
    walker. *)
Context (sys_stdout_write : string -> M St unit).
Context (str_state str_weight : walker -> string).

Definition nl : string := String "010"%char EmptyString.

Definition py_print (s : string) : M St unit :=
  sys_stdout_write s;; sys_stdout_write nl.

Definition run_segment (self : Manager) (walkers : list walker) (segment_length : nat)
    (debug_prints : bool) : M St (list walker) :=
  let num_walkers := length walkers in
  (if debug_prints then sys_stdout_write ("Starting segment" +:+ nl) else ret_M tt);;
  new_walkers ← work_mapper self (runner_run_segment (runner self)) walkers
                  (replicate num_walkers segment_length);
  (if debug_prints then sys_stdout_write ("Ending segment" +:+ nl) else ret_M tt);;
  ret_M new_walkers.

(** ["{:^10}".format(x)]: [x] centred in a field of width 10, the odd
    space on the right. *)
Fixpoint spaces (n : nat) : string :=
  match n with
  | 0 => EmptyString
  | S n' => " " +:+ spaces n'
  end.
Definition center10 (s : string) : string :=
  let padding := 10 - String.length s in
  spaces (padding / 2) +:+ s +:+ spaces (padding - padding / 2).

(** [result_template_str.format] applied to [args], for the template of
    [n_fields] fields joined by a bar: arguments beyond the fields are
    ignored, missing ones raise [IndexError]. *)
Definition result_template_format (n_fields : nat) (args : list string) : outcome string :=
  if bool_decide (length args < n_fields) then Raise IndexError
  else Ok (String.concat "|" (center10 <$> take n_fields args)).

(** One pass of the main loop of [run_simulation]; its value is the
    walkers the next cycle starts from. *)
Definition run_cycle (self : Manager) (segment_lengths : list nat) (debug_prints : bool)
    (walkers : list walker) (cycle_idx : nat) : M St (list walker) :=
  (if debug_prints
   then sys_stdout_write ("Begin cycle " +:+ pretty cycle_idx +:+ nl)
   else ret_M tt);;
  segment_length ← lift_M (from_option IndexError (segment_lengths !! cycle_idx));
  new_walkers ← run_segment self walkers segment_length debug_prints;
  (if debug_prints
   then sys_stdout_write ("End cycle " +:+ pretty cycle_idx +:+ nl)
   else ret_M tt);;
  bc_results ← warp_walkers (boundary_conditions self) new_walkers debug_prints;
  let warped_walkers := bc_results.1.1.1.1 in
  let warp_records := bc_results.1.1.1.2 in
  let warp_aux_data := bc_results.1.1.2 in
  let bc_records := bc_results.1.2 in
  let bc_aux_data := bc_results.2 in
  resampling ← resample (resampler self) new_walkers debug_prints;
  let resampled_walkers := resampling.1.1 in
  let resampling_records := resampling.1.2 in
  let resampling_aux_data := resampling.2 in
  (if debug_prints then
     py_print "Net state of walkers after resampling:";;
     py_print "--------------------------------------";;
     slot_str ← lift_M (result_template_format (n_init_walkers self + 1)
                          ("slot" :: (pretty <$> seq 0 (length resampled_walkers))));
     py_print slot_str;;
     walker_state_str ← lift_M (result_template_format (n_init_walkers self + 1)
                                  ("state" :: (str_state <$> resampled_walkers)));
     py_print walker_state_str;;
     walker_weight_str ← lift_M (result_template_format (n_init_walkers self + 1)
                                   ("weight" :: (str_weight <$> resampled_walkers)));
     py_print walker_weight_str
   else ret_M tt);;
  report (reporter self) cycle_idx new_walkers warp_records warp_aux_data
         bc_records bc_aux_data resampling_records resampling_aux_data debug_prints;;
  ret_M resampled_walkers.

Fixpoint run_cycles (self : Manager) (segment_lengths : list nat) (debug_prints : bool)
    (cycle_idxs : list nat) (walkers : list walker) : M St unit :=
  match cycle_idxs with
  | [] => ret_M tt
  | cycle_idx :: cycle_idxs' =>
      walkers' ← run_cycle self segment_lengths debug_prints walkers cycle_idx;
      run_cycles self segment_lengths debug_prints cycle_idxs' walkers'
  end.

Definition run_simulation (self : Manager) (n_cycles : nat) (segment_lengths : list nat)
    (debug_prints : bool) : M St unit :=
  (if debug_prints then sys_stdout_write ("Starting simulation" +:+ nl) else ret_M tt);;
  init (reporter self);;
  let walkers := init_walkers self in
  run_cycles self segment_lengths debug_prints (seq 0 n_cycles) walkers;;
  cleanup (reporter self).
End Manager.

(** *** Definitions used to state the properties of the manager *)

Section ManagerStatements.
Context {walker data world : Type}.

(** A reporter that does nothing but keep the list of the calls made to
    it, beside the state [world] of the other objects; and a method of
    another object seen in that larger state. *)
Inductive call : Type :=
| CallInit
| CallReport (cycle_idx : nat) (walkers : list walker)
| CallCleanup.

Definition recording_reporter : @Reporter walker data (world * list call) :=
  MkReporter
    (fun s => (Ok tt, (s.1, s.2 ++ [CallInit])))
    (fun cycle_idx walkers _ _ _ _ _ _ _ s =>
       (Ok tt, (s.1, s.2 ++ [CallReport cycle_idx walkers])))
    (fun s => (Ok tt, (s.1, s.2 ++ [CallCleanup]))).

Definition beside_log {A} (c : M world A) : M (world * list call) A := fun s =>
  ((c s.1).1, ((c s.1).2, s.2)).

(** A method that returns: it raises for no input and in no state. *)
Definition returns {S A} (c : M S A) : Prop := ∀ s, ∃ a s', c s = (Ok a, s').

(** The manager of a simulation whose calls to the reporter are
    recorded; it uses Python's [map]. *)
Definition recorded_manager (init_walkers : list walker)
    (run : walker -> nat -> M world walker)
    (warp : list walker -> bool -> M world (list walker * data * data * data * data))
    (resamp : list walker -> bool -> M world (list walker * data * data))
  : @Manager walker data (world * list call) :=
  Manager_init init_walkers None
    (MkRunner (fun wk n => beside_log (run wk n)))
    (MkResampler (fun wks dbg => beside_log (resamp wks dbg)))
    (MkBoundaryConditions (fun wks dbg => beside_log (warp wks dbg)))
    py_map recording_reporter.

(** What the manager can see of a call to [warp_walkers] once the warped
    walkers are left out: the records, the auxiliary data, the error and
    the state. *)
Definition without_warped {St}
    (r : outcome (list walker * data * data * data * data) * St)
  : outcome (data * data * data * data) * St :=
  ((fun x => (x.1.1.1.2, x.1.1.2, x.1.2, x.2)) <$> r.1, r.2).
End ManagerStatements.
End SimManager.

(** * wepy.resampling.decision

    An enumeration class is the list of its members, each a name and a
    value; reading an attribute that is no member raises
    [AttributeError]. *)

Module DecisionModels.

Definition Enum : Type := list (string * Z).

Definition enum_getattr (cls : Enum) (name : string) : outcome (string * Z) :=
  from_option AttributeError (snd <$> list_find (fun m => m.1 = name) cls).

Definition Decision : Enum := [].

Definition CloneMergeDecision : Enum :=
  [("NOTHING", 1%Z); ("CLONE", 2%Z); ("SQUASH", 3%Z); ("MERGE", 4%Z)].

(** [NoCloneMerge.decide]: one decision for each novelty. *)
Definition decide {A} (novelties : list A) : outcome (list (string * Z)) :=
  mapM_outcome (fun _ => enum_getattr Decision "NOTHING") novelties.
End DecisionModels.

(** * Further small inputs used to run the definitions

    An observable for the four trajectories of run 1, the declaration of
    the resampling fields, a run that has records but no trajectory, a
    walker, and the objects of a small simulation: the walkers are
    numbers, a segment adds its length to the walker, and the state of
    the world counts the steps that were run. *)

Definition ex_observable : @pydata nat :=
  DataArr [[1; 2; 3]; [4; 5; 6]; [7; 8; 9]; [10; 11; 12]].


Definition ex_empty_run : @Run nat Z :=
  MkRun [] [] {[ RESAMPLING := ex_resampling ]} {[ RUN_IDX := AInt 0 ]}.

Definition ex_w_empty_run : @WepyHDF5 nat Z :=
  MkWepy (MkH5 "{}" ∅ ex_settings [ex_empty_run]) true [].

(** Two runs of one trajectory and 10 cycles each, both with the sparse
    field [velocities] written at cycles 2, 5 and 9. *)
Definition ex_w_sparse_contig : @WepyHDF5 nat Z :=
  MkWepy (MkH5 "{}" ∅ ex_settings [ex_sparse_run; ex_sparse_run]) true [].

(** The cycles read of the two runs: 2 and 3 of run 0, 5 and 9 of run 1. *)
Definition ex_sel (run_idx : nat) : list nat :=
  if decide (run_idx = 0) then [2; 3] else [5; 9].




Definition ex_walker : @Walker nat :=
  MkWalker 1 [(POSITIONS, Some 7); ("box_vectors", None)].

Definition ex_run_segment (walker segment_length : nat) : M nat nat := fun steps =>
  (Ok (walker + segment_length), steps + segment_length).

Definition ex_warp_walkers (walkers : list nat) (debug_prints : bool)
  : M nat (list nat * unit * unit * unit * unit) := fun steps =>
  (Ok (walkers, tt, tt, tt, tt), steps).

Definition ex_warp_to_nothing (walkers : list nat) (debug_prints : bool)
  : M nat (list nat * unit * unit * unit * unit) := fun steps =>
  (Ok ([], tt, tt, tt, tt), steps).

Definition ex_resample (walkers : list nat) (debug_prints : bool)
  : M nat (list nat * unit * unit) := fun steps =>
  (Ok (walkers, tt, tt), steps).

Definition ex_resample_two (walkers : list nat) (debug_prints : bool)
  : M nat (list nat * unit * unit) := fun steps =>
  (Ok (take 2 walkers, tt, tt), steps).

Definition ex_stdout_write {St} (text : string) : M St unit := ret_M tt.

Definition ex_reporter : @SimManager.Reporter nat unit nat :=
  SimManager.MkReporter (ret_M tt) (fun _ _ _ _ _ _ _ _ _ => ret_M tt) (ret_M tt).

Definition ex_manager : @SimManager.Manager nat unit nat :=
  SimManager.Manager_init [1; 2; 3] None
    (SimManager.MkRunner ex_run_segment)
    (SimManager.MkResampler ex_resample)
    (SimManager.MkBoundaryConditions ex_warp_walkers)
    SimManager.py_map ex_reporter.

(** * Properties *)

(** ** Generic facts about the computation shapes *)

Lemma mapM_outcome_ok {A B} (f : A -> outcome B) (g : A -> B) (l : list A) :
  (∀ a, a ∈ l → f a = Ok (g a)) → mapM_outcome f l = Ok (g <$> l).
Proof.
  induction l as [|a l IH]; intros Hf; simpl; [done|].
  rewrite (Hf a) by left. simpl.
  rewrite IH; [done|]. intros b Hb. apply Hf. by right.
Qed.

Lemma mapM_outcome_lookup {A} (rows : list A) (e : pyerr) (idxs : list nat) (g : nat -> A) :
  (∀ i, i ∈ idxs → rows !! i = Some (g i)) →
  mapM_outcome (fun i => from_option e (rows !! i)) idxs = Ok (g <$> idxs).
Proof.
  intros H. apply mapM_outcome_ok. intros i Hi. by rewrite (H i Hi).
Qed.

(** ** Continuations and contigs *)

Section Contigs.
Context {frame scalar : Type}.
Implicit Types w : @WepyHDF5 frame scalar.

Lemma contig_flag_spec (conts : list (Z * Z)) (rc : Z * Z) :
  contig_flag conts rc = true ↔ rc ∈ conts.
Proof.
  unfold contig_flag.
  assert (∀ b, foldl (fun contig continuous =>
                 if bool_decide (rc = continuous) then true else contig) b conts = true
               ↔ b = true ∨ rc ∈ conts) as H.
  { induction conts as [|c conts IH]; intros b; simpl.
    - rewrite elem_of_nil. naive_solver.
    - rewrite IH, elem_of_cons. case_bool_decide; naive_solver. }
  rewrite H. naive_solver.
Qed.

Lemma contig_loop_spec (conts pairs : list (Z * Z)) :
  contig_loop conts pairs = true ↔ ∀ rc, rc ∈ pairs → rc ∈ conts.
Proof.
  induction pairs as [|rc pairs IH]; simpl.
  - split; [|done]. intros _ rc Hrc. by apply elem_of_nil in Hrc.
  - destruct (contig_flag conts rc) eqn:Hf; simpl.
    + apply contig_flag_spec in Hf. rewrite IH. split.
      * intros H rc' [->|?]%elem_of_cons; auto.
      * intros H rc' ?. apply H. by right.
    + split; [done|]. intros H.
      assert (rc ∈ conts) as Hin by (apply H; left).
      apply contig_flag_spec in Hin. congruence.
Qed.

Lemma is_run_contig_eq w (es : list (Z * Z)) (run_idxs : list Z) :
  s_continuations (settings_grp w) = Some es →
  is_run_contig w run_idxs = Ok (contig_loop es (consecutive_pairs run_idxs)).
Proof.
  intros Hes. unfold is_run_contig, continuations.
  erewrite mapM_outcome_ok; [simpl; by rewrite Hes|].
  intros idx [_ Hidx]%elem_of_seq. simpl in Hidx.
  destruct (lookup_lt_is_Some_2 run_idxs (idx + 1)) as [a Ha]; [lia|].
  destruct (lookup_lt_is_Some_2 run_idxs idx) as [b Hb]; [lia|].
  rewrite Ha, Hb. simpl.
  by rewrite (list_lookup_total_correct _ _ _ Ha), (list_lookup_total_correct _ _ _ Hb).
Qed.

(** C2.  [is_run_contig] answers true exactly when every consecutive
    pair [(run_idxs[i+1], run_idxs[i])] of the sequence is a stored
    continuation edge; a single run is a contig; and with the edges
    (1,0) and (2,1) the sequence 0,1,2 is a contig while 0,2 and 2,1,0 are
    not. *)
Theorem is_run_contig_spec w (es : list (Z * Z)) :
  s_continuations (settings_grp w) = Some es →
  (∀ run_idxs : list Z, ∃ b,
      is_run_contig w run_idxs = Ok b ∧
      (b = true ↔
       ∀ i earlier later, run_idxs !! i = Some earlier → run_idxs !! (i + 1) = Some later →
                          (later, earlier) ∈ es)) ∧
  (∀ r : Z, is_run_contig w [r] = Ok true) ∧
  (es = [(1, 0); (2, 1)]%Z →
   is_run_contig w [0; 1; 2]%Z = Ok true ∧
   is_run_contig w [0; 2]%Z = Ok false ∧
   is_run_contig w [2; 1; 0]%Z = Ok false).
Proof.
  intros Hes. split; [|split].
  - intros run_idxs. eexists. split; [by apply is_run_contig_eq|].
    rewrite contig_loop_spec. unfold consecutive_pairs. split.
    + intros H i earlier later Hi Hi'. apply H.
      apply list_elem_of_fmap. exists i. split.
      * by rewrite (list_lookup_total_correct _ _ _ Hi),
          (list_lookup_total_correct _ _ _ Hi').
      * apply elem_of_seq. apply lookup_lt_Some in Hi'. lia.
    + intros H rc (idx & -> & [_ Hidx]%elem_of_seq)%list_elem_of_fmap. simpl in Hidx.
      destruct (lookup_lt_is_Some_2 run_idxs (idx + 1)) as [a Ha]; [lia|].
      destruct (lookup_lt_is_Some_2 run_idxs idx) as [b Hb]; [lia|].
      rewrite (list_lookup_total_correct _ _ _ Ha), (list_lookup_total_correct _ _ _ Hb).
      by apply (H idx).
  - intros r. by rewrite (is_run_contig_eq _ es).
  - intros ->. by rewrite !(is_run_contig_eq _ _ _ Hes).
Qed.
End Contigs.

(** ** Unfolding the method monad *)

Ltac msimpl :=
  unfold mbind, M_bind, mret, M_ret, bind_M, ret_M, raise_M, get_M, put_M, lift_M, read_M;
  simpl.

Lemma bind_M_eq {S A B} (c : M S A) (k : A -> M S B) (s s' : S) (a : A) :
  c s = (Ok a, s') → (c ≫= k) s = k a s'.
Proof. intros H. unfold mbind, M_bind, bind_M. by rewrite H. Qed.

Lemma for_M_cons {S A} (a : A) (l : list A) (body : A -> M S unit) (s s' : S) :
  body a s = (Ok tt, s') → for_M (a :: l) body s = for_M l body s'.
Proof. intros H. simpl. by erewrite bind_M_eq. Qed.

Section Settings.
Context {frame scalar : Type}.
Implicit Types w : @WepyHDF5 frame scalar.

Lemma modify_settings_eq w (upd : Settings -> Settings) :
  writable w = true →
  modify_settings upd w = (Ok tt, with_settings w (upd (settings_grp w))).
Proof.
  intros Hw. unfold modify_settings, h5_modify, with_settings. simpl. by rewrite Hw.
Qed.

Lemma decode_shape_nonempty (dims : list nat) :
  dims ≠ [] → decode_shape (ShapeArr dims) = Some dims.
Proof. by destruct dims. Qed.

Lemma decode_dtype_json (descr : list (string * string)) :
  decode_dtype (json_dumps_descr descr) = Some (json_dumps_descr descr).
Proof. unfold decode_dtype. by case_decide. Qed.

(** *** Sparse field flags *)

Lemma _add_sparse_field_flag_eq w (field_path : string) :
  writable w = true →
  _add_sparse_field_flag field_path w =
    (Ok tt,
     MkWepy (set_settings (h5 w)
               (set_sparse_fields (settings_grp w) (sparse_fields w ++ [field_path])))
            true
            (warnings w ++
               if bool_decide (field_path ∈ sparse_fields w)
               then [already_sparse_msg field_path] else [])).
Proof.
  intros Hw. unfold _add_sparse_field_flag, sparse_fields. msimpl.
  case_bool_decide; unfold warn, modify_settings, h5_modify; msimpl; rewrite Hw.
  - done.
  - by rewrite app_nil_r.
Qed.

(** C9 (the code departs from the claim).  Adding the sparse flag of a
    path that is already registered does not raise and issues the warning,
    but it is not a no-op: the path is stored once more, so the stored
    list of sparse fields grows by one entry. *)
Theorem add_sparse_field_flag_registered_twice w (field_path : string) :
  writable w = true →
  field_path ∈ sparse_fields w →
  ∃ w', _add_sparse_field_flag field_path w = (Ok tt, w') ∧
        warnings w' = warnings w ++ [already_sparse_msg field_path] ∧
        sparse_fields w' = sparse_fields w ++ [field_path] ∧
        length (sparse_fields w') = S (length (sparse_fields w)) ∧
        sparse_fields w' ≠ sparse_fields w.
Proof.
  intros Hw Hin. eexists. split; [by apply _add_sparse_field_flag_eq|].
  rewrite bool_decide_eq_true_2 by done. unfold sparse_fields; simpl.
  repeat split.
  - rewrite length_app. simpl. lia.
  - intros H. apply (f_equal length) in H. rewrite length_app in H. simpl in H. lia.
Qed.

(** *** Feature shapes and dtypes *)

Lemma _set_field_feature_shape_declared w (field_path : string) (old new : list nat) :
  field_feature_shapes w !! field_path = Some (Some old) →
  _set_field_feature_shape field_path new w = (Raise AttributeError, w).
Proof. intros H. unfold _set_field_feature_shape. msimpl. by rewrite H. Qed.

Lemma _set_field_feature_shape_deferred w (field_path : string) (new : list nat) :
  writable w = true →
  field_feature_shapes w !! field_path = Some None →
  _set_field_feature_shape field_path new w =
    (Ok tt, with_settings w (set_shapes (settings_grp w)
              (<[field_path := ShapeArr new]> (s_field_feature_shapes (settings_grp w))))).
Proof.
  intros Hw H. unfold _set_field_feature_shape. msimpl. rewrite H.
  unfold modify_settings, h5_modify. msimpl. rewrite Hw. simpl.
  unfold with_settings, set_settings, set_shapes, settings_grp. simpl.
  by rewrite Hw, insert_delete_eq.
Qed.

Lemma _set_field_feature_dtype_declared w (field_path : string) (old : string)
    (new : list (string * string)) :
  field_feature_dtypes w !! field_path = Some (Some old) →
  _set_field_feature_dtype field_path new w = (Raise AttributeError, w).
Proof. intros H. unfold _set_field_feature_dtype. msimpl. by rewrite H. Qed.

Lemma _set_field_feature_dtype_deferred w (field_path : string)
    (new : list (string * string)) :
  writable w = true →
  field_feature_dtypes w !! field_path = Some None →
  _set_field_feature_dtype field_path new w =
    (Ok tt, with_settings w (set_dtypes (settings_grp w)
              (<[field_path := json_dumps_descr new]>
                 (s_field_feature_dtypes (settings_grp w))))).
Proof.
  intros Hw H. unfold _set_field_feature_dtype. msimpl. rewrite H.
  unfold modify_settings, h5_modify. msimpl. rewrite Hw. simpl.
  unfold with_settings, set_settings, set_dtypes, settings_grp. simpl.
  by rewrite Hw, insert_delete_eq.
Qed.

(** C6 (amended).  Re-declaring a feature shape or dtype that has a
    non-deferred declaration raises (the driver's [AttributeError] is the
    spec's SchemaConflict) and leaves the archive as it was; declaring a
    dtype, or a feature shape of at least one dimension, over a deferred
    declaration succeeds, stores the new declaration, and any later
    declaration for that path raises and changes nothing. *)
Theorem set_field_feature_declaration_spec w (field_path : string) :
  writable w = true →
  (∀ old new : list nat,
      field_feature_shapes w !! field_path = Some (Some old) →
      _set_field_feature_shape field_path new w = (Raise AttributeError, w)) ∧
  (∀ new : list nat,
      new ≠ [] →
      field_feature_shapes w !! field_path = Some None →
      ∃ w', _set_field_feature_shape field_path new w = (Ok tt, w') ∧
            field_feature_shapes w' !! field_path = Some (Some new) ∧
            ∀ other : list nat,
              _set_field_feature_shape field_path other w' = (Raise AttributeError, w')) ∧
  (∀ (old : string) (new : list (string * string)),
      field_feature_dtypes w !! field_path = Some (Some old) →
      _set_field_feature_dtype field_path new w = (Raise AttributeError, w)) ∧
  (∀ new : list (string * string),
      field_feature_dtypes w !! field_path = Some None →
      ∃ w', _set_field_feature_dtype field_path new w = (Ok tt, w') ∧
            field_feature_dtypes w' !! field_path = Some (Some (json_dumps_descr new)) ∧
            ∀ other : list (string * string),
              _set_field_feature_dtype field_path other w' = (Raise AttributeError, w')).
Proof.
  intros Hw. repeat split.
  - intros old new. apply _set_field_feature_shape_declared.
  - intros new Hne Hdef. eexists. split; [by apply _set_field_feature_shape_deferred|].
    assert (field_feature_shapes
              (with_settings w (set_shapes (settings_grp w)
                 (<[field_path := ShapeArr new]> (s_field_feature_shapes (settings_grp w)))))
              !! field_path = Some (Some new)) as Hnew.
    { unfold field_feature_shapes, with_settings, settings_grp. simpl.
      rewrite lookup_fmap, lookup_insert_eq. simpl. by destruct new. }
    split; [done|]. intros other.
    by eapply _set_field_feature_shape_declared.
  - intros old new. apply _set_field_feature_dtype_declared.
  - intros new Hdef. eexists. split; [by apply _set_field_feature_dtype_deferred|].
    assert (field_feature_dtypes
              (with_settings w (set_dtypes (settings_grp w)
                 (<[field_path := json_dumps_descr new]>
                    (s_field_feature_dtypes (settings_grp w)))))
              !! field_path = Some (Some (json_dumps_descr new))) as Hnew.
    { unfold field_feature_dtypes, with_settings, settings_grp. simpl.
      rewrite lookup_fmap, lookup_insert_eq.
      exact (f_equal Some (decode_dtype_json new)). }
    split; [done|]. intros other.
    by eapply _set_field_feature_dtype_declared.
Qed.

(** The empty shape is read back as deferred: [np.isnan] of an array
    without elements is vacuously all true. *)
Lemma empty_shape_reads_as_deferred w (field_path : string) :
  writable w = true →
  field_feature_shapes w !! field_path = Some None →
  ∃ w', _set_field_feature_shape field_path [] w = (Ok tt, w') ∧
        field_feature_shapes w' !! field_path = Some None.
Proof.
  intros Hw Hdef. eexists. split; [by apply _set_field_feature_shape_deferred|].
  unfold field_feature_shapes, with_settings, settings_grp. simpl.
  by rewrite lookup_fmap, lookup_insert_eq.
Qed.
End Settings.

(** ** Continuation edges, new runs and clones *)

Section Continuations.
Context {frame scalar : Type}.
Implicit Types w : @WepyHDF5 frame scalar.

Lemma _init_continuations_eq w :
  writable w = true →
  _init_continuations w =
    (Ok [], with_settings w (set_continuations (settings_grp w) (Some []))).
Proof.
  intros Hw. unfold _init_continuations. msimpl.
  destruct (s_continuations (settings_grp w)); by rewrite modify_settings_eq.
Qed.

Lemma add_continuation_eq w (es : list (Z * Z)) (continuation_run base_run : Z) :
  writable w = true →
  s_continuations (settings_grp w) = Some es →
  add_continuation continuation_run base_run w =
    (Ok tt, with_settings w (set_continuations (settings_grp w)
                               (Some (es ++ [(continuation_run, base_run)])))).
Proof.
  intros Hw Hes. unfold add_continuation, continuations. msimpl. rewrite Hes. simpl.
  by rewrite modify_settings_eq.
Qed.

Lemma new_run_missing_base w (init_walkers : list Walker) (continue_run : Z)
    (kwargs : list (string * attr_val)) :
  continue_run ∉ Z.of_nat <$> run_idxs w →
  new_run init_walkers (Some continue_run) kwargs w = (Raise ValueError, w).
Proof.
  intros Hnot. unfold new_run. msimpl. by rewrite bool_decide_eq_false_2.
Qed.

(** C8, as amended.  [add_continuation] appends the edge
    [(continuation_run, base_run)] whatever [base_run] is: it makes no
    check.  The check is made by [new_run]: creating a run that continues
    a run index which is not in the archive raises [ValueError] and leaves
    the archive, its edge list included, as it was. *)
Theorem add_continuation_unchecked_new_run_checked w (es : list (Z * Z)) :
  writable w = true →
  s_continuations (settings_grp w) = Some es →
  (∀ continuation_run base_run : Z, ∃ w',
      add_continuation continuation_run base_run w = (Ok tt, w') ∧
      s_continuations (settings_grp w') = Some (es ++ [(continuation_run, base_run)]) ∧
      f_runs (h5 w') = f_runs (h5 w)) ∧
  (∀ (init_walkers : list Walker) (base_run : Z) (kwargs : list (string * attr_val)),
      base_run ∉ Z.of_nat <$> run_idxs w →
      new_run init_walkers (Some base_run) kwargs w = (Raise ValueError, w)).
Proof.
  intros Hw Hes. split.
  - intros c b. eexists. split; [by apply add_continuation_eq|]. done.
  - intros. by apply new_run_missing_base.
Qed.

Lemma clone_eq w (path_exists : bool) (mode : file_mode) :
  writable w = true →
  creation_mode mode = true →
  can_create path_exists mode = true →
  clone path_exists mode w =
    (Ok (MkWepy (MkH5 (f_topology (h5 w)) (f_units (h5 w)) (f_settings (h5 w)) []) true []),
     with_settings w (set_continuations (settings_grp w) (Some []))).
Proof.
  intros Hw Hmode Hcreate. unfold clone. msimpl.
  unfold creation_mode in Hmode. rewrite Hmode. simpl.
  assert (path_exists && match mode with Mode_w => false | _ => true end = false) as ->.
  { unfold can_create in Hcreate. destruct path_exists, mode; naive_solver. }
  by rewrite _init_continuations_eq.
Qed.

(** C7 (the code departs from the claim).  The clone has no runs and the
    topology, units and settings of the source; but the settings group is
    copied whole and it is the source whose continuations are then
    re-initialised, so the clone holds every continuation edge the source
    held when the call was made. *)
Theorem clone_keeps_source_continuations w (path_exists : bool) (mode : file_mode)
    (es : list (Z * Z)) :
  writable w = true →
  creation_mode mode = true →
  can_create path_exists mode = true →
  s_continuations (settings_grp w) = Some es →
  ∃ new_wepy_h5 w',
    clone path_exists mode w = (Ok new_wepy_h5, w') ∧
    f_runs (h5 new_wepy_h5) = [] ∧
    f_topology (h5 new_wepy_h5) = f_topology (h5 w) ∧
    f_units (h5 new_wepy_h5) = f_units (h5 w) ∧
    settings_grp new_wepy_h5 = settings_grp w ∧
    continuations new_wepy_h5 = Ok es.
Proof.
  intros Hw Hmode Hcreate Hes. do 2 eexists. split; [by apply clone_eq|].
  unfold continuations, settings_grp. simpl. unfold settings_grp in Hes. by rewrite Hes.
Qed.

(** C10.  A clone of an archive that has continuation edges changes the
    source: after the call the source's continuation list has length
    zero, and its topology, units, runs and every other setting are what
    they were. *)
Theorem clone_resets_source_continuations w (path_exists : bool) (mode : file_mode)
    (es : list (Z * Z)) :
  writable w = true →
  creation_mode mode = true →
  can_create path_exists mode = true →
  s_continuations (settings_grp w) = Some es →
  es ≠ [] →
  ∃ new_wepy_h5 w',
    clone path_exists mode w = (Ok new_wepy_h5, w') ∧
    w' ≠ w ∧
    (∃ es', continuations w' = Ok es' ∧ length es' = 0) ∧
    f_topology (h5 w') = f_topology (h5 w) ∧
    f_units (h5 w') = f_units (h5 w) ∧
    f_runs (h5 w') = f_runs (h5 w) ∧
    settings_grp w' = set_continuations (settings_grp w) (Some []) ∧
    writable w' = writable w ∧
    warnings w' = warnings w.
Proof.
  intros Hw Hmode Hcreate Hes Hne. do 2 eexists. split; [by apply clone_eq|].
  split.
  - intros Heq. apply (f_equal (fun x => s_continuations (settings_grp x))) in Heq.
    simpl in Heq. rewrite Hes in Heq. by destruct es.
  - split; [by exists []|]. done.
Qed.
End Continuations.

(** ** Reading trajectory fields *)

Section FieldReads.
Context {frame scalar : Type}.
Implicit Types w : @WepyHDF5 frame scalar.

Lemma get_traj_field_sparse w (run_idx traj_idx : nat) (field_path : string)
    (traj_grp : gmap string traj_field) (field : traj_field)
    (frames : option (list nat)) (masked : bool) :
  traj w run_idx traj_idx = Ok traj_grp →
  traj_grp !! field_path = Some field →
  field_path ∈ sparse_fields w →
  get_traj_field w run_idx traj_idx field_path frames masked =
    _get_sparse_traj_field w run_idx traj_idx field_path frames masked.
Proof.
  intros Ht Hf Hs. unfold get_traj_field. rewrite Ht. simpl.
  rewrite Hf. rewrite (bool_decide_eq_true_2 (is_Some (Some field))) by eauto. simpl.
  by rewrite bool_decide_eq_true_2.
Qed.

Lemma get_traj_field_dense w (run_idx traj_idx : nat) (field_path : string)
    (traj_grp : gmap string traj_field) (rows : list frame)
    (frames : option (list nat)) (masked : bool) :
  traj w run_idx traj_idx = Ok traj_grp →
  traj_grp !! field_path = Some (Dataset rows) →
  field_path ∉ sparse_fields w →
  get_traj_field w run_idx traj_idx field_path frames masked =
    match frames with
    | None => Ok (Plain rows)
    | Some frames => field ← h5_take rows frames; Ok (Plain field)
    end.
Proof.
  intros Ht Hf Hs. unfold get_traj_field. rewrite Ht. simpl.
  rewrite Hf. rewrite (bool_decide_eq_true_2 (is_Some (Some (Dataset rows)))) by eauto.
  simpl. rewrite bool_decide_eq_false_2 by done.
  unfold _get_contiguous_traj_field. rewrite Ht. simpl. by rewrite Hf.
Qed.

(** *** Sorted index lists *)

Lemma strictly_increasing_cons (x : nat) (l : list nat) :
  strictly_increasing (x :: l) = true →
  Forall (fun y => x < y) l ∧ strictly_increasing l = true.
Proof.
  revert x. induction l as [|y l IH]; intros x H; [by split|].
  simpl in H. apply andb_prop in H as [Hxy Hl]. apply bool_decide_eq_true in Hxy.
  destruct (IH y Hl) as [Hy _]. split; [|done].
  constructor; [done|]. eapply Forall_impl; [exact Hy|]. simpl. lia.
Qed.

Lemma strictly_increasing_NoDup (l : list nat) :
  strictly_increasing l = true → NoDup l.
Proof.
  induction l as [|x l IH]; intros H; [constructor|].
  apply strictly_increasing_cons in H as [Hx Hl]. constructor; [|by apply IH].
  intros Hin. rewrite Forall_forall in Hx. specialize (Hx x Hin). lia.
Qed.

Lemma np_argwhere_from_bounds (k : nat) (bs : list bool) :
  Forall (fun i => k ≤ i < k + length bs) (np_argwhere_from k bs).
Proof.
  revert k. induction bs as [|b bs IH]; intros k; simpl; [constructor|].
  specialize (IH (S k)).
  assert (Forall (fun i => k ≤ i < k + S (length bs)) (np_argwhere_from (S k) bs)) as H.
  { eapply Forall_impl; [exact IH|]. simpl. lia. }
  destruct b; [constructor; [lia|done]|done].
Qed.

Lemma strictly_increasing_cons_2 (x : nat) (l : list nat) :
  Forall (fun y => x < y) l → strictly_increasing l = true →
  strictly_increasing (x :: l) = true.
Proof.
  intros Hx Hl. destruct l as [|y l]; [done|].
  change (bool_decide (x < y) && strictly_increasing (y :: l) = true).
  rewrite Hl, andb_true_r. apply bool_decide_eq_true. by apply Forall_cons in Hx as [? _].
Qed.

Lemma np_argwhere_from_increasing (k : nat) (bs : list bool) :
  strictly_increasing (np_argwhere_from k bs) = true.
Proof.
  revert k. induction bs as [|b bs IH]; intros k; simpl; [done|].
  destruct b; [|by apply IH].
  apply strictly_increasing_cons_2; [|by apply IH].
  eapply Forall_impl; [apply (np_argwhere_from_bounds (S k) bs)|]. simpl. lia.
Qed.

(** *** The row used for a frame *)

Lemma position_in_None (sp : list nat) (i : nat) : i ∉ sp → position_in sp i = None.
Proof.
  induction sp as [|s sp IH]; intros Hi; simpl; [done|].
  apply not_elem_of_cons in Hi as [? ?]. case_decide; [congruence|]. by rewrite IH.
Qed.

Lemma position_in_lt (sp : list nat) (i j : nat) :
  position_in sp i = Some j → j < length sp ∧ i ∈ sp.
Proof.
  revert j. induction sp as [|s sp IH]; intros j; simpl; [done|].
  case_decide as Hs.
  - intros [= <-]. subst. split; [lia|left].
  - destruct (position_in sp i) as [j'|]; simpl; [|done].
    intros [= <-]. destruct (IH j' eq_refl). split; [lia|by right].
Qed.

Lemma sparse_row_None (sp : list nat) (D : list frame) (i : nat) :
  i ∉ sp → sparse_row sp D i = None.
Proof. intros Hi. unfold sparse_row. by rewrite position_in_None. Qed.

Lemma sparse_row_cons (s : nat) (sp : list nat) (d : frame) (D : list frame) (i : nat) :
  sparse_row (s :: sp) (d :: D) i = if decide (s = i) then Some d else sparse_row sp D i.
Proof.
  unfold sparse_row. simpl. case_decide; [done|]. by destruct (position_in sp i).
Qed.

Lemma sparse_row_is_Some (sp : list nat) (D : list frame) (i : nat) :
  length D = length sp → (is_Some (sparse_row sp D i) ↔ i ∈ sp).
Proof.
  intros Hlen. split.
  - intros [d Hd]. destruct (decide (i ∈ sp)); [done|]. by rewrite sparse_row_None in Hd.
  - revert D Hlen. induction sp as [|s sp IH]; intros D Hlen Hi; [by apply elem_of_nil in Hi|].
    destruct D as [|d D]; [done|]. rewrite sparse_row_cons. case_decide; [eauto|].
    apply IH; [by simplify_eq/=|]. apply elem_of_cons in Hi as [?|?]; [congruence|done].
Qed.
(** *** Selecting the stored rows of the requested frames *)

Lemma select_rows_cons (s : nat) (sp : list nat) (d : frame) (D : list frame)
    (frames : list nat) :
  select_rows (s :: sp) (d :: D) frames =
    (if bool_decide (s ∈ frames) then [d] else []) ++ select_rows sp D frames.
Proof. unfold select_rows. simpl. by case_bool_decide. Qed.

Lemma take_argwhere_select (pre D : list frame) (sp frames : list nat) :
  length D = length sp →
  mapM_outcome (fun i => from_option IndexError ((pre ++ D) !! i))
               (np_argwhere_from (length pre) (np_isin sp frames))
  = Ok (select_rows sp D frames).
Proof.
  revert pre D. induction sp as [|s sp IH]; intros pre D Hlen.
  - by destruct D.
  - destruct D as [|d D]; [done|]. rewrite select_rows_cons.
    specialize (IH (pre ++ [d]) D). rewrite <-(assoc_L (++)), length_app in IH.
    simpl in IH. replace (length pre + 1) with (S (length pre)) in IH by lia.
    simpl. case_bool_decide; simpl.
    + rewrite list_lookup_middle by done. simpl. rewrite IH by (by simplify_eq/=). done.
    + apply IH. by simplify_eq/=.
Qed.

Lemma h5_take_select (D : list frame) (sp frames : list nat) :
  length D = length sp →
  h5_take D (np_argwhere (np_isin sp frames)) = Ok (select_rows sp D frames).
Proof.
  intros Hlen. unfold h5_take, np_argwhere. rewrite np_argwhere_from_increasing.
  by apply (take_argwhere_select []).
Qed.

Lemma omap_ext_fun {A B} (f g : A -> option B) (l : list A) :
  (∀ x, f x = g x) → omap f l = omap g l.
Proof.
  intros H. induction l as [|a l IH]; [done|]. csimpl. by rewrite H, IH.
Qed.

Lemma omap_sparse_row_skip (s : nat) (d : frame) (g : nat -> option frame)
    (frames : list nat) :
  s ∉ frames →
  omap (fun f => if decide (s = f) then Some d else g f) frames = omap g frames.
Proof.
  induction frames as [|f frames IH]; intros Hs; [done|].
  apply not_elem_of_cons in Hs as [? ?]. csimpl. case_decide; [done|]. by rewrite IH.
Qed.

Lemma omap_sparse_row_head (s : nat) (d : frame) (g : nat -> option frame)
    (frames : list nat) :
  strictly_increasing frames = true →
  (∀ f, is_Some (g f) → s < f) →
  omap (fun f => if decide (s = f) then Some d else g f) frames
  = (if bool_decide (s ∈ frames) then [d] else []) ++ omap g frames.
Proof.
  intros Hsorted Hg. induction frames as [|f frames IH]; [done|].
  apply strictly_increasing_cons in Hsorted as [Hf Hsorted].
  rewrite Forall_forall in Hf. csimpl.
  destruct (decide (s = f)) as [->|Hne].
  - assert (f ∉ frames) as Hnot by (intros Hin; specialize (Hf f Hin); lia).
    rewrite bool_decide_eq_true_2 by left. rewrite omap_sparse_row_skip by done.
    destruct (g f) eqn:E; [|done].
    assert (f < f) by (apply Hg; eauto). lia.
  - destruct (g f) as [x|] eqn:E.
    + assert (s < f) as Hsf by (apply Hg; eauto).
      assert (s ∉ frames) as Hnot by (intros Hin; specialize (Hf s Hin); lia).
      rewrite omap_sparse_row_skip by done.
      rewrite bool_decide_eq_false_2; [done|].
      intros [?|?]%elem_of_cons; [congruence|done].
    + rewrite IH by done. f_equal.
      rewrite (bool_decide_ext (s ∈ f :: frames) (s ∈ frames)); [done|].
      rewrite elem_of_cons. naive_solver.
Qed.

Lemma select_rows_sorted (sp : list nat) (D : list frame) (frames : list nat) :
  length D = length sp →
  strictly_increasing sp = true →
  strictly_increasing frames = true →
  select_rows sp D frames = omap (sparse_row sp D) frames.
Proof.
  intros Hlen Hsp Hfr. revert D Hlen. induction sp as [|s sp IH]; intros D Hlen.
  - destruct D; [|done]. unfold select_rows. simpl.
    clear. induction frames as [|f frames IH]; [done|]. by csimpl.
  - destruct D as [|d D]; [done|].
    apply strictly_increasing_cons in Hsp as [Hs Hsp]. rewrite Forall_forall in Hs.
    rewrite select_rows_cons, IH by (done || by simplify_eq/=).
    rewrite <-(omap_sparse_row_head s d (sparse_row sp D) frames); [|done|].
    + apply omap_ext_fun. intros f. symmetry. apply sparse_row_cons.
    + intros f Hf. apply Hs. apply (sparse_row_is_Some sp D f); [by simplify_eq/=|done].
Qed.
(** *** Filling the requested slots *)

Lemma sparse_row_present (sp : list nat) (D : list frame) (f : nat) :
  length D = length sp →
  match sparse_row sp D f with
  | Some _ => bool_decide (f ∈ sp) = true
  | None => bool_decide (f ∈ sp) = false
  end.
Proof.
  intros Hlen. pose proof (sparse_row_is_Some sp D f Hlen) as H.
  destruct (sparse_row sp D f) eqn:E.
  - apply bool_decide_eq_true. apply H. eauto.
  - apply bool_decide_eq_false. intros Hin. apply H in Hin as [? ?]. congruence.
Qed.

Lemma length_np_isin (xs ys : list nat) : length (np_isin xs ys) = length xs.
Proof. unfold np_isin. by rewrite length_fmap. Qed.

Lemma length_np_full {X} (n : nat) (v : X) : length (np_full n v) = n.
Proof. unfold np_full. by rewrite length_replicate. Qed.

Lemma mask_fill_sparse (sp : list nat) (D : list frame) (frames : list nat) :
  length D = length sp →
  np_mask_fill (np_full (length frames) None) (np_isin frames sp)
               (Some <$> omap (sparse_row sp D) frames)
  = sparse_row sp D <$> frames.
Proof.
  intros Hlen. unfold np_full, np_isin.
  induction frames as [|f frames IH]; [done|]. csimpl.
  pose proof (sparse_row_present sp D f Hlen) as Hf.
  destruct (sparse_row sp D f) eqn:E; rewrite Hf; csimpl; by rewrite IH.
Qed.

Lemma count_true_isin (sp : list nat) (D : list frame) (frames : list nat) :
  length D = length sp →
  count_true (np_isin frames sp) = length (omap (sparse_row sp D) frames).
Proof.
  intros Hlen. unfold count_true, np_isin.
  induction frames as [|f frames IH]; [done|]. csimpl.
  pose proof (sparse_row_present sp D f Hlen) as Hf.
  destruct (sparse_row sp D f) eqn:E; rewrite Hf.
  - rewrite filter_cons_True by done. simpl. by rewrite IH.
  - rewrite filter_cons_False by done. by rewrite IH.
Qed.

Lemma put_mask_scalar_isin (sp frames : list nat) :
  np_put_mask_scalar (np_full (length frames) true) (np_isin frames sp) false
  = Ok ((fun i => negb (bool_decide (i ∈ sp))) <$> frames).
Proof.
  unfold np_put_mask_scalar, np_full, np_isin.
  rewrite length_fmap, length_replicate. rewrite decide_True by done. f_equal.
  induction frames as [|f frames IH]; [done|]. csimpl. rewrite IH.
  by destruct (bool_decide (f ∈ sp)).
Qed.

Lemma in_range_check (n : nat) (sp : list nat) :
  Forall (fun s => s < n) sp → forallb (fun i => bool_decide (i < n)) sp = true.
Proof.
  induction 1 as [|s sp Hs _ IH]; [done|]. simpl. rewrite IH, andb_true_r.
  by apply bool_decide_eq_true.
Qed.

Lemma fold_put_lookup (sp : list nat) (D : list frame) (acc : list (option frame))
    (i : nat) :
  NoDup sp →
  Forall (fun s => s < length acc) sp →
  length D = length sp →
  foldl (fun acc iv => <[iv.1 := iv.2]> acc) acc (zip sp (Some <$> D)) !! i
  = match sparse_row sp D i with
    | Some d => Some (Some d)
    | None => acc !! i
    end.
Proof.
  revert D acc. induction sp as [|s sp IH]; intros D acc Hnd Hrange Hlen.
  - by destruct D.
  - destruct D as [|d D]; [done|]. apply NoDup_cons in Hnd as [Hs Hnd].
    apply Forall_cons in Hrange as [Hsr Hrange]. csimpl.
    rewrite IH; [|done|by rewrite length_insert|by simplify_eq/=].
    rewrite sparse_row_cons. destruct (decide (s = i)) as [->|Hne].
    + rewrite sparse_row_None by done. by rewrite list_lookup_insert_eq.
    + by rewrite list_lookup_insert_ne.
Qed.

Lemma fold_put_length {X} (ivs : list (nat * X)) (acc : list X) :
  length (foldl (fun acc iv => <[iv.1 := iv.2]> acc) acc ivs) = length acc.
Proof.
  revert acc. induction ivs as [|iv ivs IH]; intros acc; [done|]. simpl.
  by rewrite IH, length_insert.
Qed.

Lemma put_sparse_rows (n : nat) (sp : list nat) (D : list frame) :
  NoDup sp →
  Forall (fun s => s < n) sp →
  length D = length sp →
  np_put (np_full n None) sp (Some <$> D) = Ok (sparse_row sp D <$> seq 0 n).
Proof.
  intros Hnd Hrange Hlen. unfold np_put, np_full.
  rewrite length_replicate, in_range_check by done.
  unfold np_broadcast_rows. rewrite length_fmap, decide_True by done. csimpl. f_equal.
  apply list_eq. intros i.
  rewrite fold_put_lookup; [|done|by rewrite length_replicate|done].
  rewrite list_lookup_fmap. destruct (decide (i < n)) as [Hi|Hi].
  - rewrite lookup_seq_lt by done. rewrite lookup_replicate_2 by done. csimpl.
    by destruct (sparse_row sp D i).
  - rewrite lookup_seq_ge by lia.
    rewrite (proj1 (lookup_replicate_None n None i)) by lia.
    rewrite sparse_row_None; [done|].
    intros Hin. rewrite Forall_forall in Hrange. specialize (Hrange i Hin). lia.
Qed.

Lemma fold_put_scalar_lookup (sp : list nat) (acc : list bool) (i : nat) :
  foldl (fun acc i => <[i := false]> acc) acc sp !! i
  = if bool_decide (i ∈ sp) then (fun _ => false) <$> acc !! i else acc !! i.
Proof.
  revert acc. induction sp as [|s sp IH]; intros acc; [done|]. simpl. rewrite IH.
  destruct (decide (s = i)) as [->|Hne].
  - rewrite (bool_decide_eq_true_2 (i ∈ i :: sp)) by left.
    destruct (decide (i < length acc)).
    + rewrite list_lookup_insert_eq by done.
      destruct (lookup_lt_is_Some_2 acc i) as [b ->]; [done|]. by case_bool_decide.
    + rewrite list_insert_ge by lia. rewrite lookup_ge_None_2 by lia. by case_bool_decide.
  - rewrite list_lookup_insert_ne by done.
    rewrite (bool_decide_ext (i ∈ s :: sp) (i ∈ sp)); [done|].
    rewrite elem_of_cons. naive_solver.
Qed.

Lemma put_sparse_mask (n : nat) (sp : list nat) :
  Forall (fun s => s < n) sp →
  np_put_scalar (np_full n true) sp false
  = Ok ((fun i => negb (bool_decide (i ∈ sp))) <$> seq 0 n).
Proof.
  intros Hrange. unfold np_put_scalar, np_full.
  rewrite length_replicate, in_range_check by done. f_equal.
  apply list_eq. intros i. rewrite fold_put_scalar_lookup, list_lookup_fmap.
  destruct (decide (i < n)) as [Hi|Hi].
  - rewrite lookup_seq_lt by done. rewrite lookup_replicate_2 by done. csimpl.
    by case_bool_decide.
  - rewrite lookup_seq_ge by lia.
    rewrite (proj1 (lookup_replicate_None n true i)) by lia.
    by case_bool_decide.
Qed.

(** For frames listed in increasing order, and for the full frame range,
    the masked read of a sparse field is the read the specification
    describes: slot by slot, the mask tells whether the frame is a stored
    index, and a present slot holds the row stored for that frame. *)
Theorem sparse_masked_read_increasing_frames w (run_idx traj_idx : nat)
    (field_path : string) (traj_grp : gmap string traj_field)
    (positions D : list frame) (sp : list nat) (frames : option (list nat)) :
  traj w run_idx traj_idx = Ok traj_grp →
  traj_grp !! POSITIONS = Some (Dataset positions) →
  traj_grp !! field_path = Some (SparseGrp D sp) →
  field_path ∈ sparse_fields w →
  length D = length sp →
  strictly_increasing sp = true →
  Forall (fun s => s < length positions) sp →
  strictly_increasing (default [] frames) = true →
  get_traj_field w run_idx traj_idx field_path frames true =
    Ok (masked_read_spec sp D (default (seq 0 (length positions)) frames)).
Proof.
  intros Ht Hpos Hf Hs Hlen Hsp Hrange Hfr. erewrite get_traj_field_sparse by done.
  unfold _get_sparse_traj_field. rewrite Ht. csimpl. rewrite Hf, Hpos. csimpl.
  destruct frames as [frames|]; csimpl.
  - rewrite h5_take_select by done. csimpl.
    rewrite select_rows_sorted by done.
    unfold np_put_mask. rewrite length_np_isin, length_np_full, decide_True by done.
    unfold np_broadcast_rows.
    rewrite (count_true_isin sp D), length_fmap, decide_True by done. csimpl.
    rewrite mask_fill_sparse by done. by rewrite put_mask_scalar_isin.
  - rewrite put_sparse_rows; [|by apply strictly_increasing_NoDup|done|done]. csimpl.
    by rewrite put_sparse_mask.
Qed.

(** The masked read of frames of a sparse field listed in increasing
    order. *)
Lemma sparse_read_frames w (r t : nat) (frames : list nat) (field : string)
    (traj_grp : gmap string traj_field) (positions D : list frame) (sp : list nat) :
  traj w r t = Ok traj_grp →
  traj_grp !! POSITIONS = Some (Dataset positions) →
  traj_grp !! field = Some (SparseGrp D sp) →
  field ∈ sparse_fields w →
  length D = length sp →
  strictly_increasing sp = true →
  strictly_increasing frames = true →
  get_traj_field w r t field (Some frames) true = Ok (masked_read_spec sp D frames).
Proof.
  intros Ht Hpos Hf Hs Hlen Hsp Hfr. erewrite get_traj_field_sparse by done.
  unfold _get_sparse_traj_field. rewrite Ht. csimpl. rewrite Hf, Hpos. csimpl.
  rewrite h5_take_select by done. csimpl.
  rewrite select_rows_sorted by done.
  unfold np_put_mask. rewrite length_np_isin, length_np_full, decide_True by done.
  unfold np_broadcast_rows.
  rewrite (count_true_isin sp D), length_fmap, decide_True by done. csimpl.
  rewrite mask_fill_sparse by done. by rewrite put_mask_scalar_isin.
Qed.

(** C1 (the code departs from the claim).  With rows [a], [b], [c] stored
    at the sparse indices 2, 5 and 9, a masked read of the frames 5, 2
    marks both slots present, but fills them in the order of the stored
    indices: the slot of frame 5 holds [a], the row stored for frame 2,
    and the slot of frame 2 holds [b], the row stored for frame 5.  The
    read the specification describes holds [b] and [a] there. *)
Theorem sparse_masked_read_follows_stored_order w (run_idx traj_idx : nat)
    (field_path : string) (traj_grp : gmap string traj_field)
    (positions : list frame) (a b c : frame) :
  traj w run_idx traj_idx = Ok traj_grp →
  traj_grp !! POSITIONS = Some (Dataset positions) →
  traj_grp !! field_path = Some (SparseGrp [a; b; c] [2; 5; 9]) →
  field_path ∈ sparse_fields w →
  get_traj_field w run_idx traj_idx field_path (Some [5; 2]) true =
    Ok (Masked [Some a; Some b] [false; false]) ∧
  masked_read_spec [2; 5; 9] [a; b; c] [5; 2] = Masked [Some b; Some a] [false; false].
Proof.
  intros Ht Hpos Hf Hs. split; [|done]. erewrite get_traj_field_sparse by done.
  unfold _get_sparse_traj_field. rewrite Ht. simpl. rewrite Hf, Hpos. done.
Qed.
End FieldReads.

(** ** Records over a contig *)

Section ContigRecords.
Context {frame scalar : Type}.
Implicit Types w : @WepyHDF5 frame scalar.

Lemma foldl_outcome_raise {A B} (step : outcome A -> B -> outcome A) (e : pyerr)
    (l : list B) :
  (∀ b, step (Raise e) b = Raise e) → foldl step (Raise e) l = Raise e.
Proof. intros H. induction l as [|b l IH]; [done|]. simpl. by rewrite H. Qed.

(** A pass of the loop of [_run_records_continual] always ends in an
    exception: whatever was read, the sum of a list and an integer raises
    [TypeError]. *)
Lemma continual_pass_raises w (run_record_key : string)
    (acc : outcome (option (list (string * list datum)) * pyseq * nat)) (run_idx : nat) :
  ∃ e, continual_pass w run_record_key acc run_idx = Raise e.
Proof.
  unfold continual_pass. destruct acc as [[[fields cyc] prev]|e]; csimpl; [|eauto].
  destruct (_convert_record_fields_to_table_columns w run_idx run_record_key); csimpl;
    [|eauto].
  destruct (match fields with
            | Some fields0 => extend_fields fields0 a
            | None => Ok a
            end); csimpl; [|eauto].
  destruct (record_fields w !! run_record_key) as [mf|]; csimpl; [|eauto].
  destruct (mf !! 0); csimpl; [|eauto].
  destruct (records_grp w run_idx run_record_key) as [g|]; csimpl; [|eauto].
  destruct (g_dsets g !! _); csimpl; eauto.
Qed.

Lemma continual_pass_Raise w (run_record_key : string) (e : pyerr) (run_idx : nat) :
  continual_pass w run_record_key (Raise e) run_idx = Raise e.
Proof. done. Qed.

Lemma _run_records_continual_raises w (run_idx : nat) (run_idxs : list nat)
    (run_record_key : string) :
  ∃ e, _run_records_continual w (run_idx :: run_idxs) run_record_key = Raise e.
Proof.
  unfold _run_records_continual. cbn [foldl].
  destruct (continual_pass_raises w run_record_key (Ok (None, NdArr [], 0)) run_idx)
    as [e He].
  exists e. rewrite He. by rewrite foldl_outcome_raise.
Qed.

Lemma _run_records_continual_type_error w (run_idx : nat) (run_idxs : list nat)
    (run_record_key : string) (manifest : list string) (main_record_field : string)
    (fields : list (string * list datum)) (g : rec_grp) (d : rec_dset) :
  _convert_record_fields_to_table_columns w run_idx run_record_key = Ok fields →
  record_fields w !! run_record_key = Some manifest →
  manifest !! 0 = Some main_record_field →
  records_grp w run_idx run_record_key = Ok g →
  g_dsets g !! main_record_field = Some d →
  _run_records_continual w (run_idx :: run_idxs) run_record_key = Raise TypeError.
Proof.
  intros Hc Hm H0 Hg Hd. unfold _run_records_continual. cbn [foldl].
  unfold continual_pass at 2. csimpl.
  rewrite Hc. csimpl. rewrite Hm. csimpl. rewrite H0. csimpl. rewrite Hg. csimpl.
  rewrite Hd. csimpl. by rewrite foldl_outcome_raise.
Qed.

(** C3 (the code departs from the claim).  For a continual record group
    with a manifest that is not empty, reading the records of a contig
    never returns a sequence of records: it raises; and when the columns of
    the first run can be read, the exception is the [TypeError] of adding
    the running cycle total to a Python list. *)
Theorem continual_contig_records_raise w (run_idx : nat) (run_idxs : list nat)
    (run_record_key : string) (manifest : list string) :
  _is_sporadic_records run_record_key = false →
  record_fields w !! run_record_key = Some manifest →
  manifest ≠ [] →
  (∃ e, run_contig_records w (run_idx :: run_idxs) run_record_key = Raise e) ∧
  (∀ (fields : list (string * list datum)) (g : rec_grp),
      _convert_record_fields_to_table_columns w run_idx run_record_key = Ok fields →
      records_grp w run_idx run_record_key = Ok g →
      run_contig_records w (run_idx :: run_idxs) run_record_key = Raise TypeError).
Proof.
  intros Hsp Hm Hne.
  assert (run_contig_records w (run_idx :: run_idxs) run_record_key
          = _run_records_continual w (run_idx :: run_idxs) run_record_key) as ->.
  { unfold run_contig_records. rewrite Hm. csimpl. rewrite Hsp.
    rewrite bool_decide_eq_false_2; [done|]. by destruct manifest. }
  split; [apply _run_records_continual_raises|].
  intros fields g Hc Hg.
  destruct manifest as [|main manifest]; [done|].
  (* the conversion already read the dataset of the first manifest field *)
  assert (is_Some (g_dsets g !! main)) as [d Hd].
  { unfold _convert_record_fields_to_table_columns in Hc. rewrite Hm in Hc.
    csimpl in Hc. unfold _convert_record_field_to_table_column at 2 in Hc.
    rewrite Hg in Hc. csimpl in Hc.
    destruct (g_dsets g !! main); [eauto|]. csimpl in Hc.
    rewrite foldl_outcome_raise in Hc; done. }
  by eapply _run_records_continual_type_error.
Qed.
End ContigRecords.

(** ** Traces over a contig *)

Section ListFacts.
Context {X : Type}.

Lemma swapaxes01_cons (r r' : list X) (m : list (list X)) :
  swapaxes01 (r :: r' :: m) = zip_with cons r (swapaxes01 (r' :: m)).
Proof. done. Qed.

Lemma swapaxes01_length (m : list (list X)) (n : nat) :
  m ≠ [] → Forall (fun row => length row = n) m → length (swapaxes01 m) = n.
Proof.
  induction m as [|r m IH]; intros Hne Hrect; [done|].
  apply Forall_cons in Hrect as [Hr Hrect].
  destruct m as [|r' m].
  - simpl. by rewrite length_fmap.
  - rewrite swapaxes01_cons, length_zip_with, IH by done. lia.
Qed.

Lemma swapaxes01_lookup (m : list (list X)) (n k : nat) :
  m ≠ [] → Forall (fun row => length row = n) m → k < n →
  ∃ col, swapaxes01 m !! k = Some col ∧ length col = length m ∧
         ∀ t, col !! t = m !! t ≫= (.!! k).
Proof.
  induction m as [|r m IH]; intros Hne Hrect Hk; [done|].
  apply Forall_cons in Hrect as [Hr Hrect].
  destruct (lookup_lt_is_Some_2 r k) as [x Hx]; [lia|].
  destruct m as [|r' m].
  - exists [x]. simpl. rewrite list_lookup_fmap, Hx. split; [done|]. split; [done|].
    intros [|t]; simpl; [done|]. by rewrite lookup_nil.
  - destruct IH as (col & Hcol & Hlen & Hcell); [done..|].
    exists (x :: col). rewrite swapaxes01_cons, lookup_zip_with, Hx, Hcol. simpl.
    split; [done|]. split; [by rewrite Hlen|].
    intros [|t]; simpl; [done|]. apply Hcell.
Qed.

Lemma swapaxes01_rows (m : list (list X)) (n : nat) :
  m ≠ [] → Forall (fun row => length row = n) m →
  Forall (fun row => length row = length m) (swapaxes01 m).
Proof.
  intros Hne Hrect. apply Forall_lookup. intros k col Hk.
  assert (k < n) as Hkn.
  { rewrite <-(swapaxes01_length m n) by done. by eapply lookup_lt_Some. }
  destruct (swapaxes01_lookup m n k Hne Hrect Hkn) as (col' & Hcol' & Hlen & _).
  congruence.
Qed.

Lemma swapaxes01_cell (m : list (list X)) (n k t : nat) :
  m ≠ [] → Forall (fun row => length row = n) m →
  swapaxes01 m !! k ≫= (.!! t) = m !! t ≫= (.!! k).
Proof.
  intros Hne Hrect. destruct (decide (k < n)) as [Hk|Hk].
  - destruct (swapaxes01_lookup m n k Hne Hrect Hk) as (col & -> & _ & Hcell).
    simpl. apply Hcell.
  - rewrite (lookup_ge_None_2 (swapaxes01 m) k) by (rewrite (swapaxes01_length m n); [lia|done..]).
    simpl. destruct (m !! t) as [row|] eqn:E; [|done]. simpl.
    rewrite Forall_lookup in Hrect. specialize (Hrect t row E).
    rewrite lookup_ge_None_2; [done|lia].
Qed.

(** Bundles joined along axis 1. *)
Lemma hstack_fold_lookup (bs : list (list (list X))) (b : list (list X)) (n t : nat) :
  length b = n → Forall (fun b' => length b' = n) bs → t < n →
  foldl (zip_with app) b bs !! t
  = Some (concat ((fun bu => default [] (bu !! t)) <$> (b :: bs))).
Proof.
  revert b. induction bs as [|b1 bs IH]; intros b Hb Hbs Ht.
  - simpl. destruct (lookup_lt_is_Some_2 b t) as [row ->]; [lia|]. simpl.
    by rewrite app_nil_r.
  - apply Forall_cons in Hbs as [Hb1 Hbs]. simpl.
    rewrite IH; [|rewrite length_zip_with; lia|done|done].
    f_equal. csimpl. rewrite lookup_zip_with.
    destruct (lookup_lt_is_Some_2 b t) as [row ->]; [lia|].
    destruct (lookup_lt_is_Some_2 b1 t) as [row1 ->]; [lia|]. simpl.
    by rewrite (assoc_L (++)).
Qed.

Lemma hstack_fold_length (bs : list (list (list X))) (b : list (list X)) (n : nat) :
  length b = n → Forall (fun b' => length b' = n) bs →
  length (foldl (zip_with app) b bs) = n.
Proof.
  revert b. induction bs as [|b1 bs IH]; intros b Hb Hbs; [done|].
  apply Forall_cons in Hbs as [Hb1 Hbs]. simpl. apply IH; [|done].
  rewrite length_zip_with. lia.
Qed.

End ListFacts.

Section ContigTraces.
Context {frame scalar : Type}.
Implicit Types w : @WepyHDF5 frame scalar.

(** *** Grouping the trace by run *)

Lemma group_same_run (cs l : list nat) (m : gmap nat (list nat))
    (acc : list nat) (r : nat) :
  r ∈ acc → m !! r = Some l →
  foldl group_step (m, acc) ((fun c => (r, c)) <$> cs)
  = (<[r := l ++ cs]> m, acc).
Proof.
  revert l m. induction cs as [|c cs IH]; intros l m Hr Hm.
  - simpl. rewrite app_nil_r. by rewrite insert_id.
  - csimpl. unfold group_step at 2. simpl. rewrite Hm. simpl.
    rewrite bool_decide_eq_true_2 by done.
    rewrite (IH (l ++ [c])); [|done|by rewrite lookup_insert_eq].
    by rewrite insert_insert_eq, <-(assoc_L (++)).
Qed.

Lemma group_new_run (cs : list nat) (m : gmap nat (list nat)) (acc : list nat) (r : nat) :
  r ∉ acc → m !! r = None → cs ≠ [] →
  foldl group_step (m, acc) ((fun c => (r, c)) <$> cs)
  = (<[r := cs]> m, acc ++ [r]).
Proof.
  intros Hr Hm Hn. destruct cs as [|c cs]; [done|]. csimpl.
  unfold group_step at 2. simpl. rewrite Hm. simpl.
  rewrite bool_decide_eq_false_2 by done.
  rewrite (group_same_run cs [c]).
  - by rewrite insert_insert_eq.
  - apply elem_of_app. right. left.
  - by rewrite lookup_insert_eq.
Qed.

Lemma group_sel_trace (sel : nat -> list nat) (rs : list nat) (m : gmap nat (list nat))
    (acc : list nat) :
  NoDup rs →
  (∀ r, r ∈ rs → (r ∉ acc) ∧ (m !! r = None) ∧ sel r ≠ []) →
  ∃ m', foldl group_step (m, acc) (contig_sel_trace sel rs) = (m', acc ++ rs) ∧
        (∀ r, r ∈ rs → m' !! r = Some (sel r)) ∧
        (∀ x, x ∉ rs → m' !! x = m !! x).
Proof.
  revert m acc. induction rs as [|r rs IH]; intros m acc Hnd Hrs.
  - exists m. simpl. rewrite app_nil_r. split; [done|]. split; [|done].
    intros r Hr. by apply elem_of_nil in Hr.
  - apply NoDup_cons in Hnd as [Hr Hnd].
    destruct (Hrs r) as (Hacc & Hm & Hc); [left|].
    unfold contig_sel_trace. csimpl. rewrite foldl_app.
    rewrite group_new_run by done.
    destruct (IH (<[r := sel r]> m) (acc ++ [r]) Hnd) as (m' & Hm' & Hin & Hout).
    { intros r' Hr'. destruct (Hrs r') as (? & ? & ?); [by right|].
      assert (r ≠ r') by (intros ->; done).
      split; [|split; [|done]].
      - intros Hin'. apply elem_of_app in Hin' as [?|Hin']; [done|].
        apply list_elem_of_singleton in Hin'. congruence.
      - by rewrite lookup_insert_ne. }
    exists m'. split; [|split].
    + unfold contig_sel_trace in Hm'. rewrite Hm'. by rewrite <-(assoc_L (++)).
    + intros r' [->|Hr']%elem_of_cons; [|by apply Hin].
      rewrite Hout by done. by rewrite lookup_insert_eq.
    + intros x [? ?]%not_elem_of_cons. rewrite Hout by done.
      by rewrite lookup_insert_ne.
Qed.

Lemma group_trace_sel (sel : nat -> list nat) (rs : list nat) :
  NoDup rs → (∀ r, r ∈ rs → sel r ≠ []) →
  ∃ m', group_trace (contig_sel_trace sel rs) = (m', rs) ∧
        ∀ r, r ∈ rs → m' !! r = Some (sel r).
Proof.
  intros Hnd Hc. destruct (group_sel_trace sel rs ∅ [] Hnd) as (m' & Hm' & Hin & _).
  - intros r Hr. split; [by intros ?%elem_of_nil|]. split; [done|by apply Hc].
  - exists m'. by split.
Qed.

(** *** Reading the requested cycles of one trajectory *)

Lemma h5_take_cells {X} (rows : list X) (frames : list nat) :
  strictly_increasing frames = true →
  Forall (fun c => c < length rows) frames →
  ∃ cells, h5_take rows frames = Ok cells ∧ Some <$> cells = (rows !!.) <$> frames.
Proof.
  intros Hinc Hrange. unfold h5_take. rewrite Hinc. clear Hinc.
  induction Hrange as [|c frames Hc _ (cells & Hcells & Heq)].
  - by exists [].
  - destruct (lookup_lt_is_Some_2 rows c Hc) as [x Hx].
    exists (x :: cells). csimpl. rewrite Hx. csimpl. rewrite Hcells. csimpl.
    split; [done|]. by rewrite Heq.
Qed.

Lemma dense_rows_traj w (r t : nat) (field : string) (rows : list frame) :
  dense_rows w r t field = Some rows →
  ∃ traj_grp, traj w r t = Ok traj_grp ∧ traj_grp !! field = Some (Dataset rows).
Proof.
  unfold dense_rows, traj, run. intros H.
  destruct (f_runs (h5 w) !! r) as [rn|]; [|done]. csimpl in *.
  destruct (r_trajectories rn !! t) as [tg|]; [|done]. csimpl in *.
  exists tg. split; [done|].
  destruct (tg !! field) as [[rows'|]|]; by simplify_eq.
Qed.

Lemma trace_read_cells w (r t : nat) (field : string) (frames : list nat) :
  strictly_increasing frames = true →
  readable_field w r t field frames →
  ∃ v, get_traj_field w r t field (Some frames) true = Ok v ∧
       value_rows v = stored_cell w r t field <$> frames.
Proof.
  intros Hinc (tg & Ht & Hstored).
  destruct (tg !! field) as [[rows|D sp]|] eqn:Hf; [| |done].
  - destruct Hstored as [Hs Hrange].
    destruct (h5_take_cells rows frames Hinc Hrange) as (cells & Hcells & Heq).
    exists (Plain cells). split.
    + erewrite get_traj_field_dense by done. by rewrite Hcells.
    + simpl. rewrite Heq. apply list_fmap_ext. intros _ c _.
      unfold stored_cell. by rewrite Ht, Hf.
  - destruct Hstored as (Hs & [positions Hpos] & Hlen & Hsp).
    exists (masked_read_spec sp D frames). split.
    + by eapply sparse_read_frames.
    + simpl. apply list_fmap_ext. intros _ c _.
      unfold stored_cell. by rewrite Ht, Hf.
Qed.

Lemma num_run_trajs_idxs w (r n : nat) :
  num_run_trajs w r = Ok n → run_traj_idxs w r = Ok (seq 0 n).
Proof.
  unfold num_run_trajs, run_traj_idxs. destruct (run w r); csimpl; [|done].
  by intros [= <-].
Qed.

(** *** The log of one field *)

Lemma concat_fmap_bind {A B} (f : nat -> list A) (h : nat -> A -> B) (rs : list nat) :
  concat ((fun r => h r <$> f r) <$> rs)
  = (fun ra => h ra.1 ra.2) <$> (rs ≫= (fun r => (fun a => (r, a)) <$> f r)).
Proof.
  induction rs as [|r rs IH]; [done|]. csimpl. rewrite fmap_app, IH. f_equal.
  rewrite <-list_fmap_compose. by apply list_fmap_ext.
Qed.

Lemma contig_field_log_cells w (sel : nat -> list nat) (rs : list nat) (n_trajs : nat)
    (runs_frames : gmap nat (list nat)) (field : string) :
  rs ≠ [] → 0 < n_trajs →
  (∀ r, r ∈ rs → runs_frames !! r = Some (sel r)) →
  (∀ r, r ∈ rs → strictly_increasing (sel r) = true ∧ num_run_trajs w r = Ok n_trajs) →
  (∀ r t, r ∈ rs → t < n_trajs → readable_field w r t field (sel r)) →
  ∃ field_log,
    contig_field_log w runs_frames rs field = Ok field_log ∧
    length field_log = length (contig_sel_trace sel rs) ∧
    Forall (fun row => length row = n_trajs) field_log ∧
    ∀ k r c t,
      contig_sel_trace sel rs !! k = Some (r, c) → t < n_trajs →
      field_log !! k ≫= (.!! t) = Some (stored_cell w r t field c).
Proof.
  intros Hne Hn Hfr Hruns Hread.
  set (bundle := fun r => (fun t => stored_cell w r t field <$> sel r) <$> seq 0 n_trajs).
  assert (∀ r, length (bundle r) = n_trajs) as Hblen.
  { intros r. unfold bundle. by rewrite length_fmap, length_seq. }
  destruct rs as [|r0 rs0] eqn:Hrs; [done|]. rewrite <-Hrs in *.
  set (H := foldl (zip_with app) (bundle r0) (bundle <$> rs0)).
  assert (Forall (fun b' => length b' = n_trajs) (bundle <$> rs0)) as Hall.
  { apply Forall_fmap, Forall_true. intros r. apply Hblen. }
  assert (length H = n_trajs) as HH by (by apply hstack_fold_length).
  assert (H ≠ []) as HHne by (intros E; rewrite E in HH; simpl in HH; lia).
  assert (∀ t, t < n_trajs →
            H !! t = Some ((fun rc => stored_cell w rc.1 t field rc.2)
                             <$> contig_sel_trace sel rs)) as Hrow.
  { intros t Ht. unfold H. rewrite (hstack_fold_lookup _ _ n_trajs t) by done.
    f_equal. change (bundle r0 :: (bundle <$> rs0)) with (bundle <$> (r0 :: rs0)).
    rewrite <-Hrs, <-list_fmap_compose.
    unfold contig_sel_trace.
    rewrite <-(concat_fmap_bind sel (fun r c => stored_cell w r t field c) rs).
    f_equal. apply list_fmap_ext. intros _ r _. simpl. unfold bundle.
    by rewrite list_lookup_fmap, lookup_seq_lt. }
  assert (Forall (fun row => length row = length (contig_sel_trace sel rs)) H) as Hrect.
  { apply Forall_lookup. intros t row Ht.
    assert (t < n_trajs) as Htn by (rewrite <-HH; by eapply lookup_lt_Some).
    rewrite Hrow in Ht by done. simplify_eq. by rewrite length_fmap. }
  exists (swapaxes01 H). split; [|split; [|split]].
  - unfold contig_field_log.
    rewrite (mapM_outcome_ok _ bundle).
    + rewrite Hrs. csimpl. rewrite (proj2 (forallb_forall _ _)).
      * fold H. by destruct H.
      * intros b' Hb'. apply bool_decide_eq_true. rewrite Hblen.
        rewrite Forall_forall in Hall. apply Hall. by apply list_elem_of_In.
    + intros r Hr. destruct (Hruns r Hr) as [Hinc Hnt].
      rewrite (num_run_trajs_idxs _ _ _ Hnt). csimpl.
      rewrite (mapM_outcome_ok _ (fun t => stored_cell w r t field <$> sel r)); [done|].
      intros t [_ Ht]%elem_of_seq. simpl in Ht. rewrite (Hfr r Hr). simpl.
      destruct (trace_read_cells w r t field (sel r) Hinc (Hread r t Hr Ht))
        as (v & -> & Hv).
      simpl. by rewrite Hv.
  - by apply swapaxes01_length.
  - rewrite <-HH. by eapply swapaxes01_rows.
  - intros k r c t Hk Ht.
    rewrite (swapaxes01_cell H (length (contig_sel_trace sel rs))) by done.
    rewrite Hrow by done. simpl. rewrite list_lookup_fmap, Hk. done.
Qed.

(** *** The dictionary of all requested fields *)

Lemma field_values_fold w (runs_frames : gmap nat (list nat)) (rs : list nat)
    (log : string -> list (list (option frame))) (fields : list string)
    (m0 : gmap string (list (list (option frame)))) :
  (∀ field, field ∈ fields → contig_field_log w runs_frames rs field = Ok (log field)) →
  ∃ field_values,
    foldl (fun acc field =>
             field_values ← acc;
             field_log ← contig_field_log w runs_frames rs field;
             Ok (<[field := field_log]> field_values))
          (Ok m0) fields = Ok field_values ∧
    ∀ field, field_values !! field =
             if decide (field ∈ fields) then Some (log field) else m0 !! field.
Proof.
  revert m0. induction fields as [|f fields IH]; intros m0 Hlog.
  - exists m0. split; [done|]. intros field. rewrite decide_False; [done|].
    by intros ?%elem_of_nil.
  - csimpl. rewrite (Hlog f) by left. csimpl.
    destruct (IH (<[f := log f]> m0)) as (fv & Hfv & Hlook).
    { intros field Hin. apply Hlog. by right. }
    exists fv. split; [done|]. intros field. rewrite Hlook.
    destruct (decide (field ∈ fields)) as [Hin|Hnin].
    + rewrite decide_True; [done|by right].
    + destruct (decide (field = f)) as [->|Hne].
      * rewrite decide_True by left. by rewrite lookup_insert_eq.
      * rewrite decide_False.
        -- by rewrite lookup_insert_ne.
        -- intros Hin. apply elem_of_cons in Hin as [?|?]; done.
Qed.

(** C4.  For a contig of distinct runs that all have [n_trajs] >= 1
    trajectory slots, traced run after run through cycles chosen in
    increasing order within each run, and for every requested field,
    stored dense or sparse, [get_contig_trace_fields] returns an array of
    shape (n_cycles, n_trajs, ...): it has one row for each entry of the
    trace, every row has [n_trajs] cells, and the cell of row [k] and
    trajectory [t] is what trajectory [t] of the run named at position
    [k] of the trace holds for the field at the cycle named there; so the
    blocks of the runs follow one another along the cycle axis in contig
    order.  For the trace of all cycles the number of rows is the sum of
    the cycles of the runs. *)
Theorem contig_trace_concatenates_runs w (sel : nat -> list nat) (rs : list nat)
    (n_trajs : nat) (fields : list string) :
  NoDup rs → rs ≠ [] → 0 < n_trajs →
  (∀ r, r ∈ rs →
        sel r ≠ [] ∧ strictly_increasing (sel r) = true ∧
        num_run_trajs w r = Ok n_trajs) →
  (∀ r t field, r ∈ rs → t < n_trajs → field ∈ fields →
                readable_field w r t field (sel r)) →
  ∃ field_values,
    get_contig_trace_fields w (contig_sel_trace sel rs) fields = Ok field_values ∧
    (∀ field, field ∈ fields →
      ∃ field_log,
        field_values !! field = Some field_log ∧
        length field_log = length (contig_sel_trace sel rs) ∧
        Forall (fun row => length row = n_trajs) field_log ∧
        ∀ k r c t,
          contig_sel_trace sel rs !! k = Some (r, c) → t < n_trajs →
          field_log !! k ≫= (.!! t) = Some (stored_cell w r t field c)) ∧
    (∀ cyc, (∀ r, r ∈ rs → sel r = seq 0 (cyc r)) →
            contig_sel_trace sel rs = contig_full_trace cyc rs ∧
            length (contig_sel_trace sel rs) = sum_list (cyc <$> rs)).
Proof.
  intros Hnd Hne Hn Hruns Hread.
  destruct (group_trace_sel sel rs Hnd) as (runs_frames & Hgroup & Hframes).
  { intros r Hr. by destruct (Hruns r Hr). }
  unfold get_contig_trace_fields. rewrite Hgroup.
  destruct rs as [|r0 rs0] eqn:Hrs; [done|]. rewrite <-Hrs in *.
  assert (rs !! 0 = Some r0) as -> by (by rewrite Hrs). csimpl.
  assert (r0 ∈ rs) as Hr0 by (rewrite Hrs; left).
  destruct (Hruns r0 Hr0) as (_ & _ & ->). csimpl.
  rewrite (mapM_outcome_ok _ (fun _ => n_trajs)).
  2:{ intros r Hr. by destruct (Hruns r Hr) as (_ & _ & ?). }
  csimpl. rewrite (proj2 (forallb_forall _ _)).
  2:{ intros n Hin. apply list_elem_of_In in Hin.
      apply list_elem_of_fmap in Hin as (? & -> & _). by apply bool_decide_eq_true. }
  csimpl.
  assert (∀ field, field ∈ fields →
            ∃ field_log,
              contig_field_log w runs_frames rs field = Ok field_log ∧
              length field_log = length (contig_sel_trace sel rs) ∧
              Forall (fun row => length row = n_trajs) field_log ∧
              ∀ k r c t,
                contig_sel_trace sel rs !! k = Some (r, c) → t < n_trajs →
                field_log !! k ≫= (.!! t) = Some (stored_cell w r t field c)) as Hlogs.
  { intros field Hin. apply (contig_field_log_cells w sel); try done.
    - intros r Hr. by destruct (Hruns r Hr) as (_ & ? & ?).
    - intros r t Hr Ht. by apply Hread. }
  set (log := fun field => match contig_field_log w runs_frames rs field with
                           | Ok field_log => field_log
                           | Raise _ => []
                           end).
  destruct (field_values_fold w runs_frames rs log fields ∅) as (fv & Hfv & Hlook).
  { intros field Hin. destruct (Hlogs field Hin) as (field_log & Hlog & _).
    unfold log. by rewrite Hlog. }
  exists fv. split; [exact Hfv|]. split.
  - intros field Hin. destruct (Hlogs field Hin) as (field_log & Hlog & Hshape).
    exists field_log. split; [|exact Hshape].
    rewrite Hlook, decide_True by done. unfold log. by rewrite Hlog.
  - intros cyc Hsel.
    assert (contig_sel_trace sel rs = contig_full_trace cyc rs) as Heq.
    { unfold contig_sel_trace, contig_full_trace. clear -Hsel.
      induction rs as [|r rs IH]; [done|]. csimpl.
      rewrite (Hsel r) by left. f_equal. apply IH. intros r' Hr'. apply Hsel. by right. }
    split; [exact Heq|]. rewrite Heq. unfold contig_full_trace. clear.
    induction rs as [|r rs IH]; [done|]. csimpl.
    by rewrite length_app, length_fmap, length_seq, IH.
Qed.
End ContigTraces.

(** ** Sporadic record groups *)

Section SporadicRecords.
Context {frame scalar : Type}.
Implicit Types w : @WepyHDF5 frame scalar.
Implicit Types g : @rec_grp scalar.

(** *** The state after a write to a record group *)

Lemma has_grp_records_grp w (r : nat) (key : string) g :
  has_grp w r key g → records_grp w r key = Ok g.
Proof. intros (rn & Hr & Hg). unfold records_grp, run. rewrite Hr. csimpl. by rewrite Hg. Qed.













(** *** The loops of [extend_cycle_run_group_records] *)




(** *** Dictionaries in insertion order *)

Lemma dict_set_fresh {V} (d : list (string * V)) (k : string) (v : V) :
  k ∉ d.*1 → dict_set d k v = d ++ [(k, v)].
Proof.
  induction d as [|[k' v'] d IH]; intros Hk; [done|]. csimpl in *.
  apply not_elem_of_cons in Hk as [Hne Hk]. rewrite decide_False by done.
  by rewrite IH.
Qed.

Lemma dict_get_skip {V} (d d' : list (string * V)) (k : string) :
  k ∉ d.*1 → dict_get (d ++ d') k = dict_get d' k.
Proof.
  induction d as [|[k' v'] d IH]; intros Hk; [done|]. csimpl in *.
  apply not_elem_of_cons in Hk as [Hne Hk]. rewrite decide_False by done.
  by apply IH.
Qed.



Lemma fmap_pair_fst {V} (x : string -> V) (l : list string) :
  ((fun f => (f, x f)) <$> l).*1 = l.
Proof. rewrite <-list_fmap_compose. induction l; csimpl; by f_equal. Qed.

(** Filling a dictionary with one entry per key of a list of distinct
    keys. *)
Lemma dict_fill_fold {V} (conv : string -> outcome V) (x : string -> V)
    (pre : list (string * V)) (l : list string) :
  NoDup (pre.*1 ++ l) →
  (∀ f, f ∈ l → conv f = Ok (x f)) →
  foldl (fun acc f => d ← acc; c ← conv f; Ok (dict_set d f c)) (Ok pre) l
  = Ok (pre ++ ((fun f => (f, x f)) <$> l)).
Proof.
  revert pre. induction l as [|f l IH]; intros pre Hnd Hconv.
  - simpl. by rewrite app_nil_r.
  - csimpl. rewrite (Hconv f) by left. csimpl.
    apply NoDup_app in Hnd as (Hpre & Hdisj & [Hf Hl]%NoDup_cons).
    rewrite dict_set_fresh.
    2:{ intros Hin. apply (Hdisj f Hin). left. }
    rewrite IH.
    + by rewrite <-(assoc_L (++)).
    + rewrite fmap_app. csimpl. rewrite <-(assoc_L (++)). simpl.
      apply NoDup_app. split; [done|]. split.
      * intros k Hk [->|Hk']%elem_of_cons; [|].
        -- apply (Hdisj f Hk). left.
        -- apply (Hdisj k Hk). by right.
      * by apply NoDup_cons.
    + intros f' Hf'. apply Hconv. by right.
Qed.

(** *** Reading the records of one run *)

Lemma column_of_eq (dsets : gmap string (@rec_dset scalar)) (f : string)
    (d : @rec_dset scalar) (col : list (@datum scalar)) :
  dsets !! f = Some d → table_column d = Ok col → column_of dsets f = col.
Proof. intros Hd Hc. unfold column_of. by rewrite Hd, Hc. Qed.

Lemma convert_columns_eq w (r : nat) (key : string) g (manifest : list string) :
  has_grp w r key g →
  record_fields w !! key = Some manifest →
  NoDup manifest →
  (∀ f, f ∈ manifest → ∃ d col, g_dsets g !! f = Some d ∧ table_column d = Ok col) →
  _convert_record_fields_to_table_columns w r key
  = Ok ((fun f => (f, column_of (g_dsets g) f)) <$> manifest).
Proof.
  intros Hg Hm Hnd Hcols. unfold _convert_record_fields_to_table_columns.
  rewrite Hm. csimpl.
  rewrite (dict_fill_fold
             (_convert_record_field_to_table_column w r key)
             (column_of (g_dsets g)) [] manifest); [done|done|].
  intros f Hf. destruct (Hcols f Hf) as (d & col & Hd & Hc).
  unfold _convert_record_field_to_table_column.
  rewrite (has_grp_records_grp _ _ _ _ Hg). csimpl. rewrite Hd. csimpl.
  by rewrite Hc, (column_of_eq _ _ _ _ Hd Hc).
Qed.






(** *** The columns after records have been appended *)








(** *** Calls of [extend_cycle_run_group_records], then a read *)





End SporadicRecords.

(** * The properties on the small archive *)

Ltac split_elem H :=
  repeat (apply elem_of_cons in H as [H|H]; [try subst|]);
  try (by apply elem_of_nil in H).

Lemma is_run_contig_spec_witness :
  is_run_contig ex_w [0; 1; 2]%Z = Ok true ∧
  is_run_contig ex_w [0; 2]%Z = Ok false ∧
  is_run_contig ex_w [2; 1; 0]%Z = Ok false ∧
  is_run_contig ex_w [1]%Z = Ok true.
Proof.
  destruct (is_run_contig_spec ex_w [(1, 0); (2, 1)]%Z eq_refl) as (_ & Hone & Hex).
  destruct (Hex eq_refl) as (H1 & H2 & H3).
  split; [exact H1|]. split; [exact H2|]. split; [exact H3|]. apply Hone.
Defined.

Lemma sparse_masked_read_follows_stored_order_witness :
  get_traj_field ex_w 2 0 "velocities" (Some [5; 2]) true
  = Ok (Masked [Some 902; Some 905] [false; false]) ∧
  masked_read_spec [2; 5; 9] [902; 905; 909] [5; 2]
  = Masked [Some 905; Some 902] [false; false].
Proof.
  apply (sparse_masked_read_follows_stored_order ex_w 2 0 "velocities" ex_sparse_traj
           (ex_positions 2 0 10) 902 905 909).
  - reflexivity.
  - reflexivity.
  - reflexivity.
  - apply list_elem_of_here.
Defined.

Lemma continual_contig_records_raise_witness :
  _is_sporadic_records PROGRESS = false ∧
  run_contig_records ex_w [0; 1] PROGRESS = Raise TypeError.
Proof.
  split; [reflexivity|].
  destruct (continual_contig_records_raise ex_w 0 [1] PROGRESS ["min_dist"])
    as [_ Htype]; [reflexivity|reflexivity|discriminate|].
  eapply Htype; reflexivity.
Defined.

Lemma contig_trace_concatenates_runs_witness :
  (∃ field_values field_log,
     get_contig_trace_fields ex_w (contig_full_trace ex_cyc [0; 1]) [POSITIONS]
     = Ok field_values ∧
     field_values !! POSITIONS = Some field_log ∧
     length field_log = 8 ∧
     Forall (fun row => length row = 4) field_log ∧
     (∀ k t, k < 5 → t < 4 →
             field_log !! k ≫= (.!! t) = Some (ex_positions 0 t 5 !! k)) ∧
     (∀ k t, k < 3 → t < 4 →
             field_log !! (5 + k) ≫= (.!! t) = Some (ex_positions 1 t 3 !! k))) ∧
  (∃ field_values positions_log velocities_log,
     get_contig_trace_fields ex_w_sparse_contig [(0, 2); (0, 3); (1, 5); (1, 9)]
       [POSITIONS; "velocities"]
     = Ok field_values ∧
     field_values !! POSITIONS = Some positions_log ∧
     field_values !! "velocities" = Some velocities_log ∧
     length positions_log = 4 ∧ length velocities_log = 4 ∧
     positions_log !! 1 ≫= (.!! 0) = Some (Some 203) ∧
     positions_log !! 3 ≫= (.!! 0) = Some (Some 209) ∧
     velocities_log !! 0 ≫= (.!! 0) = Some (Some 902) ∧
     velocities_log !! 1 ≫= (.!! 0) = Some None ∧
     velocities_log !! 2 ≫= (.!! 0) = Some (Some 905) ∧
     velocities_log !! 3 ≫= (.!! 0) = Some (Some 909)).
Proof.
  split.
  - destruct (contig_trace_concatenates_runs ex_w (fun r => seq 0 (ex_cyc r)) [0; 1] 4
                [POSITIONS])
      as (field_values & Hread & Hfields & Hfull).
    + compute_done.
    + discriminate.
    + lia.
    + intros r Hr. split_elem Hr; (split; [discriminate|]); split; reflexivity.
    + intros r t field Hr Ht Hfield. split_elem Hr; split_elem Hfield;
        do 4 (destruct t as [|t];
              [eexists; split; [reflexivity|]; split; [compute_done|];
               repeat constructor; simpl; lia|]);
        lia.
    + destruct (Hfields POSITIONS) as (field_log & Hlog & Hlen & Hrows & Hcells);
        [apply list_elem_of_here|].
      destruct (Hfull ex_cyc) as [_ Hsum]; [done|]. rewrite Hsum in Hlen.
      exists field_values, field_log.
      split; [exact Hread|]. split; [exact Hlog|]. split; [exact Hlen|].
      split; [exact Hrows|]. split.
      * intros k t Hk Ht. rewrite (Hcells k 0 k t); [| |exact Ht].
        -- do 5 (destruct k as [|k]; [by do 4 (destruct t as [|t]; [reflexivity|]); lia|]).
           lia.
        -- do 5 (destruct k as [|k]; [reflexivity|]). lia.
      * intros k t Hk Ht. rewrite (Hcells (5 + k) 1 k t); [| |exact Ht].
        -- do 3 (destruct k as [|k]; [by do 4 (destruct t as [|t]; [reflexivity|]); lia|]).
           lia.
        -- do 3 (destruct k as [|k]; [reflexivity|]). lia.
  - destruct (contig_trace_concatenates_runs ex_w_sparse_contig ex_sel [0; 1] 1
                [POSITIONS; "velocities"])
      as (field_values & Hread & Hfields & _).
    + compute_done.
    + discriminate.
    + lia.
    + intros r Hr. split_elem Hr; (split; [discriminate|]); split; reflexivity.
    + intros r t field Hr Ht Hfield. destruct t as [|t]; [|lia].
      split_elem Hr; split_elem Hfield; eexists; (split; [reflexivity|]); simpl.
      * split; [compute_done|]. repeat constructor; simpl; lia.
      * split; [compute_done|]. split; [by eexists|]. split; reflexivity.
      * split; [compute_done|]. repeat constructor; simpl; lia.
      * split; [compute_done|]. split; [by eexists|]. split; reflexivity.
    + destruct (Hfields POSITIONS) as (plog & Hplog & Hplen & _ & Hpcells);
        [apply list_elem_of_here|].
      destruct (Hfields "velocities") as (vlog & Hvlog & Hvlen & _ & Hvcells);
        [compute_done|].
      exists field_values, plog, vlog.
      split; [exact Hread|]. split; [exact Hplog|]. split; [exact Hvlog|].
      split; [exact Hplen|]. split; [exact Hvlen|].
      split; [exact (Hpcells 1 0 3 0 eq_refl ltac:(lia))|].
      split; [exact (Hpcells 3 1 9 0 eq_refl ltac:(lia))|].
      split; [exact (Hvcells 0 0 2 0 eq_refl ltac:(lia))|].
      split; [exact (Hvcells 1 0 3 0 eq_refl ltac:(lia))|].
      split; [exact (Hvcells 2 1 5 0 eq_refl ltac:(lia))|].
      exact (Hvcells 3 1 9 0 eq_refl ltac:(lia)).
Defined.



(** Declaring the empty shape over a deferred declaration does not fix
    the declaration: the call succeeds, the declaration still reads as
    deferred, and a later declaration of another shape succeeds too. *)
Lemma empty_shape_declaration_not_permanent :
  ∃ w1 w2,
    _set_field_feature_shape "velocities" [] ex_w = (Ok tt, w1) ∧
    field_feature_shapes w1 !! "velocities" = Some None ∧
    _set_field_feature_shape "velocities" [2; 3] w1 = (Ok tt, w2) ∧
    field_feature_shapes w2 !! "velocities" = Some (Some [2; 3]).
Proof.
  do 2 eexists. split; [reflexivity|]. split; [reflexivity|].
  split; reflexivity.
Qed.

Lemma set_field_feature_declaration_spec_witness :
  (∃ w', _set_field_feature_shape "velocities" [2; 3] ex_w = (Ok tt, w') ∧
         field_feature_shapes w' !! "velocities" = Some (Some [2; 3]) ∧
         _set_field_feature_shape "velocities" [4; 3] w' = (Raise AttributeError, w')) ∧
  _set_field_feature_shape POSITIONS [5; 3] ex_w = (Raise AttributeError, ex_w) ∧
  (∃ w', _set_field_feature_dtype "velocities" [(EmptyString, "<f4")] ex_w = (Ok tt, w') ∧
         _set_field_feature_dtype "velocities" [(EmptyString, "<f8")] w'
         = (Raise AttributeError, w')) ∧
  _set_field_feature_dtype POSITIONS [(EmptyString, "<f4")] ex_w
  = (Raise AttributeError, ex_w).
Proof.
  destruct (set_field_feature_declaration_spec ex_w "velocities" eq_refl)
    as (_ & Hshape & _ & Hdtype).
  destruct (set_field_feature_declaration_spec ex_w POSITIONS eq_refl)
    as (Hshape' & _ & Hdtype' & _).
  split; [|split; [|split]].
  - destruct (Hshape [2; 3]) as (w' & Hset & Hget & Hfixed); [discriminate|reflexivity|].
    exists w'. split; [exact Hset|]. split; [exact Hget|]. apply Hfixed.
  - apply (Hshape' [2; 3]). reflexivity.
  - destruct (Hdtype [(EmptyString, "<f4")]) as (w' & Hset & _ & Hfixed); [reflexivity|].
    exists w'. split; [exact Hset|]. apply Hfixed.
  - eapply Hdtype'. reflexivity.
Defined.

Lemma clone_keeps_source_continuations_witness :
  ∃ new_wepy_h5 w',
    clone false Mode_x ex_w = (Ok new_wepy_h5, w') ∧
    f_runs (h5 new_wepy_h5) = [] ∧
    continuations new_wepy_h5 = Ok [(1, 0); (2, 1)]%Z.
Proof.
  destruct (clone_keeps_source_continuations ex_w false Mode_x [(1, 0); (2, 1)]%Z)
    as (new_wepy_h5 & w' & Hclone & Hruns & _ & _ & _ & Hconts);
    [reflexivity..|].
  exists new_wepy_h5, w'. split; [exact Hclone|]. split; [exact Hruns|exact Hconts].
Defined.

Lemma clone_resets_source_continuations_witness :
  continuations ex_w = Ok [(1, 0); (2, 1)]%Z ∧
  ∃ new_wepy_h5 w',
    clone false Mode_x ex_w = (Ok new_wepy_h5, w') ∧
    continuations w' = Ok [] ∧
    f_runs (h5 w') = f_runs (h5 ex_w) ∧
    f_topology (h5 w') = f_topology (h5 ex_w).
Proof.
  split; [reflexivity|].
  destruct (clone_resets_source_continuations ex_w false Mode_x [(1, 0); (2, 1)]%Z)
    as (new_wepy_h5 & w' & Hclone & _ & (es' & Hes' & Hlen) & Htop & _ & Hruns & _);
    [reflexivity..|discriminate|].
  exists new_wepy_h5, w'. split; [exact Hclone|].
  split; [|split; [exact Hruns|exact Htop]].
  destruct es'; [exact Hes'|discriminate].
Defined.

Lemma add_sparse_field_flag_registered_twice_witness :
  ∃ w', _add_sparse_field_flag "velocities" ex_w = (Ok tt, w') ∧
        sparse_fields w' = ["velocities"; "velocities"] ∧
        warnings w' = ["sparse field velocities already a sparse field, ignoring"].
Proof.
  destruct (add_sparse_field_flag_registered_twice ex_w "velocities")
    as (w' & Hadd & Hwarn & Hfields & _); [reflexivity|apply list_elem_of_here|].
  exists w'. split; [exact Hadd|]. split; [exact Hfields|exact Hwarn].
Defined.

(** A base run that is not in the archive is accepted by
    [add_continuation]: the archive has the runs 0, 1 and 2, and the edge
    (3, 7) is stored without an error. *)
Lemma add_continuation_accepts_missing_base :
  (7%Z ∉ Z.of_nat <$> run_idxs ex_w) ∧
  (add_continuation 3 7 ex_w).1 = Ok tt ∧
  continuations (add_continuation 3 7 ex_w).2 = Ok [(1, 0); (2, 1); (3, 7)]%Z.
Proof. split; [compute_done|]. split; reflexivity. Qed.

Lemma add_continuation_unchecked_new_run_checked_witness :
  (∃ w', add_continuation 3 7 ex_w = (Ok tt, w') ∧
         s_continuations (settings_grp w') = Some [(1, 0); (2, 1); (3, 7)]%Z) ∧
  new_run [] (Some 7%Z) [] ex_w = (Raise ValueError, ex_w).
Proof.
  destruct (add_continuation_unchecked_new_run_checked ex_w [(1, 0); (2, 1)]%Z)
    as (Hadd & Hnew); [reflexivity..|].
  split.
  - destruct (Hadd 3%Z 7%Z) as (w' & Hw' & Hes & _). exists w'. split; [exact Hw'|exact Hes].
  - apply Hnew. compute_done.
Defined.

Lemma sparse_masked_read_increasing_frames_witness :
  get_traj_field ex_w 2 0 "velocities" None true
  = Ok (Masked [None; None; Some 902; None; None; Some 905; None; None; None; Some 909]
               [true; true; false; true; true; false; true; true; true; false]) ∧
  get_traj_field ex_w 2 0 "velocities" (Some [2; 3; 9]) true
  = Ok (Masked [Some 902; None; Some 909] [false; true; false]).
Proof.
  split.
  - apply (sparse_masked_read_increasing_frames ex_w 2 0 "velocities" ex_sparse_traj
             (ex_positions 2 0 10) [902; 905; 909] [2; 5; 9] None);
      try reflexivity; [apply list_elem_of_here|].
    repeat constructor; vm_compute; lia.
  - apply (sparse_masked_read_increasing_frames ex_w 2 0 "velocities" ex_sparse_traj
             (ex_positions 2 0 10) [902; 905; 909] [2; 5; 9] (Some [2; 3; 9]));
      try reflexivity; [apply list_elem_of_here|].
    repeat constructor; vm_compute; lia.
Defined.

Lemma empty_shape_reads_as_deferred_witness :
  ∃ w', _set_field_feature_shape "velocities" [] ex_w = (Ok tt, w') ∧
        field_feature_shapes w' !! "velocities" = Some None.
Proof. apply (empty_shape_reads_as_deferred ex_w "velocities"); reflexivity. Defined.

(** * Properties of the rest of the driver *)

(** ** Folds that collect *)

Lemma foldl_outcome_snoc {A B} (f : A -> outcome (list B)) (l : list A) (pre : list B)
    (g : A -> list B) :
  (∀ a, a ∈ l → f a = Ok (g a)) →
  foldl (fun acc a => out ← acc; new ← f a; Ok (out ++ new)) (Ok pre) l
  = Ok (pre ++ l ≫= g).
Proof.
  revert pre. induction l as [|a l IH]; intros pre Hf; simpl.
  - by rewrite app_nil_r.
  - rewrite (Hf a) by left. simpl. rewrite IH.
    + by rewrite <-(assoc_L (++)).
    + intros b Hb. apply Hf. by right.
Qed.

Lemma foldl_ext_eq {A B} (f g : A -> B -> A) (a : A) (l : list B) :
  (∀ a b, f a b = g a b) → foldl f a l = foldl g a l.
Proof.
  intros H. revert a. induction l as [|b l IH]; intros a; simpl; [done|].
  by rewrite H, IH.
Qed.

Lemma foldl_snoc_fmap {A B} (f : A -> B) (l : list A) (pre : list B) :
  foldl (fun acc a => acc ++ [f a]) pre l = pre ++ (f <$> l).
Proof.
  revert pre. induction l as [|a l IH]; intros pre; simpl.
  - by rewrite app_nil_r.
  - rewrite IH. by rewrite <-(assoc_L (++)).
Qed.

(** ** Enumerating runs and trajectories *)

Section Enumeration.
Context {frame scalar : Type}.
Implicit Types w : @WepyHDF5 frame scalar.

(** The trajectories of the runs [rs], run after run. *)
Lemma run_traj_idx_tuples_runs w (rs : list nat) (nt : nat -> nat) :
  (∀ r, r ∈ rs → num_run_trajs w r = Ok (nt r)) →
  run_traj_idx_tuples w (Some rs)
  = Ok (rs ≫= (fun r => (fun t => (r, t)) <$> seq 0 (nt r))).
Proof.
  intros Hn. unfold run_traj_idx_tuples.
  etrans; [|apply (foldl_outcome_snoc
                     (fun r => traj_idxs ← run_traj_idxs w r;
                               Ok ((fun t => (r, t)) <$> traj_idxs) : outcome (list (nat * nat)))
                     rs [])].
  - apply foldl_ext_eq. intros [tups|e] r; simpl; [|done].
    destruct (run_traj_idxs w r) as [traj_idxs|e]; simpl; [|done].
    by rewrite foldl_snoc_fmap.
  - intros r Hr. by rewrite (num_run_trajs_idxs _ _ _ (Hn r Hr)).
Qed.

Lemma num_run_trajs_run w (r : nat) (rn : Run) :
  f_runs (h5 w) !! r = Some rn → num_run_trajs w r = Ok (length (r_trajectories rn)).
Proof. intros Hr. unfold num_run_trajs, run. by rewrite Hr. Qed.

Lemma traj_is_ok w (r t : nat) :
  is_ok (traj w r t) = true ↔
  ∃ rn, f_runs (h5 w) !! r = Some rn ∧ t < length (r_trajectories rn).
Proof.
  unfold traj, run. destruct (f_runs (h5 w) !! r) as [rn|]; simpl.
  - destruct (r_trajectories rn !! t) as [g|] eqn:Ht; simpl.
    + apply lookup_lt_Some in Ht. naive_solver.
    + apply lookup_ge_None in Ht. split; [done|]. intros (? & ? & ?). simplify_eq. lia.
  - naive_solver.
Qed.

(** [run_traj_idx_tuples()] lists every trajectory of the file once, and
    nothing else: a pair is listed exactly when [traj] finds a trajectory
    group at it; [num_trajs] is the length of that list; and a run index
    that is not in the file, passed in [runs], is answered by
    [KeyError]. *)
Theorem run_traj_idx_tuples_exact w :
  (∃ tups, run_traj_idx_tuples w None = Ok tups ∧
           num_trajs w = Ok (length tups) ∧
           NoDup tups ∧
           ∀ r t, (r, t) ∈ tups ↔ is_ok (traj w r t) = true) ∧
  (∀ pre r post, (∀ x, x ∈ pre → x < num_runs w) → num_runs w ≤ r →
                 run_traj_idx_tuples w (Some (pre ++ r :: post)) = Raise KeyError).
Proof.
  split.
  - set (nt := fun r => default 0 (length ∘ r_trajectories <$> f_runs (h5 w) !! r)).
    assert (run_traj_idx_tuples w None
            = Ok (run_idxs w ≫= (fun r => (fun t => (r, t)) <$> seq 0 (nt r)))) as Heq.
    { rewrite <-(run_traj_idx_tuples_runs w (run_idxs w) nt); [done|].
      intros r [_ Hr]%elem_of_seq. simpl in Hr.
      destruct (lookup_lt_is_Some_2 (f_runs (h5 w)) r Hr) as [rn Hrn].
      rewrite (num_run_trajs_run _ _ _ Hrn). unfold nt. by rewrite Hrn. }
    eexists. split; [exact Heq|]. split; [unfold num_trajs; by rewrite Heq|]. split.
    + unfold run_idxs. generalize (num_runs w). intros n.
      assert (∀ a, NoDup (seq a n ≫= (fun r => (fun t => (r, t)) <$> seq 0 (nt r))) ∧
                   ∀ x, x ∈ seq a n ≫= (fun r => (fun t => (r, t)) <$> seq 0 (nt r)) →
                        a ≤ x.1) as H; [|apply H].
      induction n as [|n IH]; intros a; simpl.
      * split; [constructor|]. intros x Hx. by apply elem_of_nil in Hx.
      * destruct (IH (S a)) as [Hnd Hge]. split.
        -- apply NoDup_app. split; [|split; [|done]].
           ++ apply NoDup_fmap_2; [|apply NoDup_seq]. intros t t' ?. by simplify_eq.
           ++ intros x (t & -> & _)%list_elem_of_fmap Hx. apply Hge in Hx. simpl in Hx. lia.
        -- intros x [(t & -> & _)%list_elem_of_fmap|Hx%Hge]%elem_of_app; simpl; lia.
    + intros r t. rewrite traj_is_ok, list_elem_of_bind. split.
      * intros (r' & (t' & Heq' & [_ Ht]%elem_of_seq)%list_elem_of_fmap & [_ Hr]%elem_of_seq).
        simplify_eq. simpl in *.
        destruct (lookup_lt_is_Some_2 (f_runs (h5 w)) r' Hr) as [rn Hrn].
        exists rn. split; [done|]. unfold nt in Ht. by rewrite Hrn in Ht.
      * intros (rn & Hrn & Ht). exists r. split.
        -- apply list_elem_of_fmap. exists t. split; [done|]. apply elem_of_seq.
           unfold nt. rewrite Hrn. simpl. lia.
        -- apply elem_of_seq. apply lookup_lt_Some in Hrn. unfold num_runs. lia.
  - intros pre r post Hpre Hr. unfold run_traj_idx_tuples. rewrite foldl_app. simpl.
    set (nt := fun r => default 0 (length ∘ r_trajectories <$> f_runs (h5 w) !! r)).
    pose proof (run_traj_idx_tuples_runs w pre nt) as Hruns.
    unfold run_traj_idx_tuples in Hruns. rewrite Hruns.
    + simpl. unfold run_traj_idxs, run.
      rewrite (proj2 (lookup_ge_None _ _)) by done. simpl.
      by rewrite foldl_outcome_raise.
    + intros x Hx. apply Hpre in Hx.
      destruct (lookup_lt_is_Some_2 (f_runs (h5 w)) x Hx) as [rn Hrn].
      rewrite (num_run_trajs_run _ _ _ Hrn). unfold nt. by rewrite Hrn.
Qed.
(** [iter_runs] with a selection yields the selected runs in the order
    of the file, each once: what is yielded depends only on which indices
    the selection holds, not on their order or on how often they occur,
    and an index of the selection that is not a run of the file is passed
    over without an error. *)
Theorem iter_runs_file_order w (run_sel : list nat) :
  ∃ out,
    iter_runs w true (Some run_sel) = Ok out ∧
    Forall2 (fun r y => ∃ run_grp, y = IdxObj r run_grp ∧ run w r = Ok run_grp)
            (filter (fun r => r ∈ run_sel) (run_idxs w)) out ∧
    (∀ run_sel', (∀ r, r ∈ run_sel ↔ r ∈ run_sel') →
                 iter_runs w true (Some run_sel') = Ok out).
Proof.
  assert (∀ (sel rs : list nat) pre,
            (∀ r, r ∈ rs → r < num_runs w) →
            ∃ new,
              foldl (fun acc run_idx =>
                       out ← acc;
                       if bool_decide (run_idx ∈ sel) then
                         run_grp ← run w run_idx;
                         Ok (out ++ [IdxObj run_idx run_grp])
                       else Ok out)
                    (Ok pre) rs = Ok (pre ++ new) ∧
              new = omap (fun r => if bool_decide (r ∈ sel)
                                   then IdxObj r <$> f_runs (h5 w) !! r else None) rs ∧
              Forall2 (fun r y => ∃ run_grp, y = IdxObj r run_grp ∧ run w r = Ok run_grp)
                      (filter (fun r => r ∈ sel) rs) new) as Hloop.
  { intros sel rs. induction rs as [|r rs IH]; intros pre Hrs.
    - exists []. simpl. rewrite app_nil_r. by repeat split; try constructor.
    - assert (r < num_runs w) as Hr by (apply Hrs; left).
      destruct (lookup_lt_is_Some_2 (f_runs (h5 w)) r Hr) as [rn Hrn].
      assert (run w r = Ok rn) as Hrun by (unfold run; by rewrite Hrn).
      rewrite filter_cons. cbn [foldl]. rewrite Hrun. csimpl. rewrite Hrn. csimpl.
      case_bool_decide as Hin.
      + rewrite decide_True by done. simpl.
        destruct (IH (pre ++ [IdxObj r rn])) as (new & -> & Hnew & Hall).
        { intros x Hx. apply Hrs. by right. }
        exists (IdxObj r rn :: new). rewrite <-(assoc_L (++)). split; [done|].
        split; [by rewrite Hnew|]. constructor; [|done].
        by exists rn.
      + rewrite decide_False by done.
        destruct (IH pre) as (new & -> & Hnew & Hall).
        { intros x Hx. apply Hrs. by right. }
        by exists new. }
  assert (∀ r, r ∈ run_idxs w → r < num_runs w) as Hidx.
  { intros r [_ ?]%elem_of_seq. simpl in *. lia. }
  destruct (Hloop run_sel (run_idxs w) [] Hidx) as (out & Hout & Hform & Hall).
  exists out. split; [exact Hout|]. split; [exact Hall|].
  intros run_sel' Hsame.
  destruct (Hloop run_sel' (run_idxs w) [] Hidx) as (out' & Hout' & Hform' & _).
  unfold iter_runs. rewrite Hout'. simpl. f_equal. rewrite Hform, Hform'.
  apply omap_ext_fun. intros r.
  by rewrite (bool_decide_ext (r ∈ run_sel') (r ∈ run_sel)).
Qed.
End Enumeration.

(** ** The cycle indices of a sparse field *)

Section CycleIdxs.
Context {frame scalar : Type}.
Implicit Types w : @WepyHDF5 frame scalar.

Lemma sparse_row_lookup (sp : list nat) (D : list frame) (j c : nat) (d : frame) :
  NoDup sp → sp !! j = Some c → D !! j = Some d → sparse_row sp D c = Some d.
Proof.
  revert D j. induction sp as [|s sp IH]; intros D j Hnd Hj Hd; [done|].
  destruct D as [|d0 D]; [by rewrite lookup_nil in Hd|].
  rewrite sparse_row_cons. apply NoDup_cons in Hnd as [Hs Hnd].
  destruct j as [|j]; simpl in *.
  - simplify_eq. by rewrite decide_True.
  - rewrite decide_False; [by eapply IH|].
    intros ->. apply Hs. by eapply list_elem_of_lookup_2.
Qed.

(** For a sparse field whose index list has no repetition and stays
    within the frames of the trajectory, [get_traj_field_cycle_idxs] tells
    the cycle of every row of the unmasked read, and the masked read of
    the whole trajectory holds row [j] at the cycle listed at position
    [j] and is masked at every cycle that is not listed. *)
Theorem sparse_cycle_idxs_place_rows w (run_idx traj_idx : nat) (field_path : string)
    (traj_grp : gmap string traj_field) (positions D : list frame) (sp : list nat) :
  traj w run_idx traj_idx = Ok traj_grp →
  traj_grp !! POSITIONS = Some (Dataset positions) →
  traj_grp !! field_path = Some (SparseGrp D sp) →
  field_path ∈ sparse_fields w →
  length D = length sp →
  NoDup sp →
  Forall (fun s => s < length positions) sp →
  get_traj_field_cycle_idxs w run_idx traj_idx field_path = Ok sp ∧
  get_traj_field w run_idx traj_idx field_path None false = Ok (Plain D) ∧
  ∃ filled_data mask,
    get_traj_field w run_idx traj_idx field_path None true = Ok (Masked filled_data mask) ∧
    length filled_data = length positions ∧
    length mask = length positions ∧
    (∀ j c d, sp !! j = Some c → D !! j = Some d →
              filled_data !! c = Some (Some d) ∧ mask !! c = Some false) ∧
    (∀ c, c < length positions → c ∉ sp →
          filled_data !! c = Some None ∧ mask !! c = Some true).
Proof.
  intros Ht Hpos Hf Hs Hlen Hnd Hrange. split; [|split].
  - unfold get_traj_field_cycle_idxs. rewrite Ht. csimpl. rewrite Hf. csimpl.
    by rewrite bool_decide_eq_true_2.
  - erewrite get_traj_field_sparse by done.
    unfold _get_sparse_traj_field. rewrite Ht. csimpl. by rewrite Hf, Hpos.
  - erewrite get_traj_field_sparse by done.
    unfold _get_sparse_traj_field. rewrite Ht. csimpl. rewrite Hf, Hpos. csimpl.
    rewrite put_sparse_rows by done. csimpl. rewrite put_sparse_mask by done.
    do 2 eexists. split; [done|].
    rewrite !length_fmap, !length_seq. split; [done|]. split; [done|]. split.
    + intros j c d Hj Hd.
      assert (c < length positions) as Hc.
      { eapply (proj1 (Forall_forall _ _) Hrange). by eapply list_elem_of_lookup_2. }
      rewrite !list_lookup_fmap, !lookup_seq_lt by done. csimpl.
      rewrite (sparse_row_lookup sp D j c d) by done.
      rewrite bool_decide_eq_true_2; [done|]. by eapply list_elem_of_lookup_2.
    + intros c Hc Hnot.
      rewrite !list_lookup_fmap, !lookup_seq_lt by done. csimpl.
      rewrite sparse_row_None by done. by rewrite bool_decide_eq_false_2.
Qed.
End CycleIdxs.

(** ** Trace reads *)

Section TraceReads.
Context {frame scalar : Type}.
Implicit Types w : @WepyHDF5 frame scalar.

Lemma empty_frame_fields_lookup (fields : list string) (field : string) :
  field ∈ fields → @empty_frame_fields frame fields !! field = Some [].
Proof.
  unfold empty_frame_fields.
  assert (∀ (d : gmap string (list (option frame))),
            field ∈ fields ∨ d !! field = Some [] →
            foldl (fun d field => <[field := []]> d) d fields !! field = Some []) as H.
  { induction fields as [|f fields IH]; intros d Hd; simpl.
    - destruct Hd as [Hd|Hd]; [by apply elem_of_nil in Hd|done].
    - apply IH. destruct (decide (f = field)) as [->|Hne].
      + right. apply lookup_insert_eq.
      + destruct Hd as [Hd|Hd].
        * apply elem_of_cons in Hd as [?|?]; [congruence|by left].
        * right. by rewrite lookup_insert_ne. }
  intros Hin. apply H. by left.
Qed.

(** One frame of a trace: every field gets one more entry. *)
Lemma trace_frame_cols w (fields : list string) (r t c : nat)
    (y : string -> option frame) (M : gmap string (list (option frame))) :
  NoDup fields →
  (∀ field, field ∈ fields → is_Some (M !! field)) →
  (∀ field, field ∈ fields →
            ∃ v, get_traj_field w r t field (Some [c]) true = Ok v ∧
                 value_rows v !! 0 = Some (y field)) →
  ∃ M', trace_frame w fields r t c (Ok M) = Ok M' ∧
        (∀ field, field ∈ fields → M' !! field = (.++ [y field]) <$> M !! field) ∧
        (∀ field, field ∉ fields → M' !! field = M !! field).
Proof.
  unfold trace_frame. revert M.
  induction fields as [|f fields IH]; intros M Hnd HM Hread.
  - exists M. split; [done|]. split; [|done]. intros field Hin. by apply elem_of_nil in Hin.
  - apply NoDup_cons in Hnd as [Hf Hnd].
    destruct (Hread f) as (v & Hv & Hv0); [left|].
    destruct (HM f) as [col Hcol]; [left|].
    cbn [foldl]. csimpl. rewrite Hv. csimpl. rewrite Hv0. csimpl. rewrite Hcol. csimpl.
    destruct (IH (<[f := col ++ [y f]]> M)) as (M' & -> & Hin & Hout); [done|..].
    + intros field Hfield. rewrite lookup_insert_ne by (intros ->; done).
      apply HM. by right.
    + intros field Hfield. apply Hread. by right.
    + exists M'. split; [done|]. split.
      * intros field [->|Hfield]%elem_of_cons.
        -- rewrite Hout by done. by rewrite lookup_insert_eq, Hcol.
        -- rewrite Hin by done. by rewrite lookup_insert_ne by (intros ->; done).
      * intros field [Hne Hfield]%not_elem_of_cons.
        rewrite Hout by done. by rewrite lookup_insert_ne.
Qed.

(** A whole trace: one entry per frame, in the order of the trace. *)
Lemma trace_cols w (tups : list (nat * nat * nat)) (fields : list string)
    (y : nat * nat * nat -> string -> option frame)
    (M : gmap string (list (option frame))) :
  NoDup fields →
  (∀ field, field ∈ fields → is_Some (M !! field)) →
  (∀ tup field, tup ∈ tups → field ∈ fields →
                ∃ v, get_traj_field w tup.1.1 tup.1.2 field (Some [tup.2]) true = Ok v ∧
                     value_rows v !! 0 = Some (y tup field)) →
  ∃ M', foldl (fun acc tup => trace_frame w fields tup.1.1 tup.1.2 tup.2 acc) (Ok M) tups
        = Ok M' ∧
        ∀ field, field ∈ fields →
                 M' !! field = (.++ ((fun tup => y tup field) <$> tups)) <$> M !! field.
Proof.
  revert M. induction tups as [|tup tups IH]; intros M Hnd HM Hread.
  - exists M. split; [done|]. intros field Hfield.
    destruct (HM field Hfield) as [col ->]. simpl. by rewrite app_nil_r.
  - destruct (trace_frame_cols w fields tup.1.1 tup.1.2 tup.2 (y tup) M)
      as (M1 & HM1 & Hin & _); [done|done|..].
    { intros field Hfield. apply Hread; [left|done]. }
    cbn [foldl]. rewrite HM1.
    destruct (IH M1) as (M' & -> & HM'); [done|..].
    + intros field Hfield. rewrite Hin by done.
      destruct (HM field Hfield) as [col ->]. by eexists.
    + intros tup' field Htup Hfield. apply Hread; [by right|done].
    + exists M'. split; [done|]. intros field Hfield.
      rewrite HM', Hin by done. destruct (HM field Hfield) as [col ->]. simpl.
      by rewrite <-(assoc_L (++)).
Qed.

Lemma get_run_trace_fields_eq w (run_idx : nat) (tups : list (nat * nat))
    (fields : list string) :
  get_run_trace_fields w run_idx tups fields
  = get_trace_fields w ((fun tc => (run_idx, tc.1, tc.2)) <$> tups) fields.
Proof.
  unfold get_run_trace_fields, get_trace_fields.
  generalize (Ok (@empty_frame_fields frame fields)).
  induction tups as [|tc tups IH]; intros acc; [done|]. simpl. by rewrite IH.
Qed.

(** A trace read of dense fields: for distinct fields and frames that
    exist, [get_trace_fields] returns for every field one entry per frame
    of the trace, and entry [k] is the row of the field at the run,
    trajectory and cycle the trace names at position [k], whatever the
    order of the frames; [get_run_trace_fields] is the same read for a
    trace within one run. *)
Theorem get_trace_fields_dense w (frame_tups : list (nat * nat * nat))
    (fields : list string) :
  NoDup fields →
  (∀ field, field ∈ fields → field ∉ sparse_fields w) →
  (∀ r t c field, (r, t, c) ∈ frame_tups → field ∈ fields →
                  ∃ rows, dense_rows w r t field = Some rows ∧ c < length rows) →
  ∃ frame_fields,
    get_trace_fields w frame_tups fields = Ok frame_fields ∧
    (∀ field, field ∈ fields →
       ∃ col, frame_fields !! field = Some col ∧
              length col = length frame_tups ∧
              ∀ k r t c rows,
                frame_tups !! k = Some (r, t, c) →
                dense_rows w r t field = Some rows →
                col !! k = Some (rows !! c)) ∧
    (∀ run_idx run_tups,
       frame_tups = (fun tc => (run_idx, tc.1, tc.2)) <$> run_tups →
       get_run_trace_fields w run_idx run_tups fields = Ok frame_fields).
Proof.
  intros Hnd Hdense Hrows.
  set (y := fun (tup : nat * nat * nat) field =>
              dense_rows w tup.1.1 tup.1.2 field ≫= (.!! tup.2)).
  destruct (trace_cols w frame_tups fields y (empty_frame_fields fields))
    as (M & HM & Hcols); [done|..].
  { intros field Hfield. rewrite empty_frame_fields_lookup by done. by eexists. }
  { intros [[r t] c] field Htup Hfield. simpl.
    destruct (Hrows r t c field Htup Hfield) as (rows & Hr & Hc).
    destruct (lookup_lt_is_Some_2 rows c Hc) as [x Hx].
    destruct (dense_rows_traj _ _ _ _ _ Hr) as (traj_grp & Ht & Hf).
    exists (Plain [x]). split.
    - erewrite get_traj_field_dense; [|done|done|by apply Hdense].
      unfold h5_take. simpl. by rewrite Hx.
    - unfold y. simpl. rewrite Hr. simpl. by rewrite Hx. }
  exists M. split; [exact HM|]. split.
  - intros field Hfield. eexists. split.
    { rewrite Hcols by done. by rewrite empty_frame_fields_lookup. }
    split; [simpl; by rewrite length_fmap|].
    intros k r t c rows Hk Hr. simpl. rewrite list_lookup_fmap, Hk. simpl.
    unfold y. simpl. by rewrite Hr.
  - intros run_idx run_tups ->. by rewrite get_run_trace_fields_eq.
Qed.

(** A trace read of a sparse field takes the cycles in any order, with
    repetitions, and beyond the end of the trajectory: the entry of a
    cycle is the row stored for it, and an absent entry when no row is
    stored for it. *)
Theorem get_run_trace_fields_sparse w (run_idx traj_idx : nat) (cycles : list nat)
    (field : string) (traj_grp : gmap string traj_field) (positions D : list frame)
    (sp : list nat) :
  traj w run_idx traj_idx = Ok traj_grp →
  traj_grp !! POSITIONS = Some (Dataset positions) →
  traj_grp !! field = Some (SparseGrp D sp) →
  field ∈ sparse_fields w →
  length D = length sp →
  strictly_increasing sp = true →
  ∃ frame_fields,
    get_run_trace_fields w run_idx ((fun c => (traj_idx, c)) <$> cycles) [field]
    = Ok frame_fields ∧
    frame_fields !! field = Some (sparse_row sp D <$> cycles).
Proof.
  intros Ht Hpos Hf Hs Hlen Hsp. rewrite get_run_trace_fields_eq.
  destruct (trace_cols w ((fun tc => (run_idx, tc.1, tc.2)) <$>
                            ((fun c => (traj_idx, c)) <$> cycles)) [field]
              (fun tup _ => sparse_row sp D tup.2) (empty_frame_fields [field]))
    as (M & HM & Hcols).
  - apply NoDup_singleton.
  - intros f Hin. rewrite empty_frame_fields_lookup by done. by eexists.
  - intros tup f (tc & -> & (c & -> & _)%list_elem_of_fmap)%list_elem_of_fmap
      ->%list_elem_of_singleton. simpl.
    eexists. split; [by eapply sparse_read_frames|done].
  - exists M. split; [exact HM|]. rewrite Hcols by apply list_elem_of_here.
    rewrite empty_frame_fields_lookup by apply list_elem_of_here. simpl.
    f_equal. by rewrite <-!list_fmap_compose.
Qed.
End TraceReads.

(** ** Writes to a run group *)

Section RunWrites.
Context {frame scalar : Type}.
Implicit Types w : @WepyHDF5 frame scalar.
Implicit Types rn : @Run frame scalar.

Lemma modify_run_eq w (r : nat) rn rn' (upd : Run -> outcome Run) :
  writable w = true → f_runs (h5 w) !! r = Some rn → upd rn = Ok rn' →
  modify_run r upd w = (Ok tt, put_run w r rn').
Proof.
  intros Hw Hr Hupd. unfold modify_run, run. msimpl. rewrite Hr. simpl.
  rewrite Hupd. simpl. unfold h5_modify, put_run. by rewrite Hw.
Qed.

Lemma put_run_lookup w (r : nat) rn rn' :
  f_runs (h5 w) !! r = Some rn → f_runs (h5 (put_run w r rn')) !! r = Some rn'.
Proof. intros Hr. simpl. apply list_lookup_insert_eq. by eapply lookup_lt_Some. Qed.

Lemma put_run_lookup_ne w (r r' : nat) rn' :
  r ≠ r' → f_runs (h5 (put_run w r rn')) !! r' = f_runs (h5 w) !! r'.
Proof. intros Hne. simpl. by apply list_lookup_insert_ne. Qed.

Lemma put_run_put_run w (r : nat) rn1 rn2 :
  put_run (put_run w r rn1) r rn2 = put_run w r rn2.
Proof. unfold put_run. simpl. by rewrite list_insert_insert_eq. Qed.

Lemma put_run_id w (r : nat) rn :
  f_runs (h5 w) !! r = Some rn → put_run w r rn = w.
Proof.
  intros Hr. unfold put_run. rewrite list_insert_id by done. by destruct w as [[] ? ?].
Qed.

Lemma _add_traj_field_data_eq w (r t : nat) (field_path : string) rn
    (g : gmap string traj_field) (field_data : list frame) (sparse_idxs : option (list nat)) :
  writable w = true → f_runs (h5 w) !! r = Some rn →
  r_trajectories rn !! t = Some g → g !! field_path = None →
  _add_traj_field_data r t field_path field_data sparse_idxs w
  = (Ok tt, put_run w r
              (with_trajectories rn
                 (<[t := <[field_path := match sparse_idxs with
                                         | None => Dataset field_data
                                         | Some sparse_idxs => SparseGrp field_data sparse_idxs
                                         end]> g]> (r_trajectories rn)))).
Proof.
  intros Hw Hr Ht Hg. unfold _add_traj_field_data, modify_traj.
  apply (modify_run_eq w r rn); [done..|]. rewrite Ht. simpl.
  unfold create_in. by destruct sparse_idxs; rewrite Hg.
Qed.
End RunWrites.

(** ** Fields added to the trajectories of a run *)

Section RunFields.
Context {frame scalar : Type}.
Implicit Types w : @WepyHDF5 frame scalar.
Implicit Types rn : @Run frame scalar.

Lemma imap_pair_zip {A} (l : list A) (k : nat) :
  imap (fun i x => (k + i, x)) l = zip (seq k (length l)) l.
Proof.
  revert k. induction l as [|x l IH]; intros k; simpl; [done|].
  f_equal; [f_equal; lia|]. rewrite <-IH. apply imap_ext. intros i y _. simpl.
  f_equal. lia.
Qed.

Lemma for_M_lift_ok {A} (items : list A) (check : A -> outcome unit) w :
  (∀ it, it ∈ items → check it = Ok tt) →
  for_M items (fun it => lift_M (check it)) w = (Ok tt, w).
Proof.
  induction items as [|it items IH]; intros Hok; [done|].
  erewrite for_M_cons; [|unfold lift_M; by rewrite (Hok it) by left].
  apply IH. intros it' Hit'. apply Hok. by right.
Qed.

Lemma for_M_lift_raise {A} (items : list A) (check : A -> outcome unit) (e : pyerr) w :
  (∀ it, it ∈ items → check it = Ok tt ∨ check it = Raise e) →
  (∃ it, it ∈ items ∧ check it = Raise e) →
  for_M items (fun it => lift_M (check it)) w = (Raise e, w).
Proof.
  induction items as [|it items IH]; intros Hor (bad & Hbad & Hraise).
  - by apply elem_of_nil in Hbad.
  - destruct (Hor it) as [Hok|Hno]; [left|..].
    + erewrite for_M_cons; [|unfold lift_M; by rewrite Hok].
      apply IH; [intros it' Hit'; apply Hor; by right|].
      apply elem_of_cons in Hbad as [->|Hbad]; [congruence|eauto].
    + simpl. unfold mbind, M_bind, bind_M, lift_M. by rewrite Hno.
Qed.

(** The loop of [_add_run_field] that writes the data: the trajectories
    [pre] have been written, the trajectories [rest] are still to write. *)
Lemma add_fields_loop (r : nat) (field_path : string) (data : list (list frame))
    (pre rest : list (gmap string traj_field)) (new : list (list frame)) w rn :
  writable w = true →
  f_runs (h5 w) !! r = Some rn →
  r_trajectories rn = pre ++ rest →
  length new = length rest →
  Forall (fun g => g !! field_path = None) rest →
  (∀ i d, new !! i = Some d → data !! (length pre + i) = Some d) →
  for_M (zip (seq (length pre) (length rest))
             ((fun t => (r, t)) <$> seq (length pre) (length rest)))
        (fun it =>
           traj_data ← lift_M (from_option IndexError (data !! it.1));
           _add_traj_field_data it.2.1 it.2.2 field_path traj_data None) w
  = (Ok tt, put_run w r
              (with_trajectories rn
                 (pre ++ zip_with (fun g d => <[field_path := Dataset d]> g) rest new))).
Proof.
  revert pre new w rn. induction rest as [|g rest IH];
    intros pre new w rn Hw Hr Htrajs Hlen Hfree Hdata.
  - destruct new; [|done]. simpl. unfold ret_M. rewrite <-Htrajs.
    rewrite put_run_id; [done|]. by destruct rn.
  - destruct new as [|d new]; [done|]. apply Forall_cons in Hfree as [Hg Hfree].
    cbn [length seq fmap list_fmap zip zip_with].
    erewrite for_M_cons.
    2:{ erewrite bind_M_eq.
        2:{ unfold lift_M. cbn [fst]. pose proof (Hdata 0 d eq_refl) as Hd.
            rewrite Nat.add_0_r in Hd. by rewrite Hd. }
        cbn [fst snd].
        apply (_add_traj_field_data_eq _ r (length pre) field_path rn g); [done..| |done].
        rewrite Htrajs. by apply list_lookup_middle. }
    set (g' := <[field_path := Dataset d]> g).
    specialize (IH (pre ++ [g']) new
                  (put_run w r (with_trajectories rn (<[length pre := g']> (r_trajectories rn))))
                  (with_trajectories rn (<[length pre := g']> (r_trajectories rn)))).
    rewrite length_app in IH. simpl in IH.
    replace (length pre + 1) with (S (length pre)) in IH by lia.
    rewrite IH.
    + rewrite put_run_put_run. simpl. by rewrite <-(assoc_L (++)).
    + done.
    + by eapply put_run_lookup.
    + simpl. rewrite Htrajs.
      replace (length pre) with (length pre + 0) at 1 by lia.
      rewrite insert_app_r. simpl. by rewrite <-(assoc_L (++)).
    + by simplify_eq/=.
    + done.
    + intros i d' Hi. replace (S (length pre) + i) with (length pre + S i) by lia.
      by apply Hdata.
Qed.

Lemma run_traj_idx_tuples_one w (r : nat) rn :
  f_runs (h5 w) !! r = Some rn →
  run_traj_idx_tuples w (Some [r])
  = Ok ((fun t => (r, t)) <$> seq 0 (length (r_trajectories rn))).
Proof.
  intros Hr.
  rewrite (run_traj_idx_tuples_runs w [r] (fun _ => length (r_trajectories rn))).
  - simpl. by rewrite app_nil_r.
  - intros r' ->%list_elem_of_singleton. by apply num_run_trajs_run.
Qed.

Lemma _add_run_field_dense_eq w (r : nat) (field_path : string) (data : pydata) rn (n : nat) :
  writable w = true →
  f_runs (h5 w) !! r = Some rn →
  length (data_items data) = length (r_trajectories rn) →
  (r_trajectories rn ≠ [] → num_run_cycles w r = Ok n) →
  Forall (fun traj_data => length traj_data = n) (data_items data) →
  Forall (fun g => g !! field_path = None) (r_trajectories rn) →
  _add_run_field r field_path data None w
  = (Ok tt, put_run w r
              (with_trajectories rn
                 (zip_with (fun g d => <[field_path := Dataset d]> g)
                           (r_trajectories rn) (data_items data)))).
Proof.
  intros Hw Hr Hlen Hn Hframes Hfree. unfold _add_run_field.
  erewrite bind_M_eq; [|reflexivity].
  erewrite bind_M_eq; [|unfold lift_M; by rewrite (num_run_trajs_run _ _ _ Hr)].
  erewrite bind_M_eq.
  2:{ unfold lift_M, py_assert. by rewrite bool_decide_eq_true_2. }
  erewrite bind_M_eq.
  2:{ apply for_M_lift_ok. intros [t traj_data] Hit. simpl.
      assert (traj_data ∈ data_items data) as Hin.
      { apply list_elem_of_lookup in Hit as [i Hi]. rewrite list_lookup_imap in Hi.
        destruct (data_items data !! i) eqn:Hd; simplify_eq/=.
        by eapply list_elem_of_lookup_2. }
      assert (length traj_data = n) as Hn' by (by eapply (proj1 (Forall_forall _ _) Hframes)).
      unfold check_traj_data. rewrite Hn.
      - simpl. rewrite Hn'. rewrite (bool_decide_eq_false_2 (n < n)) by lia.
        by rewrite (bool_decide_eq_true_2 (n <= n)) by lia.
      - intros Hnil. rewrite Hnil in Hlen.
        destruct (data_items data); [by apply elem_of_nil in Hin|done]. }
  erewrite bind_M_eq; [|unfold lift_M; by rewrite (run_traj_idx_tuples_one _ _ _ Hr)].
  rewrite (imap_pair_zip _ 0), length_fmap, length_seq.
  rewrite <-(app_nil_l (zip_with _ _ _)).
  apply (add_fields_loop r field_path (data_items data) [] (r_trajectories rn)
           (data_items data)); done.
Qed.

(** An observable added to a run with one full-length array per
    trajectory is read back trajectory by trajectory as it was given;
    the settings, the other runs and the other fields of the run are as
    they were. *)
Theorem add_run_observable_read_back w (run_idx : nat) (observable_name : string)
    (data : pydata) rn (n : nat) :
  writable w = true →
  f_runs (h5 w) !! run_idx = Some rn →
  length (data_items data) = length (r_trajectories rn) →
  num_run_cycles w run_idx = Ok n →
  Forall (fun traj_data => length traj_data = n) (data_items data) →
  Forall (fun g => g !! (OBSERVABLES +:+ "/" +:+ observable_name) = None)
         (r_trajectories rn) →
  OBSERVABLES +:+ "/" +:+ observable_name ∉ sparse_fields w →
  ∃ w',
    add_run_observable run_idx observable_name data None w = (Ok tt, w') ∧
    settings_grp w' = settings_grp w ∧
    (∀ r, r ≠ run_idx → f_runs (h5 w') !! r = f_runs (h5 w) !! r) ∧
    (∀ t traj_data,
       data_items data !! t = Some traj_data →
       get_traj_field w' run_idx t (OBSERVABLES +:+ "/" +:+ observable_name) None true
       = Ok (Plain traj_data)) ∧
    (∀ t field g g',
       field ≠ OBSERVABLES +:+ "/" +:+ observable_name →
       traj w run_idx t = Ok g → traj w' run_idx t = Ok g' → g' !! field = g !! field).
Proof.
  intros Hw Hr Hlen Hn Hframes Hfree Hs. eexists. split.
  { unfold add_run_observable. by eapply _add_run_field_dense_eq. }
  split; [done|]. split; [intros r Hne; by apply put_run_lookup_ne|].
  assert (∀ t, traj (put_run w run_idx
                       (with_trajectories rn
                          (zip_with (fun g d => <[OBSERVABLES +:+ "/" +:+ observable_name
                                                  := Dataset d]> g)
                                    (r_trajectories rn) (data_items data)))) run_idx t
               = from_option KeyError
                   (zip_with (fun g d => <[OBSERVABLES +:+ "/" +:+ observable_name
                                           := Dataset d]> g)
                             (r_trajectories rn) (data_items data) !! t)) as Htraj.
  { intros t. unfold traj, run. by rewrite (put_run_lookup _ _ _ _ Hr). }
  split.
  - intros t traj_data Ht.
    destruct (lookup_lt_is_Some_2 (r_trajectories rn) t) as [g Hg].
    { rewrite <-Hlen. by eapply lookup_lt_Some. }
    erewrite get_traj_field_dense; [done| |apply lookup_insert_eq|done].
    rewrite Htraj, lookup_zip_with, Hg. simpl. by rewrite Ht.
  - intros t field g g' Hne Hg Hg'. rewrite Htraj, lookup_zip_with in Hg'.
    unfold traj, run in Hg. rewrite Hr in Hg. simpl in Hg.
    destruct (r_trajectories rn !! t); simplify_eq/=.
    destruct (data_items data !! t); simplify_eq/=.
    by rewrite lookup_insert_ne.
Qed.
Lemma elem_of_imap_pair {A} (l : list A) (i : nat) (x : A) :
  (i, x) ∈ imap pair l ↔ l !! i = Some x.
Proof.
  rewrite list_elem_of_lookup. setoid_rewrite list_lookup_imap. split.
  - intros [j Hj]. destruct (l !! j) eqn:Hl; simplify_eq/=. done.
  - intros Hi. exists i. by rewrite Hi.
Qed.

Lemma for_M_lift_first_raise {A} (pre post : list A) (bad : A)
    (check : A -> outcome unit) (e : pyerr) w :
  (∀ it, it ∈ pre → check it = Ok tt) →
  check bad = Raise e →
  for_M (pre ++ bad :: post) (fun it => lift_M (check it)) w = (Raise e, w).
Proof.
  intros Hpre Hbad. induction pre as [|it pre IH].
  - simpl. unfold mbind, M_bind, bind_M, lift_M. by rewrite Hbad.
  - simpl. erewrite bind_M_eq; [|unfold lift_M; by rewrite (Hpre it) by left].
    apply IH. intros it' Hit'. apply Hpre. by right.
Qed.

Lemma data_shape1_uniform (trajs : list (list frame)) (m : nat) :
  trajs ≠ [] →
  Forall (fun traj_data => length traj_data = m) trajs →
  data_shape1 (DataArr trajs) = Ok m.
Proof.
  intros Hne Hall. destruct trajs as [|traj0 trajs]; [done|].
  unfold data_shape1. cbn [lookup list_lookup from_option mbind outcome_bind].
  pose proof (Forall_inv Hall) as H0. simpl in H0.
  rewrite (proj2 (forallb_forall _ _)); [by rewrite H0|].
  intros t Ht. apply list_elem_of_In in Ht. apply bool_decide_eq_true.
  rewrite H0. by apply (proj1 (Forall_forall _ _) Hall).
Qed.

Lemma data_shape1_ragged (trajs : list (list frame)) (t1 t2 : list frame) :
  t1 ∈ trajs → t2 ∈ trajs → length t1 ≠ length t2 →
  data_shape1 (DataArr trajs) = Raise IndexError.
Proof.
  intros H1 H2 Hne. destruct trajs as [|traj0 trajs]; [by apply elem_of_nil in H1|].
  unfold data_shape1. cbn [lookup list_lookup from_option mbind outcome_bind].
  destruct (forallb _ _) eqn:Hall; [|done]. exfalso.
  rewrite forallb_forall in Hall.
  pose proof (Hall t1 (proj1 (list_elem_of_In _ _) H1)) as E1.
  pose proof (Hall t2 (proj1 (list_elem_of_In _ _) H2)) as E2.
  apply bool_decide_eq_true in E1, E2. congruence.
Qed.

(** What [_add_run_field] refuses, leaving the file as it was.  Data for
    a number of trajectories other than the run's: [AssertionError].
    Without sparse indices, an array in which some trajectory does not
    have one frame per cycle of the run: [ValueError] when no trajectory
    is longer than the run or when all trajectories have one length, so
    that the array has a second axis; but [IndexError] when the
    trajectories differ in length and the first one that does not fit is
    too long, because the error message reads [data.shape[1]].  With
    sparse indices, an array for which some trajectory's list of sparse
    indices does not have as many entries as the run has trajectories:
    [ValueError], the check compares it with [data.shape[0]]. *)
Theorem add_run_field_rejects w (run_idx : nat) (field_path : string) rn (n : nat)
    (trajs : list (list frame)) :
  f_runs (h5 w) !! run_idx = Some rn →
  num_run_cycles w run_idx = Ok n →
  (∀ data sparse_idxs,
     length (data_items data) ≠ length (r_trajectories rn) →
     _add_run_field run_idx field_path data sparse_idxs w = (Raise AssertionError, w)) ∧
  (length trajs = length (r_trajectories rn) →
   Exists (fun traj_data => length traj_data ≠ n) trajs →
   Forall (fun traj_data => length traj_data ≤ n) trajs
   ∨ (∃ m, Forall (fun traj_data => length traj_data = m) trajs) →
   _add_run_field run_idx field_path (DataArr trajs) None w = (Raise ValueError, w)) ∧
  (∀ pre long post,
     trajs = pre ++ long :: post →
     length trajs = length (r_trajectories rn) →
     Forall (fun traj_data => length traj_data = n) pre →
     n < length long →
     Exists (fun traj_data => length traj_data ≠ length long) trajs →
     _add_run_field run_idx field_path (DataArr trajs) None w = (Raise IndexError, w)) ∧
  (∀ sparse_idxs,
     length trajs = length (r_trajectories rn) →
     length sparse_idxs = length trajs →
     Forall (fun traj_data => length traj_data ≤ n) trajs →
     Exists (fun traj_sparse_idxs => length traj_sparse_idxs ≠ length trajs) sparse_idxs →
     _add_run_field run_idx field_path (DataArr trajs) (Some sparse_idxs) w
     = (Raise ValueError, w)).
Proof.
  intros Hr Hn. split; [|split; [|split]].
  - intros data sparse_idxs Hlen. unfold _add_run_field.
    erewrite bind_M_eq; [|reflexivity].
    erewrite bind_M_eq; [|unfold lift_M; by rewrite (num_run_trajs_run _ _ _ Hr)].
    unfold mbind, M_bind, bind_M, lift_M, py_assert.
    by rewrite bool_decide_eq_false_2.
  - intros Hlen Hbad Hshape. unfold _add_run_field.
    erewrite bind_M_eq; [|reflexivity].
    erewrite bind_M_eq; [|unfold lift_M; by rewrite (num_run_trajs_run _ _ _ Hr)].
    erewrite bind_M_eq.
    2:{ unfold lift_M, py_assert. by rewrite bool_decide_eq_true_2. }
    unfold mbind, M_bind, bind_M at 1.
    assert (∀ t traj_data, trajs !! t = Some traj_data → n < length traj_data →
                           data_shape1 (DataArr trajs) = Ok (length traj_data)) as Hshape1.
    { intros t traj_data Ht Hlong. destruct Hshape as [Hle|[m Hm]].
      - pose proof (proj1 (Forall_forall _ _) Hle traj_data
                      (list_elem_of_lookup_2 _ _ _ Ht)) as Hl. simpl in Hl. lia.
      - rewrite (proj1 (Forall_forall _ _) Hm traj_data (list_elem_of_lookup_2 _ _ _ Ht)).
        apply data_shape1_uniform; [|done]. intros ->. done. }
    rewrite (for_M_lift_raise _ (fun it => check_traj_data w run_idx (DataArr trajs) None
                                             it.1 it.2) ValueError); [done|..].
    + intros [t traj_data] Hit%elem_of_imap_pair. simpl in Hit. unfold check_traj_data.
      rewrite Hn. cbn [mbind outcome_bind fst snd].
      case_bool_decide.
      * rewrite (Hshape1 t traj_data) by done. by right.
      * repeat case_bool_decide; auto; lia.
    + apply Exists_exists in Hbad as (traj_data & Hin & Hne).
      apply list_elem_of_lookup in Hin as [t Ht].
      exists (t, traj_data). split; [by apply elem_of_imap_pair|].
      unfold check_traj_data. rewrite Hn. cbn [mbind outcome_bind fst snd].
      case_bool_decide.
      * by rewrite (Hshape1 t traj_data).
      * repeat case_bool_decide; auto; lia.
  - intros pre long post -> Hlen Hpre Hlong Hragged. unfold _add_run_field.
    erewrite bind_M_eq; [|reflexivity].
    erewrite bind_M_eq; [|unfold lift_M; by rewrite (num_run_trajs_run _ _ _ Hr)].
    erewrite bind_M_eq.
    2:{ unfold lift_M, py_assert. by rewrite bool_decide_eq_true_2. }
    unfold mbind, M_bind, bind_M at 1.
    cbn [data_items]. rewrite imap_app. cbn [imap].
    rewrite (for_M_lift_first_raise _ _ _
               (fun it => check_traj_data w run_idx (DataArr (pre ++ long :: post)) None
                            it.1 it.2) IndexError); [done|..].
    + intros [t traj_data] Hit%elem_of_imap_pair. unfold check_traj_data.
      rewrite Hn. cbn [mbind outcome_bind fst snd].
      pose proof (proj1 (Forall_forall _ _) Hpre traj_data
                    (list_elem_of_lookup_2 _ _ _ Hit)) as Hl. simpl in Hl.
      repeat case_bool_decide; auto; lia.
    + unfold check_traj_data. rewrite Hn. cbn [mbind outcome_bind fst snd].
      rewrite bool_decide_eq_true_2 by done.
      apply Exists_exists in Hragged as (other & Hin & Hne).
      rewrite (data_shape1_ragged _ other long); [done|done| |done].
      apply elem_of_app. right. left.
  - intros sparse_idxs Hlen Hslen Hframes Hbad. unfold _add_run_field.
    erewrite bind_M_eq; [|reflexivity].
    erewrite bind_M_eq; [|unfold lift_M; by rewrite (num_run_trajs_run _ _ _ Hr)].
    erewrite bind_M_eq.
    2:{ unfold lift_M, py_assert. by rewrite bool_decide_eq_true_2. }
    unfold mbind, M_bind, bind_M at 1.
    rewrite (for_M_lift_raise _ (fun it => check_traj_data w run_idx (DataArr trajs)
                                             (Some sparse_idxs) it.1 it.2) ValueError);
      [done|..].
    + intros [t traj_data] Hit%elem_of_imap_pair. simpl in Hit. unfold check_traj_data.
      rewrite Hn. simpl.
      assert (length traj_data ≤ n) as Hle.
      { eapply (proj1 (Forall_forall _ _) Hframes). by eapply list_elem_of_lookup_2. }
      destruct (lookup_lt_is_Some_2 sparse_idxs t) as [ts Hts].
      { rewrite Hslen. by eapply lookup_lt_Some. }
      rewrite Hts. simpl. repeat case_bool_decide; auto; lia.
    + apply Exists_exists in Hbad as (ts & Hin & Hne).
      apply list_elem_of_lookup in Hin as [t Hts].
      destruct (lookup_lt_is_Some_2 trajs t) as [traj_data Ht].
      { rewrite <-Hslen. by eapply lookup_lt_Some. }
      exists (t, traj_data). split; [by apply elem_of_imap_pair|].
      assert (length traj_data ≤ n) as Hle.
      { eapply (proj1 (Forall_forall _ _) Hframes). by eapply list_elem_of_lookup_2. }
      unfold check_traj_data. rewrite Hn. simpl. rewrite Hts. simpl.
      repeat case_bool_decide; auto; lia.
Qed.
End RunFields.

(** ** New runs *)

Section NewRuns.
Context {frame scalar : Type}.
Implicit Types w : @WepyHDF5 frame scalar.
Implicit Types rn : @Run frame scalar.

Lemma _add_init_walkers_eq (n : nat) (init_walkers : list (@Walker frame))
    (grps : list (gmap string frame)) w rn :
  writable w = true →
  f_runs (h5 w) !! n = Some rn →
  Forall2 (fun walker grp => init_walker_grp walker = Ok grp) init_walkers grps →
  _add_init_walkers n init_walkers w
  = (Ok tt, put_run w n (MkRun (r_init_walkers rn ++ grps) (r_trajectories rn)
                               (r_records rn) (r_attrs rn))).
Proof.
  intros Hw Hr Hall. revert w rn Hw Hr. unfold _add_init_walkers.
  induction Hall as [|walker grp init_walkers grps Hgrp Hall IH]; intros w rn Hw Hr.
  - simpl. unfold ret_M. rewrite app_nil_r. rewrite put_run_id; [done|]. by destruct rn.
  - erewrite for_M_cons.
    2:{ apply (modify_run_eq w n rn); [done..|]. by rewrite Hgrp. }
    erewrite IH; [|done|by eapply put_run_lookup].
    rewrite put_run_put_run. simpl. by rewrite <-(assoc_L (++)).
Qed.

(** The attributes of a run after the metadata loop of [new_run], and
    the warnings the loop issues. *)
Lemma new_run_kwargs_eq (n : nat) (kwargs : list (string * attr_val)) w rn :
  writable w = true →
  f_runs (h5 w) !! n = Some rn →
  ∃ attrs,
    for_M kwargs (fun kv =>
      if decide (kv.1 ≠ RUN_IDX)
      then modify_run n (fun r => Ok (set_run_attr r kv.1 kv.2))
      else warn "run_idx metadata is set by wepy and cannot be used") w
    = (Ok tt,
       MkWepy (set_runs (h5 w)
                 (<[n := MkRun (r_init_walkers rn) (r_trajectories rn) (r_records rn) attrs]>
                    (f_runs (h5 w))))
              (writable w)
              (warnings w ++
                 replicate (length (filter (fun kv => kv.1 = RUN_IDX) kwargs))
                           "run_idx metadata is set by wepy and cannot be used")) ∧
    attrs !! RUN_IDX = r_attrs rn !! RUN_IDX.
Proof.
  revert w rn. induction kwargs as [|[k v] kwargs IH]; intros w rn Hw Hr.
  - exists (r_attrs rn). split; [|done]. simpl. unfold ret_M. rewrite app_nil_r.
    rewrite list_insert_id; [by destruct w as [[] ? ?]|]. by destruct rn.
  - rewrite filter_cons. simpl. destruct (decide (k = RUN_IDX)) as [->|Hk].
    + rewrite decide_False by (intros H; by apply H).
      destruct (IH (MkWepy (h5 w) (writable w)
                      (warnings w ++ ["run_idx metadata is set by wepy and cannot be used"]))
                   rn Hw Hr) as (attrs & Hloop & Hattrs).
      exists attrs. split; [|done].
      erewrite bind_M_eq; [|reflexivity]. rewrite Hloop. simpl.
      by rewrite <-(assoc_L (++)).
    + rewrite decide_True by done.
      destruct (IH (put_run w n (set_run_attr rn k v)) (set_run_attr rn k v))
        as (attrs & Hloop & Hattrs); [done|by eapply put_run_lookup|].
      exists attrs. split.
      * erewrite bind_M_eq; [|by apply (modify_run_eq w n rn)]. rewrite Hloop. simpl.
        by rewrite list_insert_insert_eq.
      * rewrite Hattrs. simpl. by rewrite lookup_insert_ne.
Qed.

(** A run created as the continuation of an existing run [c]: [new_run]
    returns the group of the new run, which is stored at the next run
    index [n]; the runs that were in the file are untouched and followed
    by the new run, which has no trajectory, one group per initial
    walker, and the attribute [run_idx] equal to [n] even when the
    metadata carries a [run_idx] of its own; the edge [(n, c)] is added
    to the continuations, so that [c], [n] is a contig afterwards. *)
Theorem new_run_continues w (init_walkers : list (@Walker frame)) (c : nat)
    (kwargs : list (string * attr_val)) (es : list (Z * Z)) :
  writable w = true →
  s_continuations (settings_grp w) = Some es →
  c < num_runs w →
  Forall (fun walker => is_ok (init_walker_grp walker) = true) init_walkers →
  ∃ w' rn',
    new_run init_walkers (Some (Z.of_nat c)) kwargs w = (Ok rn', w') ∧
    f_runs (h5 w') = f_runs (h5 w) ++ [rn'] ∧
    run w' (num_runs w) = Ok rn' ∧
    r_trajectories rn' = [] ∧
    length (r_init_walkers rn') = length init_walkers ∧
    r_attrs rn' !! RUN_IDX = Some (AInt (Z.of_nat (num_runs w))) ∧
    continuations w' = Ok (es ++ [(Z.of_nat (num_runs w), Z.of_nat c)]) ∧
    is_run_contig w' [Z.of_nat c; Z.of_nat (num_runs w)] = Ok true.
Proof.
  intros Hw Hes Hc Hwalkers.
  assert (∃ grps, Forall2 (fun walker grp => init_walker_grp walker = Ok grp)
                          init_walkers grps) as [grps Hgrps].
  { induction Hwalkers as [|walker init_walkers Hok _ [grps IH]]; [by exists []|].
    destruct (init_walker_grp walker) as [grp|] eqn:Hgrp; [|done].
    exists (grp :: grps). by constructor. }
  destruct w as [f wr ws]. simpl in Hw, Hes. subst wr.
  unfold num_runs in *. simpl in *.
  set (n := length (f_runs f)) in *.
  set (w1 := @MkWepy frame scalar (set_runs f (f_runs f ++ [MkRun [] [] ∅ ∅])) true ws).
  assert (f_runs (h5 w1) !! n = Some (MkRun [] [] ∅ ∅)) as Hr1.
  { simpl. by apply list_lookup_middle. }
  set (rn2 := @MkRun frame scalar grps [] ∅ ∅).
  set (rn3 := set_run_attr rn2 RUN_IDX (AInt (Z.of_nat n))).
  set (w3 := put_run w1 n rn3).
  set (es' := es ++ [(Z.of_nat n, Z.of_nat c)]).
  set (w4 := with_settings w3 (set_continuations (settings_grp w3) (Some es'))).
  destruct (new_run_kwargs_eq n kwargs w4 rn3) as (attrs & Hkw & Hattrs); [done|..].
  { unfold w4, w3. simpl. apply list_lookup_insert_eq. rewrite length_app. simpl.
    unfold n. lia. }
  set (rn5 := MkRun (r_init_walkers rn3) (r_trajectories rn3) (r_records rn3) attrs).
  assert (<[n := rn5]> (f_runs (h5 w4)) = f_runs f ++ [rn5]) as Hruns.
  { simpl. rewrite !list_insert_insert_eq.
    replace n with (length (f_runs f) + 0) by (unfold n; lia).
    by rewrite insert_app_r. }
  assert ((f_runs f ++ [rn5]) !! n = Some rn5) as Hlook.
  { by apply list_lookup_middle. }
  eexists. exists rn5.
  split; [|split; [|split; [|split; [|split; [|split; [|split]]]]]].
  - unfold new_run.
    erewrite bind_M_eq; [|reflexivity].
    erewrite bind_M_eq.
    2:{ rewrite bool_decide_eq_true_2; [reflexivity|].
        apply list_elem_of_fmap. exists c. split; [done|]. apply elem_of_seq.
        unfold num_runs. simpl. lia. }
    erewrite bind_M_eq; [|unfold h5_modify; simpl; reflexivity].
    change (next_run_idx (MkWepy f true ws)) with n.
    change (MkWepy (set_runs f (f_runs f ++ [MkRun [] [] ∅ ∅])) true ws) with w1.
    erewrite bind_M_eq;
      [|by apply (_add_init_walkers_eq n init_walkers grps w1 _ eq_refl Hr1)].
    erewrite bind_M_eq.
    2:{ unfold _add_run_init.
        erewrite bind_M_eq.
        2:{ apply (modify_run_eq _ n rn2); [done|by eapply put_run_lookup|done]. }
        rewrite put_run_put_run. fold rn3. fold w3.
        by apply (add_continuation_eq w3 es). }
    fold es'. fold w4.
    erewrite bind_M_eq; [|exact Hkw].
    erewrite bind_M_eq; [|reflexivity]. unfold lift_M, run.
    cbn [h5 f_runs set_runs]. fold rn5. rewrite Hruns, Hlook. reflexivity.
  - cbn [h5 f_runs set_runs]. fold rn5. by rewrite ?Hruns.
  - unfold run. cbn [h5 f_runs set_runs]. fold rn5. by rewrite ?Hruns, Hlook.
  - done.
  - simpl. symmetry. by eapply Forall2_length.
  - simpl. rewrite Hattrs. simpl. apply lookup_insert_eq.
  - done.
  - erewrite is_run_contig_eq; [|done].
    rewrite (proj2 (contig_loop_spec _ _)); [done|].
    intros rc ->%list_elem_of_singleton. apply elem_of_app. right. left.
Qed.
End NewRuns.

(** ** Joining files *)

Section Join.
Context {frame scalar : Type}.
Implicit Types w other : @WepyHDF5 frame scalar.

Lemma join_loop other (pre rest : list Run) w :
  writable w = true →
  f_runs (h5 other) = pre ++ rest →
  for_M (seq (length pre) (length rest)) (fun run_idx =>
    other_run ← lift_M (run other run_idx);
    h5_modify (fun f => set_runs f (f_runs f ++ [other_run]))) w
  = (Ok tt, with_runs w (f_runs (h5 w) ++ rest)).
Proof.
  revert pre w. induction rest as [|rn rest IH]; intros pre w Hw Hruns.
  - simpl. unfold ret_M, with_runs. rewrite app_nil_r. by destruct w as [[] ? ?].
  - cbn [length seq]. erewrite for_M_cons.
    2:{ erewrite bind_M_eq.
        2:{ unfold lift_M, run. rewrite Hruns, list_lookup_middle by done. reflexivity. }
        unfold h5_modify. rewrite Hw. reflexivity. }
    specialize (IH (pre ++ [rn])). rewrite length_app in IH. simpl in IH.
    replace (length pre + 1) with (S (length pre)) in IH by lia.
    rewrite IH; [|done|by rewrite Hruns, <-(assoc_L (++))].
    unfold with_runs. simpl. by rewrite Hw, <-(assoc_L (++)).
Qed.

(** [join] copies the runs of the other file after the runs of this
    file, in order: run [i] of the other file becomes run
    [num_runs + i], as the same group, its [run_idx] attribute included.
    The runs this file had and its settings, the continuations among
    them, are as they were: no continuation of the other file is taken
    over. *)
Theorem join_appends_runs w other :
  writable w = true →
  ∃ w',
    join other w = (Ok tt, w') ∧
    f_runs (h5 w') = f_runs (h5 w) ++ f_runs (h5 other) ∧
    num_runs w' = num_runs w + num_runs other ∧
    (∀ i, i < num_runs w → run w' i = run w i) ∧
    (∀ i rn, run other i = Ok rn → run w' (num_runs w + i) = Ok rn) ∧
    settings_grp w' = settings_grp w ∧
    continuations w' = continuations w.
Proof.
  intros Hw. exists (with_runs w (f_runs (h5 w) ++ f_runs (h5 other))).
  split; [by apply (join_loop other [] (f_runs (h5 other)))|].
  split; [done|]. split; [unfold num_runs; simpl; by rewrite length_app|].
  split; [|split; [|done]].
  - intros i Hi. unfold run. simpl. by rewrite lookup_app_l.
  - intros i rn Hi. unfold run in *. simpl. unfold num_runs.
    rewrite lookup_app_r by lia.
    by replace (length (f_runs (h5 w)) + i - length (f_runs (h5 w))) with i by lia.
Qed.
End Join.

(** ** Record groups from their initialisation on *)

Section RecordInit.
Context {frame scalar : Type}.
Implicit Types w : @WepyHDF5 frame scalar.
Implicit Types rn : @Run frame scalar.










(** Records cannot be read from a run before it has a trajectory: for a
    sporadic group in good order whose manifest is not empty,
    [run_records] raises [KeyError], because the number of cycles of the
    run is read from the positions of its first trajectory. *)
Theorem run_records_without_trajectory w (r : nat) (key : string) (manifest : list string)
    rn (cyc : list nat) (dsets : gmap string (@rec_dset scalar)) :
  key ∈ SPORADIC_RECORDS →
  record_fields w !! key = Some manifest →
  manifest ≠ [] →
  NoDup manifest →
  f_runs (h5 w) !! r = Some rn →
  r_trajectories rn = [] →
  r_records rn !! key = Some (RecGrp (Some cyc) dsets) →
  (∀ f, f ∈ manifest → ∃ d col, dsets !! f = Some d ∧ table_column d = Ok col) →
  run_records w r key = Raise KeyError.
Proof.
  intros Hsp Hm Hne Hnd Hr Htrajs Hg Hcols.
  assert (has_grp w r key (RecGrp (Some cyc) dsets)) as Hhas by (by exists rn).
  unfold run_records, run_contig_records. rewrite Hm. csimpl.
  rewrite bool_decide_eq_false_2 by (by destruct manifest).
  unfold _is_sporadic_records. rewrite bool_decide_eq_true_2 by done.
  unfold _run_records_sporadic. cbn [foldl]. unfold sporadic_pass at 1. csimpl.
  rewrite (convert_columns_eq w r key _ manifest Hhas Hm Hnd) by done. csimpl.
  rewrite (has_grp_records_grp _ _ _ _ Hhas). csimpl.
  unfold num_run_cycles, num_traj_frames, traj, run. rewrite Hr. csimpl.
  by rewrite Htrajs.
Qed.
End RecordInit.

(** ** Sporadic records over a contig *)

Section ContigSporadic.
Context {frame scalar : Type}.
Implicit Types w : @WepyHDF5 frame scalar.







End ContigSporadic.

(** ** The simulation manager *)

Section CountingIterators.
Context {A : Type}.

(** [count] appends to the indices of the iterator the positions 0, 1,
    ... of the items it is given, whatever the indices held before, and
    hands the items back unchanged and in order; a new
    [CountingIterator] therefore holds exactly the positions of its
    items. *)
Theorem count_appends_positions (self_indices : list nat) (iterable : list A) :
  SimManager.count self_indices iterable
    = (self_indices ++ seq 0 (length iterable), iterable)
  ∧ SimManager.indices (SimManager.CountingIterator_init iterable)
    = seq 0 (length iterable)
  ∧ SimManager.iterable (SimManager.CountingIterator_init iterable) = iterable.
Proof.
  assert (Hcount : ∀ idxs (l : list A),
            SimManager.count idxs l = (idxs ++ seq 0 (length l), l)).
  { intros idxs l. unfold SimManager.count.
    induction l as [|x l IH] using rev_ind; [simpl; by rewrite app_nil_r|].
    rewrite imap_app, foldl_app, IH. simpl.
    rewrite length_app, seq_app, Nat.add_0_r, app_assoc. done. }
  split; [apply Hcount|].
  unfold SimManager.CountingIterator_init. rewrite Hcount. done.
Qed.
End CountingIterators.

Section SegmentRuns.
Context {walker data St : Type}.
Context (sys_stdout_write : string -> M St unit).

Lemma zip_replicate_length {B} (xs : list walker) (b : B) :
  zip xs (replicate (length xs) b) = (fun x => (x, b)) <$> xs.
Proof. induction xs as [|x xs IH]; simpl; [done|by rewrite IH]. Qed.

Lemma mapM_M_fmap {X Y Z} (f : Y -> M St Z) (g : X -> Y) (l : list X) (s : St) :
  SimManager.mapM_M f (g <$> l) s = SimManager.mapM_M (fun x => f (g x)) l s.
Proof.
  revert s. induction l as [|x l IH]; intros s; [done|].
  simpl. unfold mbind, M_bind, bind_M.
  destruct (f (g x) s) as [[b|e] s1]; [|done]. by rewrite IH.
Qed.

Lemma mapM_M_returns {X Y} (f : X -> M St Y) (l : list X) :
  (∀ x, SimManager.returns (f x)) →
  ∀ s, ∃ bs s', SimManager.mapM_M f l s = (Ok bs, s') ∧ length bs = length l.
Proof.
  intros Hf. induction l as [|x l IH]; intros s.
  { by exists [], s. }
  destruct (Hf x s) as (b & s1 & Hb).
  destruct (IH s1) as (bs & s2 & Hbs & Hlen).
  exists (b :: bs), s2. split; [|simpl; by rewrite Hlen].
  simpl. unfold mbind, M_bind, bind_M. rewrite Hb, Hbs. done.
Qed.

Lemma run_segment_eq (self : @SimManager.Manager walker data St)
    (walkers : list walker) (segment_length : nat) (s : St) :
  SimManager.work_mapper self = SimManager.py_map →
  SimManager.run_segment sys_stdout_write self walkers segment_length false s
    = SimManager.mapM_M
        (fun wk => SimManager.runner_run_segment (SimManager.runner self) wk segment_length)
        walkers s.
Proof.
  intros Hmap. unfold SimManager.run_segment. rewrite Hmap.
  unfold SimManager.py_map. rewrite zip_replicate_length.
  unfold mbind, M_bind, bind_M, ret_M. simpl.
  rewrite mapM_M_fmap. simpl.
  by destruct (SimManager.mapM_M _ walkers s) as [[ws|e] s1].
Qed.

(** With Python's [map] as the work mapper and without debug prints,
    [run_segment] runs the runner on the walkers one after the other,
    each for the same segment length, the state of the world passing
    from one to the next, so that the first error of the runner is the
    error of the segment; when the runner returns for every walker the
    segment returns one new walker for each walker it was given. *)
Theorem run_segment_runs_every_walker (self : @SimManager.Manager walker data St)
    (walkers : list walker) (segment_length : nat)
    (Hmap : SimManager.work_mapper self = SimManager.py_map) :
  (∀ s, SimManager.run_segment sys_stdout_write self walkers segment_length false s
        = SimManager.mapM_M
            (fun wk => SimManager.runner_run_segment (SimManager.runner self)
                         wk segment_length)
            walkers s)
  ∧ ((∀ wk, SimManager.returns
              (SimManager.runner_run_segment (SimManager.runner self) wk segment_length)) →
     ∀ s, ∃ new_walkers s',
       SimManager.run_segment sys_stdout_write self walkers segment_length false s
         = (Ok new_walkers, s')
       ∧ length new_walkers = length walkers).
Proof.
  split; [intros s; by apply run_segment_eq|].
  intros Hrun s. rewrite run_segment_eq by done.
  by apply mapM_M_returns.
Qed.
End SegmentRuns.

Section ReporterProtocol.
Context {walker data world : Type}.
Context (sys_stdout_write : string -> M (world * list (@SimManager.call walker)) unit).
Context (str_state str_weight : walker -> string).
Context (init_walkers : list walker).
Context (run : walker -> nat -> M world walker).
Context (warp : list walker -> bool -> M world (list walker * data * data * data * data)).
Context (resamp : list walker -> bool -> M world (list walker * data * data)).
Hypothesis run_returns : ∀ wk n, SimManager.returns (run wk n).
Hypothesis warp_returns : ∀ wks dbg, SimManager.returns (warp wks dbg).
Hypothesis resamp_returns : ∀ wks dbg, SimManager.returns (resamp wks dbg).

Local Abbreviation mgr := (SimManager.recorded_manager init_walkers run warp resamp).
Local Abbreviation calls := (list (@SimManager.call walker)).

Lemma beside_log_returns {X} (c : M world X) (w : world) (log : calls) :
  SimManager.returns c →
  ∃ x w', SimManager.beside_log c (w, log) = (Ok x, (w', log)).
Proof.
  intros Hc. destruct (Hc w) as (x & w' & E). exists x, w'.
  unfold SimManager.beside_log. simpl. by rewrite E.
Qed.

Lemma run_segment_recorded (walkers : list walker) (n : nat) (w : world) (log : calls) :
  ∃ new_walkers w',
    SimManager.run_segment sys_stdout_write mgr walkers n false (w, log)
      = (Ok new_walkers, (w', log)).
Proof using run_returns.
  rewrite run_segment_eq by done. simpl.
  revert w. induction walkers as [|wk wks IH]; intros w.
  { by exists [], w. }
  destruct (beside_log_returns (run wk n) w log (run_returns wk n)) as (x & w1 & E).
  destruct (IH w1) as (xs & w2 & E2).
  exists (x :: xs), w2. simpl. unfold mbind, M_bind, bind_M.
  rewrite E, E2. done.
Qed.

Lemma run_cycle_recorded (segment_lengths : list nat) (walkers : list walker)
    (cycle_idx : nat) (w : world) (log : calls) :
  cycle_idx < length segment_lengths →
  ∃ new_walkers resampled w',
    SimManager.run_cycle sys_stdout_write str_state str_weight mgr segment_lengths false
        walkers cycle_idx (w, log)
      = (Ok resampled, (w', log ++ [SimManager.CallReport cycle_idx new_walkers])).
Proof using run_returns warp_returns resamp_returns.
  intros Hlt. destruct (lookup_lt_is_Some_2 segment_lengths cycle_idx Hlt) as [n Hn].
  unfold SimManager.run_cycle. rewrite Hn.
  destruct (run_segment_recorded walkers n w log) as (nw & w1 & E1).
  destruct (warp_returns nw false w1) as (b & w2 & E2).
  destruct (resamp_returns nw false w2) as (r & w3 & E3).
  exists nw, r.1.1, w3.
  unfold mbind, M_bind, bind_M, ret_M, lift_M. simpl.
  rewrite E1. simpl. rewrite E2. simpl. rewrite E3. done.
Qed.

Lemma run_cycles_recorded (segment_lengths : list nat) (k : nat) :
  ∀ (start : nat) (walkers : list walker) (w : world) (log : calls),
    start + k ≤ length segment_lengths →
    ∃ w' wss,
      length wss = k
      ∧ SimManager.run_cycles sys_stdout_write str_state str_weight mgr segment_lengths
            false (seq start k) walkers (w, log)
        = (Ok tt, (w', log ++ zip_with SimManager.CallReport (seq start k) wss)).
Proof using run_returns warp_returns resamp_returns.
  induction k as [|k IH]; intros start walkers w log Hle.
  { exists w, []. simpl. by rewrite app_nil_r. }
  destruct (run_cycle_recorded segment_lengths walkers start w log) as (nw & r & w1 & E);
    [lia|].
  destruct (IH (S start) r w1 (log ++ [SimManager.CallReport start nw])) as (w2 & wss & Hlen & E2);
    [lia|].
  exists w2, (nw :: wss). split; [simpl; by rewrite Hlen|].
  cbn [seq SimManager.run_cycles]. unfold mbind, M_bind, bind_M.
  rewrite E, E2. simpl. by rewrite <-app_assoc.
Qed.

Lemma run_cycles_short (segment_lengths : list nat) (k : nat) :
  ∀ (start : nat) (walkers : list walker) (w : world) (log : calls),
    start + k = length segment_lengths →
    ∀ more, ∃ w' wss,
      length wss = k
      ∧ SimManager.run_cycles sys_stdout_write str_state str_weight mgr segment_lengths
            false (seq start (k + S more)) walkers (w, log)
        = (Raise IndexError, (w', log ++ zip_with SimManager.CallReport (seq start k) wss)).
Proof using run_returns warp_returns resamp_returns.
  induction k as [|k IH]; intros start walkers w log Hle more.
  { exists w, []. split; [done|]. simpl.
    unfold SimManager.run_cycle, mbind, M_bind, bind_M, ret_M, lift_M. simpl.
    rewrite lookup_ge_None_2 by lia. simpl. by rewrite app_nil_r. }
  destruct (run_cycle_recorded segment_lengths walkers start w log) as (nw & r & w1 & E);
    [lia|].
  destruct (IH (S start) r w1 (log ++ [SimManager.CallReport start nw])
              ltac:(lia) more) as (w2 & wss & Hlen & E2).
  exists w2, (nw :: wss). split; [simpl; by rewrite Hlen|].
  cbn [Nat.add seq SimManager.run_cycles]. unfold mbind, M_bind, bind_M.
  rewrite E. cbn [Nat.add] in E2. rewrite E2. simpl. by rewrite <-app_assoc.
Qed.

(** A simulation whose runner, boundary conditions and resampler return
    makes these calls to its reporter, and no other: [init] once, then
    [report] once for each cycle, with the cycle indices 0, 1, ... in
    order, then [cleanup] once; this needs a segment length for every
    cycle. *)
Theorem run_simulation_reporter_calls (n_cycles : nat) (segment_lengths : list nat)
    (w : world)
    (Hlen : n_cycles ≤ length segment_lengths) :
  ∃ w' reported,
    length reported = n_cycles
    ∧ SimManager.run_simulation sys_stdout_write str_state str_weight mgr n_cycles
          segment_lengths false (w, [])
      = (Ok tt, (w', [SimManager.CallInit]
                       ++ zip_with SimManager.CallReport (seq 0 n_cycles) reported
                       ++ [SimManager.CallCleanup])).
Proof using run_returns warp_returns resamp_returns.
  destruct (run_cycles_recorded segment_lengths n_cycles 0 init_walkers w
              [SimManager.CallInit] ltac:(lia)) as (w' & wss & Hwss & E).
  exists w', wss. split; [done|].
  unfold SimManager.run_simulation, mbind, M_bind, bind_M, ret_M. simpl.
  simpl in E. rewrite E. done.
Qed.

(** When there are fewer segment lengths than cycles, the simulation
    runs and reports the cycles that have a segment length, then raises
    [IndexError]; the reporter has been initialised and is never
    cleaned up. *)
Theorem run_simulation_short_segment_lengths (n_cycles : nat)
    (segment_lengths : list nat) (w : world)
    (Hlen : length segment_lengths < n_cycles) :
  ∃ w' reported,
    length reported = length segment_lengths
    ∧ SimManager.run_simulation sys_stdout_write str_state str_weight mgr n_cycles
          segment_lengths false (w, [])
      = (Raise IndexError,
         (w', [SimManager.CallInit]
                ++ zip_with SimManager.CallReport (seq 0 (length segment_lengths))
                     reported)).
Proof using run_returns warp_returns resamp_returns.
  destruct (run_cycles_short segment_lengths (length segment_lengths) 0 init_walkers w
              [SimManager.CallInit] eq_refl (n_cycles - length segment_lengths - 1))
    as (w' & wss & Hwss & E).
  exists w', wss. split; [done|].
  unfold SimManager.run_simulation, mbind, M_bind, bind_M, ret_M. simpl.
  replace (length segment_lengths + S (n_cycles - length segment_lengths - 1))
    with n_cycles in E by lia.
  simpl in E. rewrite E. done.
Qed.

Lemma bind_keeps_raise {X Y} (P : X -> Prop) (e : pyerr)
    (c : M (world * calls) X) (k : X -> M (world * calls) Y) :
  (∀ w (log : calls), ∃ a w', c (w, log) = (Ok a, (w', log)) ∧ P a) →
  (∀ a, P a → ∀ w (log : calls), ∃ w', k a (w, log) = (Raise e, (w', log))) →
  ∀ w (log : calls), ∃ w', (c ≫= k) (w, log) = (Raise e, (w', log)).
Proof.
  intros Hc Hk w log. destruct (Hc w log) as (a & w1 & E & HP).
  destruct (Hk a HP w1 log) as (w2 & E2). exists w2.
  unfold mbind, M_bind, bind_M. by rewrite E.
Qed.

Lemma bind_keeps_ok {X Y} (P : X -> Prop) (Q : Y -> Prop)
    (c : M (world * calls) X) (k : X -> M (world * calls) Y) :
  (∀ w (log : calls), ∃ a w', c (w, log) = (Ok a, (w', log)) ∧ P a) →
  (∀ a, P a → ∀ w (log : calls), ∃ b w', k a (w, log) = (Ok b, (w', log)) ∧ Q b) →
  ∀ w (log : calls), ∃ b w', (c ≫= k) (w, log) = (Ok b, (w', log)) ∧ Q b.
Proof.
  intros Hc Hk w log. destruct (Hc w log) as (a & w1 & E & HP).
  destruct (Hk a HP w1 log) as (b & w2 & E2 & HQ). exists b, w2.
  unfold mbind, M_bind, bind_M. by rewrite E.
Qed.

Lemma beside_log_keeps {X} (P : X -> Prop) (c : M world X) :
  (∀ s, ∃ a s', c s = (Ok a, s') ∧ P a) →
  ∀ w (log : calls), ∃ a w', SimManager.beside_log c (w, log) = (Ok a, (w', log)) ∧ P a.
Proof.
  intros Hc w log. destruct (Hc w) as (a & w' & E & HP). exists a, w'.
  unfold SimManager.beside_log. simpl. by rewrite E.
Qed.

Lemma returns_keeps {X} (c : M world X) :
  SimManager.returns c →
  ∀ w (log : calls), ∃ a w', SimManager.beside_log c (w, log) = (Ok a, (w', log)) ∧ True.
Proof.
  intros Hc. apply beside_log_keeps. intros s. destruct (Hc s) as (a & s' & E). eauto.
Qed.

Lemma bind_raises {X Y} (e : pyerr)
    (c : M (world * calls) X) (k : X -> M (world * calls) Y) :
  (∀ w (log : calls), ∃ w', c (w, log) = (Raise e, (w', log))) →
  ∀ w (log : calls), ∃ w', (c ≫= k) (w, log) = (Raise e, (w', log)).
Proof.
  intros Hc w log. destruct (Hc w log) as (w' & E). exists w'.
  unfold mbind, M_bind, bind_M. by rewrite E.
Qed.

Lemma py_print_keeps (write : string -> M world unit) (text : string) :
  (∀ text, SimManager.returns (write text)) →
  ∀ w (log : calls), ∃ a w',
    SimManager.py_print (fun text => SimManager.beside_log (write text)) text (w, log)
    = (Ok a, (w', log)) ∧ True.
Proof.
  intros Hwrite. unfold SimManager.py_print.
  apply (bind_keeps_ok (fun _ => True)); [by apply returns_keeps|]. intros _ _.
  by apply returns_keeps.
Qed.

Lemma run_segment_debug_recorded (write : string -> M world unit)
    (walkers : list walker) (n : nat) :
  (∀ text, SimManager.returns (write text)) →
  ∀ w (log : calls), ∃ new_walkers w',
    SimManager.run_segment (fun text => SimManager.beside_log (write text)) mgr walkers n
      true (w, log)
    = (Ok new_walkers, (w', log)) ∧ True.
Proof using run_returns.
  intros Hwrite. unfold SimManager.run_segment.
  apply (bind_keeps_ok (fun _ => True)); [by apply returns_keeps|]. intros _ _.
  apply (bind_keeps_ok (fun _ => True)).
  { simpl. unfold SimManager.py_map.
    generalize (zip walkers (replicate (length walkers) n)). intros l.
    induction l as [|x l IH]; intros w log; [by exists [], w|].
    simpl. revert w log.
    apply (bind_keeps_ok (fun _ => True)); [by apply returns_keeps|]. intros b _.
    apply (bind_keeps_ok (fun _ => True)); [exact IH|]. intros bs _ w log.
    by exists (b :: bs), w. }
  intros nw _.
  apply (bind_keeps_ok (fun _ => True)); [by apply returns_keeps|]. intros _ _ w log.
  by exists nw, w.
Qed.

(** With debug prints, the table of the walkers after resampling has
    one column for each walker the simulation started with: when the
    resampler returns fewer walkers, the first cycle raises [IndexError]
    while it prints the table, before the cycle is reported; the
    reporter has been initialised and is never cleaned up. *)
Theorem run_simulation_debug_prints_need_walkers (write : string -> M world unit)
    (n_cycles : nat) (segment_lengths : list nat) (w : world)
    (Hwrite : ∀ text, SimManager.returns (write text))
    (Hfewer : ∀ wks dbg s r s',
        resamp wks dbg s = (Ok r, s') → length r.1.1 < length init_walkers)
    (Hcycles : 0 < n_cycles)
    (Hlens : segment_lengths ≠ []) :
  ∃ w',
    SimManager.run_simulation (fun text => SimManager.beside_log (write text))
        str_state str_weight mgr n_cycles segment_lengths true (w, [])
    = (Raise IndexError, (w', [SimManager.CallInit])).
Proof using run_returns warp_returns resamp_returns.
  destruct n_cycles as [|n']; [lia|]. destruct segment_lengths as [|len lens]; [done|].
  unfold SimManager.run_simulation.
  destruct (Hwrite ("Starting simulation" +:+ SimManager.nl) w) as ([] & w0 & E0).
  erewrite bind_M_eq; [|unfold SimManager.beside_log; simpl; by rewrite E0].
  erewrite bind_M_eq; [|reflexivity]. simpl.
  assert (Hcycle : ∀ w1 (log : calls), ∃ w',
    SimManager.run_cycle (fun text => SimManager.beside_log (write text))
        str_state str_weight mgr (len :: lens) true init_walkers 0 (w1, log)
    = (Raise IndexError, (w', log))).
  { unfold SimManager.run_cycle.
    apply (bind_keeps_raise (fun _ => True)); [by apply returns_keeps|]. intros _ _.
    apply (bind_keeps_raise (fun _ => True)); [intros w1 log; by exists len, w1|].
    intros seg _.
    apply (bind_keeps_raise (fun _ => True)); [by apply run_segment_debug_recorded|].
    intros nw _.
    apply (bind_keeps_raise (fun _ => True)); [by apply returns_keeps|]. intros _ _.
    apply (bind_keeps_raise (fun _ => True)); [by apply returns_keeps|]. intros b _.
    apply (bind_keeps_raise (fun r => length r.1.1 < length init_walkers)).
    { apply beside_log_keeps. intros s.
      destruct (resamp_returns nw true s) as (r & s' & E). exists r, s'.
      split; [done|]. by eapply Hfewer. }
    intros r Hr. apply bind_raises.
    apply (bind_keeps_raise (fun _ => True)); [by apply py_print_keeps|]. intros _ _.
    apply (bind_keeps_raise (fun _ => True)); [by apply py_print_keeps|]. intros _ _.
    apply bind_raises. intros w1 log. exists w1.
    unfold lift_M, SimManager.result_template_format. simpl.
    rewrite length_fmap, length_seq, bool_decide_eq_true_2 by lia. done. }
  destruct (Hcycle w0 [SimManager.CallInit]) as (w' & E). exists w'.
  cbn [seq SimManager.run_cycles]. unfold mbind, M_bind, bind_M. by rewrite E.
Qed.
End ReporterProtocol.

Lemma bind_M_ext {S A B} (c : M S A) (k1 k2 : A -> M S B) (s : S) :
  (∀ a s', k1 a s' = k2 a s') → (c ≫= k1) s = (c ≫= k2) s.
Proof.
  intros H. unfold mbind, M_bind, bind_M. destruct (c s) as [[a|e] s']; [apply H|done].
Qed.

Lemma bind_M_rel {S A A' B} (c1 : M S A) (c2 : M S A')
    (k1 : A -> M S B) (k2 : A' -> M S B) (s : S) :
  match c1 s, c2 s with
  | (Ok a, s1), (Ok a', s2) => k1 a s1 = k2 a' s2
  | (Raise e, s1), (Raise e', s2) => e = e' ∧ s1 = s2
  | _, _ => False
  end →
  (c1 ≫= k1) s = (c2 ≫= k2) s.
Proof.
  unfold mbind, M_bind, bind_M.
  destruct (c1 s) as [[a|e] s1], (c2 s) as [[a'|e'] s2]; try done.
  by intros [-> ->].
Qed.

Section WarpedWalkers.
Context {walker data St : Type}.
Context (sys_stdout_write : string -> M St unit).
Context (str_state str_weight : walker -> string).
Context (init_walkers : list walker) (n_init_walkers : nat) (num_workers : option nat).
Context (runner : @SimManager.Runner walker St).
Context (resampler : @SimManager.Resampler walker data St).
Context (work_mapper : (walker -> nat -> M St walker) -> list walker -> list nat
                       -> M St (list walker)).
Context (reporter : @SimManager.Reporter walker data St).

Local Abbreviation manager_with bc :=
  (SimManager.MkManager init_walkers n_init_walkers num_workers runner resampler bc
     work_mapper reporter).

Lemma run_cycle_without_warped (bc1 bc2 : @SimManager.BoundaryConditions walker data St)
    (segment_lengths : list nat) (debug_prints : bool) (walkers : list walker)
    (cycle_idx : nat) (s : St) :
  (∀ wks dbg s0, SimManager.without_warped (SimManager.warp_walkers bc1 wks dbg s0)
                 = SimManager.without_warped (SimManager.warp_walkers bc2 wks dbg s0)) →
  SimManager.run_cycle sys_stdout_write str_state str_weight (manager_with bc1)
      segment_lengths debug_prints walkers cycle_idx s
  = SimManager.run_cycle sys_stdout_write str_state str_weight (manager_with bc2)
      segment_lengths debug_prints walkers cycle_idx s.
Proof.
  intros Hbc. unfold SimManager.run_cycle.
  do 4 (apply bind_M_ext; intros ? ?).
  apply bind_M_rel. simpl.
  specialize (Hbc a1 debug_prints s'2). unfold SimManager.without_warped in Hbc.
  destruct (SimManager.warp_walkers bc1 a1 debug_prints s'2) as [[b1|e6] s5],
           (SimManager.warp_walkers bc2 a1 debug_prints s'2) as [[b2|e7] s6];
    simpl in Hbc; try done; [|by simplify_eq].
  destruct b1 as [[[[ww1 x1] x2] x3] x4], b2 as [[[[ww2 y1] y2] y3] y4].
  simpl in Hbc. simplify_eq. reflexivity.
Qed.

(** The warped walkers that the boundary conditions return are never
    used: two simulations that differ only in them, the boundary
    conditions giving the same records, auxiliary data, errors and
    changes of the world, behave the same, with or without debug prints.
    The resampler and the reporter are given the walkers as the runner
    left them. *)
Theorem run_simulation_ignores_warped_walkers
    (bc1 bc2 : @SimManager.BoundaryConditions walker data St)
    (Hbc : ∀ wks dbg s0,
        SimManager.without_warped (SimManager.warp_walkers bc1 wks dbg s0)
        = SimManager.without_warped (SimManager.warp_walkers bc2 wks dbg s0))
    (n_cycles : nat) (segment_lengths : list nat) (debug_prints : bool) (s : St) :
  SimManager.run_simulation sys_stdout_write str_state str_weight (manager_with bc1)
      n_cycles segment_lengths debug_prints s
  = SimManager.run_simulation sys_stdout_write str_state str_weight (manager_with bc2)
      n_cycles segment_lengths debug_prints s.
Proof.
  assert (Hloop : ∀ cycle_idxs walkers s0,
    SimManager.run_cycles sys_stdout_write str_state str_weight (manager_with bc1)
        segment_lengths debug_prints cycle_idxs walkers s0
    = SimManager.run_cycles sys_stdout_write str_state str_weight (manager_with bc2)
        segment_lengths debug_prints cycle_idxs walkers s0).
  { induction cycle_idxs as [|c cs IH]; intros walkers s0; [done|].
    simpl. unfold mbind, M_bind, bind_M.
    rewrite (run_cycle_without_warped bc1 bc2) by done.
    destruct (SimManager.run_cycle _ _ _ _ _ _ _ _ s0) as [[ws|e] s1]; [|done].
    apply IH. }
  unfold SimManager.run_simulation.
  do 2 (apply bind_M_ext; intros ? ?). simpl.
  unfold mbind, M_bind, bind_M. by rewrite Hloop.
Qed.
End WarpedWalkers.

(** ** Decision models *)

Section Decisions.
Context {A : Type}.

(** [NoCloneMerge.decide] returns the empty list for no novelties and
    raises [AttributeError] as soon as there is one: it reads the member
    [NOTHING] of [Decision], which has no members; [CloneMergeDecision]
    is the class that has it. *)
Theorem decide_without_members (novelties : list A) :
  DecisionModels.decide novelties
    = (if decide (novelties = []) then Ok [] else Raise AttributeError)
  ∧ DecisionModels.enum_getattr DecisionModels.CloneMergeDecision "NOTHING"
    = Ok ("NOTHING", 1%Z).
Proof.
  split; [|done].
  destruct novelties as [|x l]; [done|].
  rewrite decide_False by done. done.
Qed.
End Decisions.

(** ** The record fields of the settings *)

Section RecordFields.
Context {frame scalar : Type}.
Implicit Types w : @WepyHDF5 frame scalar.

Lemma fill_record_fields (run_record_key : string) (suffix : list string) :
  ∀ (pre : list string) w (m : gmap string (list string)),
    writable w = true →
    record_fields w
      = <[run_record_key := pre ++ replicate (length suffix) EmptyString]> m →
    for_M (imap (fun i => pair (length pre + i)) suffix) (fun it =>
      modify_settings (fun st =>
        set_record_fields st
          (alter (fun ds => <[it.1 := it.2]> ds) run_record_key (s_record_fields st)))) w
    = (Ok tt, with_settings w (set_record_fields (settings_grp w)
                                 (<[run_record_key := pre ++ suffix]> m))).
Proof.
  induction suffix as [|x suffix IH]; intros pre w m Hw Hm.
  { simpl in *. rewrite app_nil_r in *. unfold record_fields in Hm. rewrite <-Hm.
    destruct w as [[t u st rs] wr ws]. by destruct st. }
  cbn [imap]. erewrite for_M_cons; [|by apply modify_settings_eq].
  rewrite (imap_ext _ (fun i => pair (length (pre ++ [x]) + i)));
    [|intros i y _; rewrite length_app; simpl; f_equal; lia].
  rewrite (IH (pre ++ [x]) _ m); [| done |].
  - f_equal. destruct w as [[t u st rs] wr ws]. unfold with_settings. simpl.
    by rewrite <-app_assoc.
  - unfold record_fields in *. destruct w as [[t u st rs] wr ws]. simpl in *.
    rewrite Hm, alter_insert_eq. f_equal. simpl.
    rewrite Nat.add_0_r, insert_app_r_alt, Nat.sub_diag by lia.
    by rewrite <-app_assoc.
Qed.

(** In a writable archive that names no record fields for a record
    group yet, [init_record_fields] makes the given field names, in their
    order, the record fields of the group and changes nothing else; the
    group cannot be given record fields a second time: that raises and
    leaves the archive as it is. *)
Theorem init_record_fields_read_back w (run_record_key : string)
    (fields fields' : list string)
    (Hw : writable w = true)
    (Hnew : record_fields w !! run_record_key = None) :
  ∃ w',
    init_record_fields run_record_key fields w = (Ok tt, w')
    ∧ w' = with_settings w (set_record_fields (settings_grp w)
                              (<[run_record_key := fields]> (record_fields w)))
    ∧ record_fields w' !! run_record_key = Some fields
    ∧ init_record_fields run_record_key fields' w' = (Raise H5Error, w').
Proof.
  eexists. split; [|split; [reflexivity|split]].
  - unfold init_record_fields. unfold record_fields in Hnew.
    erewrite bind_M_eq; [|reflexivity].
    erewrite bind_M_eq; [|unfold lift_M, create_in; by rewrite Hnew].
    erewrite bind_M_eq; [|by apply modify_settings_eq].
    rewrite (fill_record_fields run_record_key fields [] _ (record_fields w)); [| done |].
    + simpl. destruct w as [[t u st rs] wr ws]. done.
    + destruct w as [[t u st rs] wr ws]. done.
  - destruct w as [[t u st rs] wr ws]. unfold record_fields. simpl.
    by rewrite lookup_insert_eq.
  - unfold init_record_fields.
    erewrite bind_M_eq; [|reflexivity].
    destruct w as [[t u st rs] wr ws].
    unfold mbind, M_bind, bind_M, lift_M, create_in. simpl.
    by rewrite lookup_insert_eq.
Qed.
End RecordFields.

(** * The further properties on the small inputs *)

Lemma run_traj_idx_tuples_exact_witness :
  num_trajs ex_w = Ok 9 ∧
  run_traj_idx_tuples ex_w (Some [0; 5; 1]) = Raise KeyError.
Proof.
  destruct (run_traj_idx_tuples_exact ex_w) as [(tups & Htups & Hnum & _) Hmissing].
  split.
  - rewrite Hnum. vm_compute in Htups. injection Htups as <-. reflexivity.
  - apply (Hmissing [0] 5 [1]).
    + intros x Hx. split_elem Hx. vm_compute. lia.
    + vm_compute. lia.
Defined.

Lemma iter_runs_file_order_witness :
  iter_runs ex_w true (Some [2; 7; 0; 2])
  = Ok [IdxObj 0 (ex_run 0 5); IdxObj 2 ex_sparse_run] ∧
  iter_runs ex_w true (Some [0; 7; 2]) = iter_runs ex_w true (Some [2; 7; 0; 2]).
Proof.
  destruct (iter_runs_file_order ex_w [2; 7; 0; 2]) as (out & Hout & _ & Hsame).
  split.
  - rewrite Hout. vm_compute in Hout. injection Hout as <-. reflexivity.
  - rewrite Hout. apply Hsame. intros r. rewrite !elem_of_cons. naive_solver.
Defined.

Lemma sparse_cycle_idxs_place_rows_witness :
  get_traj_field_cycle_idxs ex_w 2 0 "velocities" = Ok [2; 5; 9] ∧
  get_traj_field ex_w 2 0 "velocities" None false = Ok (Plain [902; 905; 909]) ∧
  ∃ filled_data mask,
    get_traj_field ex_w 2 0 "velocities" None true = Ok (Masked filled_data mask) ∧
    length filled_data = 10 ∧
    filled_data !! 5 = Some (Some 905) ∧ mask !! 5 = Some false ∧
    filled_data !! 6 = Some None ∧ mask !! 6 = Some true.
Proof.
  destruct (sparse_cycle_idxs_place_rows ex_w 2 0 "velocities" ex_sparse_traj
              (ex_positions 2 0 10) [902; 905; 909] [2; 5; 9])
    as (Hidxs & Hplain & filled_data & mask & Hread & Hlen & _ & Hrows & Hgaps).
  - reflexivity.
  - reflexivity.
  - reflexivity.
  - apply list_elem_of_here.
  - reflexivity.
  - compute_done.
  - compute_done.
  - split; [exact Hidxs|]. split; [exact Hplain|].
    exists filled_data, mask. split; [exact Hread|]. split; [exact Hlen|].
    destruct (Hrows 1 5 905 eq_refl eq_refl) as [Hd Hm].
    destruct (Hgaps 6) as [Hd' Hm']; [vm_compute; lia|compute_done|].
    done.
Defined.

Lemma get_trace_fields_dense_witness :
  ∃ frame_fields col,
    get_trace_fields ex_w [(1, 2, 1); (0, 3, 4); (0, 0, 0)] [POSITIONS] = Ok frame_fields ∧
    frame_fields !! POSITIONS = Some col ∧
    length col = 3 ∧
    col !! 0 = Some (Some 121) ∧ col !! 1 = Some (Some 34) ∧ col !! 2 = Some (Some 0) ∧
    get_run_trace_fields ex_w 0 [(3, 4); (0, 0)] [POSITIONS]
    = get_trace_fields ex_w [(0, 3, 4); (0, 0, 0)] [POSITIONS].
Proof.
  destruct (get_trace_fields_dense ex_w [(1, 2, 1); (0, 3, 4); (0, 0, 0)] [POSITIONS])
    as (frame_fields & Hread & Hcols & _).
  - compute_done.
  - intros field Hf. split_elem Hf. compute_done.
  - intros r t c field Hin Hf. split_elem Hf.
    split_elem Hin; simplify_eq; eexists; (split; [reflexivity|]); vm_compute; lia.
  - destruct (Hcols POSITIONS) as (col & Hcol & Hlen & Hcells); [apply list_elem_of_here|].
    exists frame_fields, col. split; [exact Hread|]. split; [exact Hcol|].
    split; [exact Hlen|].
    split; [exact (Hcells 0 1 2 1 _ eq_refl eq_refl)|].
    split; [exact (Hcells 1 0 3 4 _ eq_refl eq_refl)|].
    split; [exact (Hcells 2 0 0 0 _ eq_refl eq_refl)|].
    destruct (get_trace_fields_dense ex_w [(0, 3, 4); (0, 0, 0)] [POSITIONS])
      as (frame_fields' & Hread' & _ & Hrun).
    + compute_done.
    + intros field Hf. split_elem Hf. compute_done.
    + intros r t c field Hin Hf. split_elem Hf.
      split_elem Hin; simplify_eq; eexists; (split; [reflexivity|]); vm_compute; lia.
    + rewrite Hread'. apply Hrun. reflexivity.
Defined.

Lemma get_run_trace_fields_sparse_witness :
  ∃ frame_fields,
    get_run_trace_fields ex_w 2 [(0, 9); (0, 2); (0, 2); (0, 12); (0, 3)] ["velocities"]
    = Ok frame_fields ∧
    frame_fields !! "velocities" = Some [Some 909; Some 902; Some 902; None; None].
Proof.
  exact (get_run_trace_fields_sparse ex_w 2 0 [9; 2; 2; 12; 3] "velocities" ex_sparse_traj
           (ex_positions 2 0 10) [902; 905; 909] [2; 5; 9]
           eq_refl eq_refl eq_refl (list_elem_of_here _ _) eq_refl eq_refl).
Defined.

Lemma add_run_observable_read_back_witness :
  ∃ w',
    add_run_observable 1 "rmsd" ex_observable None ex_w = (Ok tt, w') ∧
    settings_grp w' = settings_grp ex_w ∧
    get_traj_field w' 1 2 "observables/rmsd" None true = Ok (Plain [7; 8; 9]).
Proof.
  destruct (add_run_observable_read_back ex_w 1 "rmsd" ex_observable (ex_run 1 3) 3)
    as (w' & Hadd & Hset & _ & Hread & _).
  - reflexivity.
  - reflexivity.
  - reflexivity.
  - reflexivity.
  - repeat constructor.
  - repeat constructor.
  - compute_done.
  - exists w'. split; [exact Hadd|]. split; [exact Hset|].
    exact (Hread 2 [7; 8; 9] eq_refl).
Defined.

Lemma add_run_field_rejects_witness :
  _add_run_field 1 "observables/rmsd" (DataArr [[1; 2; 3]]) None ex_w
  = (Raise AssertionError, ex_w) ∧
  _add_run_field 1 "observables/rmsd"
    (DataArr [[1; 2; 3]; [4; 5]; [7; 8; 9]; [10; 11; 12]]) None ex_w
  = (Raise ValueError, ex_w) ∧
  _add_run_field 1 "observables/rmsd"
    (DataArr [[1; 2; 3; 4]; [4; 5; 6; 7]; [7; 8; 9; 10]; [10; 11; 12; 13]]) None ex_w
  = (Raise ValueError, ex_w) ∧
  _add_run_field 1 "observables/rmsd"
    (DataArr [[1; 2; 3]; [4; 5; 6; 7]; [7; 8; 9]; [10; 11; 12]]) None ex_w
  = (Raise IndexError, ex_w) ∧
  _add_run_field 1 "observables/rmsd"
    (DataArr [[1]; [4]; [7]; [10]]) (Some [[0]; [1]; [2]; [0]]) ex_w
  = (Raise ValueError, ex_w).
Proof.
  destruct (add_run_field_rejects ex_w 1 "observables/rmsd" (ex_run 1 3) 3
              [[1; 2; 3]; [4; 5]; [7; 8; 9]; [10; 11; 12]] eq_refl eq_refl)
    as (Hcount & Hshort & _ & _).
  destruct (add_run_field_rejects ex_w 1 "observables/rmsd" (ex_run 1 3) 3
              [[1; 2; 3; 4]; [4; 5; 6; 7]; [7; 8; 9; 10]; [10; 11; 12; 13]]
              eq_refl eq_refl)
    as (_ & Hlong & _ & _).
  destruct (add_run_field_rejects ex_w 1 "observables/rmsd" (ex_run 1 3) 3
              [[1; 2; 3]; [4; 5; 6; 7]; [7; 8; 9]; [10; 11; 12]] eq_refl eq_refl)
    as (_ & _ & Hragged & _).
  destruct (add_run_field_rejects ex_w 1 "observables/rmsd" (ex_run 1 3) 3
              [[1]; [4]; [7]; [10]] eq_refl eq_refl)
    as (_ & _ & _ & Hsparse).
  split; [|split; [|split; [|split]]].
  - apply Hcount. vm_compute. lia.
  - apply Hshort; [reflexivity| |].
    + apply Exists_cons_tl, Exists_cons_hd. simpl. lia.
    + left. repeat constructor; simpl; lia.
  - apply Hlong; [reflexivity| |].
    + apply Exists_cons_hd. simpl. lia.
    + right. exists 4. repeat constructor.
  - apply (Hragged [[1; 2; 3]] [4; 5; 6; 7] [[7; 8; 9]; [10; 11; 12]]);
      [reflexivity|reflexivity| | |].
    + repeat constructor.
    + simpl. lia.
    + apply Exists_cons_hd. simpl. lia.
  - apply Hsparse; [reflexivity|reflexivity| |].
    + repeat constructor; simpl; lia.
    + apply Exists_cons_hd. simpl. lia.
Defined.

Lemma new_run_continues_witness :
  ∃ w' rn',
    new_run [ex_walker; ex_walker] (Some 2%Z) [(RUN_IDX, AInt 7)] ex_w = (Ok rn', w') ∧
    f_runs (h5 w') = f_runs (h5 ex_w) ++ [rn'] ∧
    run w' 3 = Ok rn' ∧
    r_trajectories rn' = [] ∧
    length (r_init_walkers rn') = 2 ∧
    r_attrs rn' !! RUN_IDX = Some (AInt 3) ∧
    continuations w' = Ok [(1, 0); (2, 1); (3, 2)]%Z ∧
    is_run_contig w' [2; 3]%Z = Ok true.
Proof.
  exact (new_run_continues ex_w [ex_walker; ex_walker] 2 [(RUN_IDX, AInt 7)]
           [(1, 0); (2, 1)]%Z eq_refl eq_refl ltac:(vm_compute; lia)
           ltac:(repeat constructor)).
Defined.

Lemma join_appends_runs_witness :
  ∃ w',
    join ex_w_empty_run ex_w = (Ok tt, w') ∧
    f_runs (h5 w') = [ex_run 0 5; ex_run 1 3; ex_sparse_run; ex_empty_run] ∧
    run w' 3 = Ok ex_empty_run ∧
    continuations w' = Ok [(1, 0); (2, 1)]%Z.
Proof.
  destruct (join_appends_runs ex_w ex_w_empty_run eq_refl)
    as (w' & Hjoin & Hruns & _ & _ & Hother & _ & Hconts).
  exists w'. split; [exact Hjoin|]. split; [exact Hruns|].
  split; [exact (Hother 0 ex_empty_run eq_refl)|exact Hconts].
Defined.


Lemma run_records_without_trajectory_witness :
  run_records ex_w_empty_run 0 RESAMPLING = Raise KeyError.
Proof.
  apply (run_records_without_trajectory ex_w_empty_run 0 RESAMPLING
           ["decision_id"; "target_idxs"] ex_empty_run [0; 0; 2] (g_dsets ex_resampling)).
  - compute_done.
  - reflexivity.
  - discriminate.
  - compute_done.
  - reflexivity.
  - reflexivity.
  - reflexivity.
  - intros f Hf. split_elem Hf; do 2 eexists; split; reflexivity.
Defined.


Lemma run_segment_runs_every_walker_witness :
  SimManager.run_segment ex_stdout_write ex_manager [1; 2; 3] 10 false 0
  = (Ok [11; 12; 13], 30).
Proof.
  destruct (run_segment_runs_every_walker ex_stdout_write ex_manager [1; 2; 3] 10 eq_refl)
    as [Heq _].
  rewrite Heq. reflexivity.
Defined.

Lemma run_simulation_reporter_calls_witness :
  ∃ steps reported,
    length reported = 2 ∧
    SimManager.run_simulation ex_stdout_write (fun _ => EmptyString) (fun _ => EmptyString)
      (SimManager.recorded_manager [1; 2; 3] ex_run_segment ex_warp_walkers ex_resample)
      2 [10; 20] false (0, [])
    = (Ok tt, (steps, [SimManager.CallInit]
                        ++ zip_with SimManager.CallReport [0; 1] reported
                        ++ [SimManager.CallCleanup])).
Proof.
  apply (run_simulation_reporter_calls ex_stdout_write (fun _ => EmptyString)
           (fun _ => EmptyString) [1; 2; 3] ex_run_segment ex_warp_walkers ex_resample).
  - intros wk n s. by eexists _, _.
  - intros wks dbg s. by eexists _, _.
  - intros wks dbg s. by eexists _, _.
  - simpl. lia.
Defined.

Lemma run_simulation_short_segment_lengths_witness :
  ∃ steps reported,
    length reported = 1 ∧
    SimManager.run_simulation ex_stdout_write (fun _ => EmptyString) (fun _ => EmptyString)
      (SimManager.recorded_manager [1; 2; 3] ex_run_segment ex_warp_walkers ex_resample)
      3 [10] false (0, [])
    = (Raise IndexError,
       (steps, [SimManager.CallInit] ++ zip_with SimManager.CallReport [0] reported)).
Proof.
  unshelve eapply (run_simulation_short_segment_lengths ex_stdout_write
                     (fun _ => EmptyString) (fun _ => EmptyString) [1; 2; 3]
                     ex_run_segment ex_warp_walkers ex_resample _ _ _ 3 [10] 0 _).
  - intros wk n s. by eexists _, _.
  - intros wks dbg s. by eexists _, _.
  - intros wks dbg s. by eexists _, _.
  - simpl. lia.
Defined.

Lemma run_simulation_debug_prints_need_walkers_witness :
  ∃ steps,
    SimManager.run_simulation
      (fun text => SimManager.beside_log (ex_stdout_write text))
      (fun _ => EmptyString) (fun _ => EmptyString)
      (SimManager.recorded_manager [1; 2; 3] ex_run_segment ex_warp_walkers
         ex_resample_two)
      2 [10; 20] true (0, [])
    = (Raise IndexError, (steps, [SimManager.CallInit])).
Proof.
  unshelve eapply (run_simulation_debug_prints_need_walkers (fun _ => EmptyString)
                     (fun _ => EmptyString) [1; 2; 3] ex_run_segment ex_warp_walkers
                     ex_resample_two _ _ _ ex_stdout_write 2 [10; 20] 0 _ _ _ _).
  - intros wk n s. by eexists _, _.
  - intros wks dbg s. by eexists _, _.
  - intros wks dbg s. by eexists _, _.
  - intros text s. by eexists _, _.
  - intros wks dbg s r s' E. injection E as <- _. simpl. rewrite length_take. lia.
  - lia.
  - discriminate.
Defined.

Lemma run_simulation_ignores_warped_walkers_witness :
  SimManager.run_simulation ex_stdout_write (fun _ => EmptyString) (fun _ => EmptyString)
    (SimManager.MkManager [1; 2; 3] 3 None (SimManager.MkRunner ex_run_segment)
       (SimManager.MkResampler ex_resample)
       (SimManager.MkBoundaryConditions ex_warp_walkers) SimManager.py_map ex_reporter)
    2 [10; 20] true 0
  = SimManager.run_simulation ex_stdout_write (fun _ => EmptyString) (fun _ => EmptyString)
      (SimManager.MkManager [1; 2; 3] 3 None (SimManager.MkRunner ex_run_segment)
         (SimManager.MkResampler ex_resample)
         (SimManager.MkBoundaryConditions ex_warp_to_nothing) SimManager.py_map ex_reporter)
      2 [10; 20] true 0.
Proof.
  apply (run_simulation_ignores_warped_walkers ex_stdout_write (fun _ => EmptyString)
           (fun _ => EmptyString) [1; 2; 3] 3 None (SimManager.MkRunner ex_run_segment)
           (SimManager.MkResampler ex_resample) SimManager.py_map ex_reporter
           (SimManager.MkBoundaryConditions ex_warp_walkers)
           (SimManager.MkBoundaryConditions ex_warp_to_nothing)).
  intros wks dbg s0. reflexivity.
Defined.

Lemma init_record_fields_read_back_witness :
  ∃ w',
    init_record_fields WARPING ["weight"; "target_idx"] ex_w = (Ok tt, w') ∧
    record_fields w' !! WARPING = Some ["weight"; "target_idx"] ∧
    record_fields w' !! RESAMPLING = Some ["decision_id"; "target_idxs"] ∧
    init_record_fields WARPING ["weight"] w' = (Raise H5Error, w').
Proof.
  destruct (init_record_fields_read_back ex_w WARPING ["weight"; "target_idx"] ["weight"]
              eq_refl eq_refl)
    as (w' & Hinit & Hw' & Hread & Hagain).
  exists w'. split; [exact Hinit|]. split; [exact Hread|]. split; [|exact Hagain].
  rewrite Hw'. reflexivity.
Defined.
